(** * Arkouda client core: registration protocol and Index / MultiIndex algebra

    A shallow embedding of [arkouda/util.py] and [arkouda/index.py].
    Python objects are values of small inductive types, exceptions are a
    [result] monad, and the remote symbol table is an explicit [server]
    state threaded through every call that talks to it.  A call that
    raises returns no state: what the server looks like after an
    exception is not described.  Code of the repository that is not in
    these two files (the array classes, the engine's kernels, the server)
    is either a parameter with a contract or a definition marked as
    modelled from the specification. *)

From Stdlib Require Import Ascii.
From stdpp Require Import base option numbers list strings pretty sorting.

Set Warnings "-register-all".

Local Open Scope string_scope.
Local Open Scope Z_scope.
Local Open Scope list_scope.

(** ** Python exceptions and results *)

Inductive py_error : Type :=
  | TypeError
  | ValueError
  | AttributeError
  | IndexError
  | RuntimeError
  | RegistrationError.

Inductive result (A : Type) : Type :=
  | Ok (a : A)
  | Raise (e : py_error).

Arguments Ok {A} a.
Arguments Raise {A} e.

#[global] Instance py_error_eq_dec : EqDecision py_error.
Proof. solve_decision. Defined.

#[global] Instance result_eq_dec {A} `{EqDecision A} : EqDecision (result A).
Proof. solve_decision. Defined.

#[global] Instance result_ret : MRet result := fun _ a => Ok a.

#[global] Instance result_bind : MBind result := fun _ _ f m =>
  match m with
  | Ok a => f a
  | Raise e => Raise e
  end.

#[global] Instance result_fmap : FMap result := fun _ _ f m =>
  match m with
  | Ok a => Ok (f a)
  | Raise e => Raise e
  end.

(** [try: m except Exception: raise e] *)
Definition try_except {A} (m : result A) (e : py_error) : result A :=
  match m with
  | Ok a => Ok a
  | Raise _ => Raise e
  end.

(** A call that ends in some exception. *)
Definition raises {A} (m : result A) : Prop := exists e, m = Raise e.

(** ** Scalars, dtypes and array handles *)

Inductive scalar : Type :=
  | SInt (z : Z)
  | SBool (b : bool)
  | SStr (s : string).

#[global] Instance scalar_eq_dec : EqDecision scalar.
Proof. solve_decision. Defined.

Inductive dtype : Type := akint64 | akfloat64 | akbool | akstr | akcategory.

#[global] Instance dtype_eq_dec : EqDecision dtype.
Proof. solve_decision. Defined.

(** The Python classes of array-like handles.  [Datetime], [Timedelta],
    [IPv4] and [BitVector] are subclasses of [pdarray]; [Strings] and
    [Categorical] are not. *)
Inductive akclass : Type :=
  | pdarray
  | Strings
  | Categorical
  | Datetime
  | Timedelta
  | IPv4
  | BitVector.

#[global] Instance akclass_eq_dec : EqDecision akclass.
Proof. solve_decision. Defined.

(** A local handle on a server-resident array: its Python class, the
    server name it refers to, the dtype and the elements.  [bv_width] and
    [bv_reverse] are the [width] and [reverse] attributes of a
    [BitVector]; [cast_attr] is the [_cast] attribute when the object has
    one. *)
Record akarray : Type := mk_akarray {
  ak_class : akclass;
  ak_name : string;
  ak_dtype : dtype;
  ak_data : list scalar;
  bv_width : nat;
  bv_reverse : bool;
  cast_attr : option akclass
}.

#[global] Instance akarray_eq_dec : EqDecision akarray.
Proof. solve_decision. Defined.

Definition ak_size (a : akarray) : nat := length (ak_data a).

(** Name of a transient server-side result. *)
Definition anon_name : string := "id_anon".

Definition raw_array (c : akclass) (d : dtype) (xs : list scalar) : akarray :=
  mk_akarray c anon_name d xs 64 false None.

Definition with_name (a : akarray) (n : string) : akarray :=
  mk_akarray (ak_class a) n (ak_dtype a) (ak_data a)
             (bv_width a) (bv_reverse a) (cast_attr a).

Definition with_class (a : akarray) (c : akclass) : akarray :=
  mk_akarray c (ak_name a) (ak_dtype a) (ak_data a)
             (bv_width a) (bv_reverse a) (cast_attr a).

(** ** Plain Python values that reach the code as arguments *)

Inductive pyobj : Type :=
  | PyNone
  | PyScalar (x : scalar)
  | PyArr (a : akarray)
  | PyList (l : list pyobj)
  | PyTuple (l : list pyobj).

(** [isinstance(o, pdarray)] *)
Definition isinstance_pdarray (o : pyobj) : bool :=
  match o with
  | PyArr a =>
      match ak_class a with
      | Strings | Categorical => false
      | _ => true
      end
  | _ => false
  end.

(** [isinstance(o, list)], [isinstance(o, tuple)] *)
Definition isinstance_list (o : pyobj) : bool :=
  match o with PyList _ => true | _ => false end.

Definition isinstance_tuple (o : pyobj) : bool :=
  match o with PyTuple _ => true | _ => false end.

(** [o.size]: only array handles carry the attribute. *)
Definition getattr_size (o : pyobj) : result nat :=
  match o with
  | PyArr a => Ok (ak_size a)
  | _ => Raise AttributeError
  end.

(** [str(k)] for a scalar. *)
Definition py_str (k : scalar) : string :=
  match k with
  | SInt z => pretty z
  | SBool true => "True"
  | SBool false => "False"
  | SStr s => s
  end.

(** ** The remote symbol table *)

(** Modelled from the spec: the registry of section 3, a mapping from name
    to object with a registered flag per symbol (registered symbols are a
    subset of all symbols).  The server is an external collaborator. *)
Record symbol : Type := mk_symbol {
  sym_obj : akarray;
  sym_registered : bool
}.

(** Modelled from the spec: the symbol table, in the order in which the
    server lists its names. *)
Definition server : Type := list (string * symbol).

(** Modelled from the spec: the object a name denotes. *)
Fixpoint st_lookup (name : string) (srv : server) : option symbol :=
  match srv with
  | [] => None
  | (n, e) :: rest => if decide (n = name) then Some e else st_lookup name rest
  end.

(** Modelled from the spec: the table without the name. *)
Fixpoint st_delete (name : string) (srv : server) : server :=
  match srv with
  | [] => []
  | (n, e) :: rest =>
      if decide (n = name) then st_delete name rest
      else (n, e) :: st_delete name rest
  end.

(** Modelled from the spec: the entry at [old] rebound to the name [new]
    and marked registered (re-registration changes only the name). *)
Fixpoint st_rename (old new : string) (srv : server) : server :=
  match srv with
  | [] => []
  | (n, e) :: rest =>
      if decide (n = old) then (new, mk_symbol (sym_obj e) true) :: rest
      else (n, e) :: st_rename old new rest
  end.

(** Modelled from the spec: the registered flag of a name set to [b]. *)
Fixpoint st_set_registered (name : string) (b : bool) (srv : server) : server :=
  match srv with
  | [] => []
  | (n, e) :: rest =>
      if decide (n = name) then (n, mk_symbol (sym_obj e) b) :: rest
      else (n, e) :: st_set_registered name b rest
  end.

(** Modelled from the spec: [list_symbol_table()], the registry_query of
    section 6 at the scope of all symbols. *)
Definition list_symbol_table (srv : server) : list string := srv.*1.

(** Modelled from the spec: [list_registry()], the same query at the
    scope of the registered symbols. *)
Definition list_registry (srv : server) : list string :=
  (filter (fun p => sym_registered p.2 = true) srv).*1.

(** Modelled from the spec: register_request.  It fails with a naming
    conflict when [new] already denotes a registered object of different
    identity and with a remote error when the handle's own name is
    unknown; otherwise the object is renamed in place and registered. *)
Definition server_register (old new : string) (srv : server) : result server :=
  match st_lookup old srv with
  | None => Raise RegistrationError
  | Some _ =>
      if decide (old = new) then Ok (st_set_registered old true srv)
      else
        match st_lookup new srv with
        | Some e' =>
            if sym_registered e' then Raise RegistrationError
            else Ok (st_rename old new (st_delete new srv))
        | None => Ok (st_rename old new srv)
        end
  end.

(** Modelled from the spec: unregister_request, rejected for an unknown
    name. *)
Definition server_unregister (name : string) (srv : server) : result server :=
  match st_lookup name srv with
  | None => Raise RuntimeError
  | Some _ => Ok (st_set_registered name false srv)
  end.

(** Modelled from the spec: the [register] method of an array handle
    (module [pdarrayclass]).  It renames the handle in place
    and returns it. *)
Definition pdarray_register (a : akarray) (user_defined_name : string)
    (srv : server) : result (akarray * server) :=
  srv' ← server_register (ak_name a) user_defined_name srv;
  Ok (with_name a user_defined_name, srv').

(** Modelled from the spec: the [unregister] method of an array handle. *)
Definition pdarray_unregister (a : akarray) (srv : server) : result server :=
  server_unregister (ak_name a) srv.

(** Modelled from the spec: delete_request (section 6).  The symbol is
    removed unless the name is registered; the request for an unknown
    name is rejected.  A handle that goes out of scope sends the request
    and ignores the answer (section 3, Lifecycle), so the object of an
    unregistered name is gone as soon as one handle bound to it dies. *)
Definition server_delete (name : string) (srv : server) : server :=
  if bool_decide (name ∈ list_registry srv) then srv else st_delete name srv.

(** Modelled from the spec: the server names a handle spans
    ([component_names], section 3).  A [Categorical] is held by the
    server as its codes and its categories, under [<name>.codes] and
    [<name>.categories], the sub-names of the registration tests; every
    other handle is one server object under its own name.  That holds
    for a [Strings] too: the same tests count one name in the registry
    after [s.register], and [util.attach] makes a [Strings] of the reply
    for one name; its byte and offset arrays come into being only when
    asked for, and a handle here carries none. *)
Definition component_names (a : akarray) : list string :=
  match ak_class a with
  | Categorical => [ak_name a +:+ ".codes"; ak_name a +:+ ".categories"]
  | _ => [ak_name a]
  end.

(** Modelled from the spec: the [register] method of a [Categorical]
    (section 4.1): each component is registered under the sub-name
    derived from the given name, and the name itself denotes no server
    object. *)
Definition Categorical_register (a : akarray) (user_defined_name : string)
    (srv : server) : result (akarray * server) :=
  srv ← server_register (ak_name a +:+ ".codes")
                        (user_defined_name +:+ ".codes") srv;
  srv ← server_register (ak_name a +:+ ".categories")
                        (user_defined_name +:+ ".categories") srv;
  Ok (with_name a user_defined_name, srv).

(** Modelled from the spec: the [unregister] method of a [Categorical]. *)
Definition Categorical_unregister (a : akarray) (srv : server) : result server :=
  srv ← server_unregister (ak_name a +:+ ".codes") srv;
  server_unregister (ak_name a +:+ ".categories") srv.

(** [a.register(name)] and [a.unregister()], resolved on the class of
    [a]. *)
Definition handle_register (a : akarray) (user_defined_name : string)
    (srv : server) : result (akarray * server) :=
  match ak_class a with
  | Categorical => Categorical_register a user_defined_name srv
  | _ => pdarray_register a user_defined_name srv
  end.

Definition handle_unregister (a : akarray) (srv : server) : result server :=
  match ak_class a with
  | Categorical => Categorical_unregister a srv
  | _ => pdarray_unregister a srv
  end.

(** The handles [hs] go out of scope, one after the other. *)
Definition drop_handles (hs : list akarray) (srv : server) : server :=
  foldl (fun s h => foldl (fun s n => server_delete n s) s (component_names h))
        srv hs.

(** Modelled from the spec: the reply of the [genericAttach] command, a
    type tag and the object (attach_request, section 6).  A name of the
    symbol table is answered with the array it denotes; a name that
    denotes nothing but has both components of a [Categorical] under its
    sub-names is answered with the [Categorical] they make up; any other
    name is unknown. *)
Definition genericAttach (name : string) (srv : server)
    : result (string * akarray) :=
  match st_lookup name srv with
  | Some e => Ok ("simple", with_name (sym_obj e) name)
  | None =>
      match st_lookup (name +:+ ".codes") srv,
            st_lookup (name +:+ ".categories") srv with
      | Some codes, Some categories =>
          let values :=
            omap (fun c => match c with
                           | SInt z =>
                               if bool_decide (0 ≤ z)
                               then ak_data (sym_obj categories) !! Z.to_nat z
                               else None
                           | _ => None
                           end) (ak_data (sym_obj codes)) in
          Ok ("categorical",
              mk_akarray Categorical name akcategory values 64 false None)
      | _, _ => Raise RuntimeError
      end
  end.

(** Modelled from the spec: the [genericUnregisterByName] command. *)
Definition genericUnregisterByName (name : string) (srv : server)
    : result (string * server) :=
  srv' ← server_unregister name srv;
  Ok ("Unregistered " +:+ name, srv').

(** ** Array kernels of the remote engine *)

(** Rows of a column-wise table: [rows [l0; l1; ...]] pairs the elements
    of the levels position by position, level 0 first. *)
Fixpoint rows (levels : list (list scalar)) : list (list scalar) :=
  match levels with
  | [] => []
  | [l] => (fun x => [x]) <$> l
  | l :: ls => zip_with cons l (rows ls)
  end.

Definition level_rows (levels : list akarray) : list (list scalar) :=
  rows (ak_data <$> levels).

(** Modelled from the spec: the elements of [xs] at the positions [pos],
    in the order of [pos]; a position outside [xs] contributes nothing. *)
Definition pick {A} (xs : list A) (pos : list nat) : list A :=
  omap (fun i => xs !! i) pos.

#[global] Arguments pick : simpl never.

(** Modelled from the spec: [a[i]] for an int64 index array [i]; every
    index must be in range. *)
Definition gather {A} (xs : list A) (idx : list Z) : result (list A) :=
  if forallb (fun i => (0 <=? i) && (i <? Z.of_nat (length xs))) idx
  then Ok (pick xs (Z.to_nat <$> idx))
  else Raise IndexError.

(** Modelled from the spec: the total order the engine sorts scalars by:
    integers by value, booleans with False first, strings
    lexicographically; values of different kinds (never met inside one
    typed array) by kind. *)
Definition scalar_le (x y : scalar) : Prop :=
  match x, y with
  | SInt a, SInt b => a ≤ b
  | SInt _, _ => True
  | SBool _, SInt _ => False
  | SBool a, SBool b => implb a b = true
  | SBool _, SStr _ => True
  | SStr a, SStr b => String.le a b
  | SStr _, _ => False
  end.

#[global] Instance scalar_le_dec : RelDecision scalar_le.
Proof. intros [a|a|a] [b|b|b]; simpl; apply _. Defined.

(** Modelled from the spec: the lexicographic order on rows, first
    component (level 0) most significant. *)
Fixpoint lex_le (r1 r2 : list scalar) : Prop :=
  match r1, r2 with
  | [], _ => True
  | _ :: _, [] => False
  | x :: r1', y :: r2' =>
      if decide (x = y) then lex_le r1' r2' else scalar_le x y
  end.

#[global] Instance lex_le_dec : RelDecision lex_le.
Proof.
  intros r1. induction r1 as [|x r1 IH]; intros [|y r2]; simpl; try apply _.
  destruct (decide (x = y)); [apply IH | apply _].
Defined.

(** The kernels of the remote engine the index algebra consumes.  They are
    external collaborators: the code below is written against this
    interface and the theorems assume only the contracts stated next. *)
Class Kernels : Type := {
  (** block placement of [concatenate(..., ordered=False)]: from the sizes
      of the pieces, the positions of the ordered concatenation in the
      order the engine lays them out *)
  concat_arrangement : list nat -> list nat;
  (** [unique] of one array *)
  unique_values : list scalar -> list scalar;
  (** [GroupBy(levels).unique_keys], level-wise *)
  groupby_unique_keys : list akarray -> result (list akarray);
  (** [coargsort(levels)] *)
  coargsort : list akarray -> result (list Z)
}.

(** Levels that form a table: at least one, all of one size. *)
Definition aligned (levels : list akarray) (n : nat) : Prop :=
  levels ≠ [] ∧ Forall (fun a => ak_size a = n) levels.

(** Unordered concatenation loses no element and invents none. *)
Definition arrangement_contract (K : Kernels) : Prop :=
  forall sizes, concat_arrangement sizes ≡ₚ seq 0 (sum_list sizes).

(** [unique] returns each value once. *)
Definition unique_contract (K : Kernels) : Prop :=
  forall xs, NoDup (unique_values xs) ∧ (forall x, x ∈ unique_values xs <-> x ∈ xs).

(** [unique_keys] returns each row once, as a table of the same width. *)
Definition unique_keys_contract (K : Kernels) : Prop :=
  forall levels n, aligned levels n ->
    exists keys m,
      groupby_unique_keys levels = Ok keys ∧
      length keys = length levels ∧
      aligned keys m ∧
      NoDup (level_rows keys) ∧
      (forall r, r ∈ level_rows keys <-> r ∈ level_rows levels).

(** [coargsort] returns a permutation of the positions that sorts the
    rows lexicographically. *)
Definition coargsort_contract (K : Kernels) : Prop :=
  forall levels n, aligned levels n ->
    exists p,
      coargsort levels = Ok p ∧
      p ≡ₚ Z.of_nat <$> seq 0 n ∧
      Sorted lex_le (pick (level_rows levels) (Z.to_nat <$> p)).

(** Modelled from the spec: what [array] accepts as an item, a scalar. *)
Definition array_item (o : pyobj) : result scalar :=
  match o with
  | PyScalar x => Ok x
  | _ => Raise TypeError
  end.

Definition is_SBool (x : scalar) : bool :=
  match x with SBool _ => true | _ => false end.

Definition is_SStr (x : scalar) : bool :=
  match x with SStr _ => true | _ => false end.

Definition to_int (x : scalar) : scalar :=
  match x with
  | SBool true => SInt 1
  | SBool false => SInt 0
  | _ => x
  end.

(** Modelled from the spec: the array constructor [array] of
    [pdarraycreation].  A list of scalars becomes
    one typed array the way numpy coerces it: booleans stay booleans,
    integers (with booleans as 0 and 1) become int64, and a list holding a
    string becomes [Strings]; anything that is not a scalar is rejected. *)
Definition array (l : list pyobj) : result akarray :=
  xs ← mapM array_item l;
  match xs with
  | [] => Ok (raw_array pdarray akfloat64 [])
  | _ =>
      if existsb is_SStr xs
      then Ok (raw_array Strings akstr ((fun x => SStr (py_str x)) <$> xs))
      else if forallb is_SBool xs then Ok (raw_array pdarray akbool xs)
      else Ok (raw_array pdarray akint64 (to_int <$> xs))
  end.

(** Modelled from the spec: [arange(start, stop, step)]. *)
Definition arange (start stop step : Z) : list Z :=
  let n :=
    if 0 <? step then (stop - start + step - 1) `div` step
    else if step <? 0 then (start - stop - step - 1) `div` (- step)
    else 0 in
  (fun k => start + Z.of_nat k * step) <$> seq 0 (Z.to_nat n).

(** Modelled from the spec: the class of the raw result of a kernel
    applied to a wrapped array (section 4.3). *)
Definition raw_class (c : akclass) : akclass :=
  match c with
  | Strings => Strings
  | Categorical => Categorical
  | _ => pdarray
  end.

(** Modelled from the spec: [pdarraysetops.concatenate].  The pieces must
    share one dtype; with [ordered] the pieces follow one another in the
    order given, otherwise the engine lays the same elements out by
    [concat_arrangement]. *)
Definition pdarrayconcatenate `{Kernels} (items : list akarray) (ordered : bool)
    : result akarray :=
  match items with
  | [] => Raise ValueError
  | a :: _ =>
      if forallb (fun b => bool_decide (ak_dtype b = ak_dtype a)) items then
        let all := concat (ak_data <$> items) in
        let data :=
          if ordered then all
          else pick all (concat_arrangement (ak_size <$> items)) in
        Ok (raw_array (ak_class a) (ak_dtype a) data)
      else Raise ValueError
  end.

(** Modelled from the spec: [unique] of [groupbyclass]. *)
Definition unique `{Kernels} (a : akarray) : akarray :=
  raw_array (raw_class (ak_class a)) (ak_dtype a) (unique_values (ak_data a)).

(** Modelled from the spec: [GroupBy(keys).count()], the unique keys and
    the size of each group. *)
Definition GroupBy_count `{Kernels} (keys : list akarray)
    : result (list akarray * list Z) :=
  uk ← groupby_unique_keys keys;
  let all := level_rows keys in
  Ok (uk, (fun r => Z.of_nat (length (filter (fun r' => r' = r) all)))
            <$> level_rows uk).

(** The array behind a Python value; any other value is a type error. *)
Definition as_array (o : pyobj) : result akarray :=
  match o with
  | PyArr a => Ok a
  | _ => Raise TypeError
  end.

(** Modelled from the spec: the boolean mask telling, for each of [xs],
    whether it is one of [keys]. *)
Definition mask_of {A} `{EqDecision A} (xs keys : list A) : akarray :=
  raw_array pdarray akbool ((fun x => SBool (bool_decide (x ∈ keys))) <$> xs).

(** The items of a list or tuple. *)
Definition seq_items (o : pyobj) : option (list pyobj) :=
  match o with
  | PyList l | PyTuple l => Some l
  | _ => None
  end.

(** Modelled from the spec: [in1d], the membership mask.  With two arrays
    it tests the elements; with two sequences of arrays it tests the rows
    and rejects a mismatched number of arrays with a type error. *)
Definition in1d (pda1 pda2 : pyobj) : result akarray :=
  match pda1, pda2 with
  | PyArr a, PyArr b => Ok (mask_of (ak_data a) (ak_data b))
  | _, _ =>
      match seq_items pda1, seq_items pda2 with
      | Some l1, Some l2 =>
          if decide (length l1 ≠ length l2) then Raise TypeError
          else
            a1 ← mapM as_array l1;
            a2 ← mapM as_array l2;
            Ok (mask_of (level_rows a1) (level_rows a2))
      | _, _ => Raise TypeError
      end
  end.

(** ** Python dicts and strings *)

(** A dict in insertion order: assigning to a key that is present
    replaces its value in place. *)
Fixpoint dict_set {K V} `{EqDecision K} (k : K) (v : V) (d : list (K * V))
    : list (K * V) :=
  match d with
  | [] => [(k, v)]
  | (k', v') :: rest =>
      if decide (k' = k) then (k, v) :: rest
      else (k', v') :: dict_set k v rest
  end.

Fixpoint dict_get {K V} `{EqDecision K} (k : K) (d : list (K * V)) : option V :=
  match d with
  | [] => None
  | (k', v') :: rest => if decide (k' = k) then Some v' else dict_get k rest
  end.

Definition chars (s : string) : list ascii := String.list_ascii_of_string s.
Definition text (cs : list ascii) : string := String.string_of_list_ascii cs.

(** [s.replace(old, new)] for one-character [old] and [new]. *)
Definition str_replace_char (old new : ascii) (s : string) : string :=
  text ((fun c => if decide (c = old) then new else c) <$> chars s).

(** [", ".join(l)] *)
Fixpoint str_join (sep : string) (l : list string) : string :=
  match l with
  | [] => ""
  | [s] => s
  | s :: rest => s +:+ sep +:+ str_join sep rest
  end.

(** [str(l)] for a list of names: each is shown between single quotes
    (names hold no quote, backslash or control character). *)
Definition str_of_names (l : list string) : string :=
  "[" +:+ str_join ", " ((fun n => "'" +:+ n +:+ "'") <$> l) +:+ "]".

(** [str(a)] for an array: the elements between brackets. *)
Definition str_of_array (a : akarray) : string :=
  "[" +:+ str_join " " (py_str <$> ak_data a) +:+ "]".

(** ** The pattern of [attach_all] *)

Definition is_digit (c : ascii) : bool :=
  let n := nat_of_ascii c in (48 <=? n)%nat && (n <=? 57)%nat.

(** [\w] on ASCII text *)
Definition is_word (c : ascii) : bool :=
  let n := nat_of_ascii c in
  is_digit c || ((65 <=? n)%nat && (n <=? 90)%nat)
  || ((97 <=? n)%nat && (n <=? 122)%nat) || (n =? 95)%nat.

(** [[\w.]] *)
Definition is_word_or_dot (c : ascii) : bool :=
  is_word c || (nat_of_ascii c =? 46)%nat.

(** Longest prefix of [s] whose characters satisfy [p], and the rest. *)
Fixpoint span (p : ascii -> bool) (s : list ascii) : list ascii * list ascii :=
  match s with
  | c :: s' =>
      if p c then let '(a, b) := span p s' in (c :: a, b) else ([], s)
  | [] => ([], [])
  end.

(** [s] without the leading [pre], when it starts with it. *)
Fixpoint strip_literal (pre s : list ascii) : option (list ascii) :=
  match pre, s with
  | [], _ => Some s
  | c :: pre', d :: s' => if decide (c = d) then strip_literal pre' s' else None
  | _ :: _, [] => None
  end.

(** [{prefix}[\w.]+] at the start of [s]: the text matched. *)
Definition match_body (pre s : list ascii) : option (list ascii) :=
  match strip_literal pre s with
  | Some s1 =>
      match span is_word_or_dot s1 with
      | ([], _) => None
      | (ws, _) => Some (pre ++ ws)%list
      end
  | None => None
  end.

(** [(?:\d+_)?{prefix}[\w.]+] at the start of [s].  The optional group is
    tried first, with all the digits there are, and given up when the
    rest does not follow. *)
Definition match_here (pre s : list ascii) : option (list ascii) :=
  let with_locale :=
    match span is_digit s with
    | ([], _) => None
    | (ds, c :: s1) =>
        if decide (c = "_"%char) then
          m ← match_body pre s1; Some (ds ++ "_"%char :: m)%list
        else None
    | (_, []) => None
    end in
  match with_locale with
  | Some m => Some m
  | None => match_body pre s
  end.

(** [pat.findall(s)]: the matches from left to right, none overlapping;
    [skip] counts the characters of the last match still to pass. *)
Fixpoint findall_from (pre : list ascii) (skip : nat) (s : list ascii)
    : list (list ascii) :=
  match s with
  | [] => []
  | _ :: s' =>
      match skip with
      | S k => findall_from pre k s'
      | O =>
          match match_here pre s with
          | Some m => m :: findall_from pre (length m - 1) s'
          | None => findall_from pre 0 s'
          end
      end
  end.

(** The pattern is built by splicing [prefix] into the expression; it is
    read here as the literal text, which is its meaning for a prefix free
    of regular-expression metacharacters. *)
Definition findall (prefix : string) (s : string) : list string :=
  text <$> findall_from (chars prefix) 0 (chars s).

(** The characters with a meaning of their own in a regular expression. *)
Definition is_meta (c : ascii) : bool :=
  bool_decide (c ∈ chars ".^$*+?{}[]\|()").

(** A prefix that the pattern reads as the text it is: ASCII characters,
    none of them special in a regular expression.  Any other prefix
    changes what the pattern matches, or makes [re.compile] raise, and
    is outside what [findall] above describes. *)
Definition regex_literal (prefix : string) : bool :=
  forallb (fun c => negb (is_meta c) && (nat_of_ascii c <? 128)%nat) (chars prefix).

(** Text on which [\w] and [\d] are the ASCII classes. *)
Definition is_ascii_text (s : string) : bool :=
  forallb (fun c => (nat_of_ascii c <? 128)%nat) (chars s).

(** A name that [str] shows as it is between single quotes: printable
    ASCII without quote or backslash. *)
Definition plain_name (n : string) : bool :=
  forallb (fun c => (32 <=? nat_of_ascii c)%nat && (nat_of_ascii c <? 127)%nat
                    && negb (bool_decide (c ∈ chars "'\")))
          (chars n).

(** [k[n:]] *)
Definition str_drop (n : nat) (k : string) : string := text (drop n (chars k)).

(** ** arkouda/util.py *)

(** What [get_callback] returns: a class used as constructor, the
    [_cast] attribute of the object, a [BitVectorizer] closed over width
    and bit order, or [identity]. *)
Inductive callback : Type :=
  | CbType (c : akclass)
  | CbCast (c : akclass)
  | CbBitVectorizer (width : nat) (reverse : bool)
  | CbIdentity.

(** The handle objects of the client.  [register] renames a handle in
    place and a container may hold one object at several places, so a
    container holds references and the objects they denote are kept in a
    store. *)
Definition heap : Type := nat -> akarray.

Definition heap_set (r : nat) (a : akarray) (h : heap) : heap :=
  fun r' => if decide (r' = r) then a else h r'.

(** The containers [register_all] accepts. *)
Inductive collection : Type :=
  | CDict (items : list (scalar * nat))
  | CDataFrame (items : list (scalar * nat))
  | CList (l : list nat)
  | CTuple (l : list nat)
  | CObject (r : nat).

(** Run [f] over [l] from left to right, threading the server. *)
Fixpoint mapM_server {A B} (f : A -> server -> result (B * server))
    (l : list A) (srv : server) : result (list B * server) :=
  match l with
  | [] => Ok ([], srv)
  | x :: rest =>
      '(y, srv1) ← f x srv;
      '(ys, srv2) ← mapM_server f rest srv1;
      Ok (y :: ys, srv2)
  end.

Module util.

Definition identity {A} (x : A) : A := x.

Definition get_callback (x : akarray) : callback :=
  if bool_decide (ak_class x ∈ [Datetime; Timedelta; IPv4]) then
    CbType (ak_class x)
  else
    match cast_attr x with
    | Some c => CbCast c
    | None =>
        if bool_decide (ak_class x = BitVector) then
          CbBitVectorizer (bv_width x) (bv_reverse x)
        else CbIdentity
    end.

(** Modelled from the spec: applying a callback re-wraps the raw values
    in the semantic class (section 4.3); the values stay as they are. *)
Definition apply_callback (cb : callback) (raw : akarray) : akarray :=
  match cb with
  | CbType c | CbCast c => with_class raw c
  | CbBitVectorizer w r =>
      mk_akarray BitVector (ak_name raw) (ak_dtype raw) (ak_data raw)
                 w r (cast_attr raw)
  | CbIdentity => identity raw
  end.

(** None of the array classes has a [concat] attribute, so the
    [t.concat] alternative is not taken for them. *)
Definition generic_concat `{Kernels} (items : list akarray) (ordered : bool)
    : result akarray :=
  let types := remove_dups (ak_class <$> items) in
  if decide (length types ≠ 1%nat) then Raise TypeError
  else pdarrayconcatenate items ordered.

Definition register (a : akarray) (name : string) (srv : server)
    : result (akarray * server) :=
  let cb := @identity akarray in
  if bool_decide (ak_class a ∈ [Datetime; Timedelta; BitVector; IPv4]) then
    '(a, srv) ← handle_register a name srv;
    let n := ak_name a in
    let reg := cb a in
    Ok (with_name reg n, srv)
  else
    '(a, srv) ← handle_register a name srv;
    let reg := cb a in
    Ok (reg, srv).

(** The [series], [dataframe] and [segarray] replies build objects that
    are not array handles; the server of this development never sends
    them.  A [simple] reply is made into a [Strings] when its dtype is
    [str] and into a plain [pdarray] otherwise.  The private byte and
    offset components a [Strings] handle may pick up from the registry
    are not part of a handle here. *)
Definition attach (name : string) (srv : server) : result akarray :=
  '(repType, obj) ← genericAttach name srv;
  if decide (repType = "categorical") then Ok (with_name obj name)
  else if decide (repType = "series") then Raise RuntimeError
  else if decide (repType = "dataframe") then Raise RuntimeError
  else if decide (repType = "segarray") then Raise RuntimeError
  else if decide (repType = "simple") then
    if decide (ak_dtype obj = akstr) then Ok (with_class obj Strings)
    else Ok (with_class obj pdarray)
  else Raise ValueError.

Definition attach_all (prefix : string) (srv : server)
    : result (list (string * akarray)) :=
  let res := findall prefix (str_of_names (list_symbol_table srv)) in
  foldl (fun acc k =>
           d ← acc;
           h ← attach k srv;
           Ok (dict_set (str_drop (String.length prefix) k) h d))
        (Ok []) res.

(** The handles of [att] go out of scope when the function returns. *)
Definition unregister_all (prefix : string) (srv : server) : result server :=
  att ← attach_all prefix srv;
  srv ← foldl (fun acc v => s ← acc; handle_unregister v s) (Ok srv) att.*2;
  Ok (drop_handles att.*2 srv).

Definition sanitize (str_k : string) : string :=
  str_replace_char " "%char "_"%char str_k.

(** What [for k in data] yields, as [str(k)]. *)
Definition iter_str (data : collection) (h : heap) : list string :=
  match data with
  | CDict items | CDataFrame items => (fun kv => py_str kv.1) <$> items
  | CList l | CTuple l => (fun r => str_of_array (h r)) <$> l
  | CObject r => py_str <$> ak_data (h r)
  end.

(** [register(v, name)] for the object at [r]: the handle is renamed in
    place, and what comes back is that object. *)
Definition register_obj (r : nat) (name : string) (st : heap * server)
    : result (heap * server) :=
  '(reg, srv) ← register (st.1 r) name st.2;
  Ok (heap_set r reg st.1, srv).

(** The comprehensions of [register_all]: the objects are registered
    from left to right, each under its name. *)
Fixpoint register_objs (rns : list (nat * string)) (st : heap * server)
    : result (heap * server) :=
  match rns with
  | [] => Ok st
  | (r, name) :: rest =>
      st ← register_obj r name st;
      register_objs rest st
  end.

(** The handles of [att] go out of scope when the function returns. *)
Definition register_all (data : collection) (prefix : string)
    (overwrite : bool) (h : heap) (srv : server)
    : result (collection * heap * server) :=
  '(att, srv) ← (if overwrite then
                   att ← attach_all prefix srv;
                   srv ← foldl (fun acc k =>
                                  s ← acc;
                                  let ksan := sanitize k in
                                  match dict_get ksan att with
                                  | Some v => handle_unregister v s
                                  | None => Ok s
                                  end)
                               (Ok srv) (iter_str data h);
                   Ok (att, srv)
                 else Ok ([], srv));
  '(out, st) ←
    match data with
    | CDict items =>
        st ← register_objs
               ((fun kv => (kv.2, prefix +:+ sanitize (py_str kv.1))) <$> items)
               (h, srv);
        Ok (CDict items, st)
    | CDataFrame items =>
        st ← register_objs
               ((fun kv => (kv.2, prefix +:+ sanitize (py_str kv.1))) <$> items)
               (h, srv);
        Ok (CDataFrame items, st)
    | CList l =>
        st ← register_objs (imap (fun i r => (r, prefix +:+ pretty i)) l) (h, srv);
        Ok (CList l, st)
    | CTuple l =>
        st ← register_objs (imap (fun i r => (r, prefix +:+ pretty i)) l) (h, srv);
        Ok (CTuple l, st)
    | CObject r =>
        '(reg, srv) ← try_except (handle_register (h r) prefix srv)
                                 RegistrationError;
        Ok (CObject r, (heap_set r reg h, srv))
    end;
  Ok (out, st.1, drop_handles att.*2 st.2).

Definition unregister_by_name (name : string) (srv : server)
    : result (string * server) :=
  genericUnregisterByName name srv.

End util.

(** ** arkouda/index.py *)

(** An [Index] object: the attributes its constructor sets. *)
Record Index : Type := mk_Index {
  idx_values : akarray;
  idx_size : nat;
  idx_dtype : dtype;
  idx_name : option string
}.

(** A [MultiIndex] object.  Its constructor sets [values], [levels] and,
    when there is a first level, [size]; it never sets [name], which the
    methods inherited from [Index] read: [mi_name] is [None] while the
    attribute is absent and [Some v] once a caller has assigned [v]. *)
Record MultiIndex : Type := mk_MultiIndex {
  mi_values : list akarray;
  mi_size : option nat;
  mi_levels : nat;
  mi_name : option (option string)
}.

(** An instance of [Index]: of the class itself or of its subclass. *)
Inductive index_obj : Type :=
  | AnIndex (i : Index)
  | AMultiIndex (m : MultiIndex).

(** The values the constructors and [factory] receive: a plain Python
    value, an index object, or a pandas index (its values and name). *)
Inductive pyval : Type :=
  | VObj (o : pyobj)
  | VIdx (x : index_obj)
  | VPdIndex (vals : list pyobj) (nm : option string).




(** [self.name] *)
Definition getattr_name (self : index_obj) : result (option string) :=
  match self with
  | AnIndex i => Ok (idx_name i)
  | AMultiIndex m =>
      match mi_name m with
      | Some v => Ok v
      | None => Raise AttributeError
      end
  end.

(** [self.values], as the key of a [GroupBy]: one array or a list. *)
Definition key_levels (self : index_obj) : list akarray :=
  match self with
  | AnIndex i => [idx_values i]
  | AMultiIndex m => mi_values m
  end.

(** [f"{x}"] for an optional string: [None] prints as its name. *)
Definition fmt_opt (x : option string) : string :=
  match x with
  | Some s => s
  | None => "None"
  end.

(** [name if name else other] *)
Definition name_or (name other : option string) : option string :=
  match name with
  | Some s => if decide (s = "") then other else Some s
  | None => other
  end.

(** The rows of a MultiIndex and the elements of an Index. *)
Definition mi_rows (m : MultiIndex) : list (list scalar) :=
  level_rows (mi_values m).

Definition idx_elems (i : Index) : list scalar := ak_data (idx_values i).

Module Index.

(** [Index.__init__], under [@typechecked]: a value outside the declared
    union is a type error. *)
Definition __init__ (values : pyval) (name : option string) : result Index :=
  match values with
  | VIdx (AnIndex v) =>
      Ok (mk_Index (idx_values v) (idx_size v) (idx_dtype v)
                   (name_or name (idx_name v)))
  | VIdx (AMultiIndex v) =>
      (* [values.dtype]: a MultiIndex has no such attribute *)
      Raise AttributeError
  | VPdIndex vals nm =>
      a ← array vals;
      Ok (mk_Index a (length vals) (ak_dtype a) (name_or name nm))
  | VObj (PyList l) =>
      a ← array l;
      Ok (mk_Index a (ak_size a) (ak_dtype a) name)
  | VObj (PyArr a) => Ok (mk_Index a (ak_size a) (ak_dtype a) name)
  | VObj _ => Raise TypeError
  end.

(** Inherited by [MultiIndex]. *)
Definition is_unique `{Kernels} (self : index_obj) : result bool :=
  '(key, ct) ← GroupBy_count (key_levels self);
  Ok (forallb (fun c => c =? 1) ct).

Definition register (self : Index) (label : string) (srv : server)
    : result (Index * Z * server) :=
  '(reg, srv) ← util.register (idx_values self) (label +:+ "_key") srv;
  Ok (mk_Index reg (idx_size self) (idx_dtype self) (Some label), 1, srv).

(** Inherited by [MultiIndex]. *)
Definition is_registered (self : index_obj) (srv : server) : result bool :=
  name ← getattr_name self;
  Ok (bool_decide (fmt_opt name +:+ "_key" ∈ list_registry srv)).

(** Inherited by [MultiIndex]: [type(self) is not type(other)]. *)
Definition _check_types (self : index_obj) (other : pyval) : result index_obj :=
  match self, other with
  | AnIndex _, VIdx (AnIndex o) => Ok (AnIndex o)
  | AMultiIndex _, VIdx (AMultiIndex o) => Ok (AMultiIndex o)
  | _, _ => Raise TypeError
  end.

Definition _merge `{Kernels} (self : Index) (other : pyval) : result Index :=
  other ← _check_types (AnIndex self) other;
  match other with
  | AnIndex other =>
      let callback := util.get_callback (idx_values self) in
      idx ← util.generic_concat [idx_values self; idx_values other] false;
      __init__ (VObj (PyArr (util.apply_callback callback (unique idx)))) None
  | AMultiIndex _ => Raise TypeError
  end.

Definition concat `{Kernels} (self : Index) (other : pyval) : result Index :=
  other ← _check_types (AnIndex self) other;
  match other with
  | AnIndex other =>
      idx ← util.generic_concat [idx_values self; idx_values other] true;
      __init__ (VObj (PyArr idx)) None
  | AMultiIndex _ => Raise TypeError
  end.

Definition lookup (self : Index) (key : pyobj) : result akarray :=
  key ← (if negb (isinstance_pdarray key)
         then try_except (PyArr <$> array [key]) TypeError
         else Ok key);
  in1d (PyArr (idx_values self)) key.

End Index.

Module MultiIndex.

(** The loop of the constructor: the first column fixes [size], each
    later one is compared with it.  [size] is [None] while [first] holds. *)
Fixpoint init_loop (cols : list pyobj) (size : option nat)
    : result (option nat * list akarray) :=
  match cols with
  | [] => Ok (size, [])
  | col :: rest =>
      s ← getattr_size col;
      a ← as_array col;
      size ← match size with
             | None => Ok (Some s)
             | Some n => if decide (s ≠ n) then Raise ValueError else Ok (Some n)
             end;
      '(size, arrs) ← init_loop rest size;
      Ok (size, a :: arrs)
  end.

Definition __init__ (values : pyval) : result MultiIndex :=
  match values with
  | VObj o =>
      if negb (isinstance_list o || isinstance_tuple o) then Raise TypeError
      else
        let cols := default [] (seq_items o) in
        '(size, arrs) ← init_loop cols None;
        Ok (mk_MultiIndex arrs size (length arrs) None)
  | _ => Raise TypeError
  end.

(** [self[key]] for an int64 index array [key]. *)
Definition getitem_array (a : akarray) (key : list Z) : result akarray :=
  xs ← gather (ak_data a) key;
  Ok (raw_array (raw_class (ak_class a)) (ak_dtype a) xs).

Definition __getitem__ (self : MultiIndex) (key : list Z) : result MultiIndex :=
  cols ← mapM (fun i => getitem_array i key) (mi_values self);
  __init__ (VObj (PyList (PyArr <$> cols))).

Definition register_level (label : string) (iarr : nat * akarray)
    (srv : server) : result (akarray * server) :=
  util.register iarr.2 (label +:+ "_key_" +:+ pretty iarr.1) srv.

Definition register (self : MultiIndex) (label : string) (srv : server)
    : result (MultiIndex * Z * server) :=
  '(regs, srv) ← mapM_server (register_level label) (imap pair (mi_values self)) srv;
  Ok (mk_MultiIndex regs (mi_size self) (mi_levels self) (mi_name self),
      Z.of_nat (length (mi_values self)), srv).

(** [[generic_concat([ix1, ix2], ordered) for ix1, ix2 in zip(a, b)]] *)
Definition concat_levels `{Kernels} (a b : list akarray) (ordered : bool)
    : result (list akarray) :=
  mapM (fun p => util.generic_concat [p.1; p.2] ordered) (zip a b).

Definition _merge `{Kernels} (self : MultiIndex) (other : pyval)
    : result MultiIndex :=
  other ← Index._check_types (AMultiIndex self) other;
  match other with
  | AMultiIndex other =>
      idx ← concat_levels (mi_values self) (mi_values other) false;
      keys ← groupby_unique_keys idx;
      __init__ (VObj (PyList (PyArr <$> keys)))
  | AnIndex _ => Raise TypeError
  end.

Definition argsort `{Kernels} (self : MultiIndex) (ascending : bool)
    : result (list Z) :=
  i ← coargsort (mi_values self);
  if negb ascending then
    match mi_size self with
    | Some size => gather i (arange (Z.of_nat size - 1) (-1) (-1))
    | None => Raise AttributeError
    end
  else Ok i.

Definition concat `{Kernels} (self : MultiIndex) (other : pyval)
    : result MultiIndex :=
  other ← Index._check_types (AMultiIndex self) other;
  match other with
  | AMultiIndex other =>
      idx ← concat_levels (mi_values self) (mi_values other) true;
      __init__ (VObj (PyList (PyArr <$> idx)))
  | AnIndex _ => Raise TypeError
  end.

Definition lookup (self : MultiIndex) (key : pyobj) : result akarray :=
  if negb (isinstance_list key) && negb (isinstance_tuple key)
  then Raise TypeError
  else
    let items := default [] (seq_items key) in
    match items with
    | [] => Raise IndexError
    | key0 :: _ =>
        key ← (if negb (isinstance_pdarray key0)
               then PyList <$> mapM (fun x => PyArr <$> array [x]) items
               else Ok key);
        in1d (PyList (PyArr <$> mi_values self)) key
    end.

End MultiIndex.


(** ** A reference engine

    An executable instance of the kernel interface, used to run the code
    on concrete inputs: ordered placement, first-occurrence
    deduplication and a stable merge sort of the positions. *)

(** Columns of a table of [k]-wide rows: the inverse of [rows]. *)
Fixpoint columns (k : nat) (rs : list (list scalar)) : list (list scalar) :=
  match k with
  | O => []
  | S O => [default (SInt 0) ∘ head <$> rs]
  | S k' => (default (SInt 0) ∘ head <$> rs) :: columns k' (tail <$> rs)
  end.

Definition same_size (levels : list akarray) : bool :=
  match levels with
  | [] => false
  | a :: rest => forallb (fun b => bool_decide (ak_size b = ak_size a)) rest
  end.

Definition ref_unique_keys (levels : list akarray) : result (list akarray) :=
  if same_size levels then
    let cols := columns (length levels) (remove_dups (level_rows levels)) in
    Ok (zip_with (fun a col => raw_array (raw_class (ak_class a)) (ak_dtype a) col)
                 levels cols)
  else Raise ValueError.

(** Position [i] comes before position [j] when its row does. *)
Definition row_le (rs : list (list scalar)) (i j : nat) : Prop :=
  lex_le (default [] (rs !! i)) (default [] (rs !! j)).

#[global] Instance row_le_dec rs : RelDecision (row_le rs).
Proof. intros i j. unfold row_le. apply _. Defined.

Definition ref_coargsort (levels : list akarray) : result (list Z) :=
  if same_size levels then
    let rs := level_rows levels in
    Ok (Z.of_nat <$> merge_sort (row_le rs) (seq 0 (length rs)))
  else Raise ValueError.

Definition ref_kernels : Kernels := {|
  concat_arrangement := fun sizes => seq 0 (sum_list sizes);
  unique_values := remove_dups;
  groupby_unique_keys := ref_unique_keys;
  coargsort := ref_coargsort
|}.

(** An int64 array and a server that holds the given arrays, none
    registered. *)
Definition int_array (name : string) (xs : list Z) : akarray :=
  mk_akarray pdarray name akint64 (SInt <$> xs) 64 false None.

Definition fresh_server (arrs : list akarray) : server :=
  (fun a => (ak_name a, mk_symbol a false)) <$> arrs.

(** ** Sample objects *)

Definition lvl0 : akarray := int_array "id_1" [0; 1; 2].
Definition lvl1 : akarray := int_array "id_2" [2; 1; 0].

(** [MultiIndex([lvl0, lvl1])] and a server holding its levels. *)
Definition sample_mi : MultiIndex := mk_MultiIndex [lvl0; lvl1] (Some 3%nat) 2 None.
Definition sample_srv : server := fresh_server [lvl0; lvl1].

(** The same object once a caller has assigned [name = label]. *)
Definition set_name (m : MultiIndex) (label : string) : MultiIndex :=
  mk_MultiIndex (mi_values m) (mi_size m) (mi_levels m) (Some (Some label)).

Definition py_ints (zs : list Z) : pyobj := PyList (PyScalar ∘ SInt <$> zs).





(** The name under which [register_all] registers the element at key [k]. *)
Definition target_name (prefix : string) (k : scalar) : string :=
  prefix +:+ util.sanitize (py_str k).


Definition list_targets (prefix : string) (l : list nat) : list (nat * string) :=
  imap (fun i r => (r, prefix +:+ pretty i)) l.

(** No object is, before the call, named as the target of an object that
    comes earlier. *)
Fixpoint targets_fresh (h : heap) (rns : list (nat * string)) : Prop :=
  match rns with
  | [] => True
  | rn :: rest =>
      Forall (fun rn' => ak_name (h rn'.1) ≠ rn.2) rest ∧ targets_fresh h rest
  end.

(** The invariants of the data model (section 3). *)
Definition Index_wf (i : Index) : Prop := idx_size i = ak_size (idx_values i).

Definition MultiIndex_wf (m : MultiIndex) (n : nat) : Prop :=
  aligned (mi_values m) n ∧ mi_size m = Some n
  ∧ mi_levels m = length (mi_values m).

(** A store with the two sample levels, and a mapping over it with a key
    that holds a space. *)
Definition sample_heap : heap :=
  fun r => match r with O => lvl0 | _ => lvl1 end.



Definition cat_categories : akarray :=
  mk_akarray Strings "id_3.categories" akstr [SStr "a"; SStr "b"] 64 false None.







(** A single-level index over [lvl0], and the state after
    [register("idx")]. *)
Definition sample_idx : Index := mk_Index lvl0 3 akint64 None.

(** An [Index] over a [Strings] array, one over an array of booleans,
    and a [MultiIndex] of three levels. *)
Definition sample_str_idx : Index := mk_Index cat_categories 2 akstr None.

Definition sample_bool_idx : Index :=
  mk_Index (raw_array pdarray akbool [SBool true; SBool false]) 2 akbool None.

Definition sample_mi3 : MultiIndex :=
  mk_MultiIndex [lvl0; lvl1; lvl0] (Some 3%nat) 3 None.



(** ** The rest of the two files *)

(** The handle [attach] makes of the array a name denotes: a [Strings]
    for the dtype [str], a plain [pdarray] otherwise. *)
Definition attached (obj : akarray) (name : string) : akarray :=
  with_class (with_name obj name)
             (if decide (ak_dtype obj = akstr) then Strings else pdarray).

(** Boolean arrays are lists of booleans below. *)

(** Modelled from the spec: [a == other] for an array (section 4.2,
    Equality): position by position against an array of the same size,
    against every element for a scalar; sizes that differ are a value
    error, any other operand a type error. *)
Definition binop_eq (a : akarray) (other : pyobj) : result (list bool) :=
  match other with
  | PyArr b =>
      if decide (ak_size a ≠ ak_size b) then Raise ValueError
      else Ok (zip_with (fun x y => bool_decide (x = y)) (ak_data a) (ak_data b))
  | PyScalar y => Ok ((fun x => bool_decide (x = y)) <$> ak_data a)
  | _ => Raise TypeError
  end.

(** Modelled from the spec: [retval &= mask] on boolean arrays, which must
    be of one size. *)
Definition binop_and (retval mask : list bool) : result (list bool) :=
  if decide (length retval ≠ length mask) then Raise ValueError
  else Ok (zip_with andb retval mask).

(** Modelled from the spec: [mask.sum()], the number of true entries. *)
Definition bool_sum (mask : list bool) : nat := length (filter (fun b => b = true) mask).

(** Two's-complement wrap-around of a 64-bit integer. *)
Definition wrap64 (z : Z) : Z := (z + 2 ^ 63) `mod` 2 ^ 64 - 2 ^ 63.

(** Modelled from the spec: [-a] for a numeric array, with int64
    wrap-around. *)
Definition negate (a : akarray) : akarray :=
  mk_akarray (ak_class a) anon_name (ak_dtype a)
             ((fun x => match x with SInt z => SInt (wrap64 (- z)) | _ => x end)
                <$> ak_data a)
             (bv_width a) (bv_reverse a) (cast_attr a).

(** The single-array sort of the engine, [argsort] of [pdarraysetops]: an
    external collaborator like the kernels above. *)
Class SortKernel : Type := {
  argsort : akarray -> result (list Z)
}.

(** [argsort] returns a permutation of the positions that puts the
    elements in ascending order. *)
Definition argsort_contract (S : SortKernel) : Prop :=
  forall a, exists p,
    argsort a = Ok p
    ∧ p ≡ₚ Z.of_nat <$> seq 0 (ak_size a)
    ∧ Sorted scalar_le (pick (ak_data a) (Z.to_nat <$> p)).

(** The [labels] argument of [to_dict]: [None], or a list of names. *)
Definition labels_arg : Type := option (list string).

(** The [label] argument of [Index.to_dict]: [None], a list or a name. *)
Inductive label_arg : Type :=
  | LNone
  | LList (l : list string)
  | LStr (s : string).

(** [l[i]] for a Python list and [i >= 0]. *)
Definition list_getitem {A} (l : list A) (i : nat) : result A :=
  match l !! i with
  | Some x => Ok x
  | None => Raise IndexError
  end.

Module util_rest.

Definition invert_permutation `{Kernels} (perm : akarray) : result (list Z) :=
  if decide (ak_size (unique perm) ≠ ak_size perm) then Raise ValueError
  else
    coargsort [perm;
               raw_array pdarray akint64
                         (SInt <$> arange 0 (Z.of_nat (ak_size perm)) 1)].

End util_rest.

(** Whether two rows are equal: one entry of the mask that comparing two
    tables level by level builds. *)
Definition row_eqb (r1 r2 : list scalar) : bool := bool_decide (r1 = r2).

Module MultiIndex_rest.

Definition __len__ (self : MultiIndex) : result nat :=
  a ← list_getitem (mi_values self) 0;
  Ok (ak_size a).

(** The loop [for a, b in zip(self.index, v): retval &= a == b]. *)
Fixpoint eq_loop (pairs : list (akarray * pyobj)) (retval : list bool)
    : result (list bool) :=
  match pairs with
  | [] => Ok retval
  | (a, b) :: rest =>
      m ← binop_eq a b;
      retval ← binop_and retval m;
      eq_loop rest retval
  end.

Definition __eq__ (self : MultiIndex) (v : pyval) : result (list bool) :=
  match v with
  | VObj (PyList l) | VObj (PyTuple l) =>
      n ← __len__ self;
      eq_loop (zip (mi_values self) l) (replicate n true)
  | VIdx (AMultiIndex o) =>
      n ← __len__ self;
      eq_loop (zip (mi_values self) (PyArr <$> mi_values o)) (replicate n true)
  | _ => Raise TypeError
  end.

(** The loop [for i, value in enumerate(self.index): data[labels[i]] = value]. *)
Fixpoint to_dict_loop (labels : list string) (ivalues : list (nat * akarray))
    (data : list (string * akarray)) : result (list (string * akarray)) :=
  match ivalues with
  | [] => Ok data
  | (i, value) :: rest =>
      label ← list_getitem labels i;
      to_dict_loop labels rest (dict_set label value data)
  end.

Definition to_dict (self : MultiIndex) (labels : labels_arg)
    : result (list (string * akarray)) :=
  let labels :=
    match labels with
    | None => (fun i => "idx_" +:+ pretty i) <$> seq 0 (length (mi_values self))
    | Some l => l
    end in
  to_dict_loop labels (imap pair (mi_values self)) [].

(** The loop of [_merge_all]: each [other] is type-checked, then joined
    level by level to what has been gathered. *)
Fixpoint merge_all_loop `{Kernels} (self : MultiIndex) (array : list pyval)
    (idx : list akarray) : result (list akarray) :=
  match array with
  | [] => Ok idx
  | other :: rest =>
      other ← Index._check_types (AMultiIndex self) other;
      idx ← MultiIndex.concat_levels idx (key_levels other) false;
      merge_all_loop self rest idx
  end.

Definition _merge_all `{Kernels} (self : MultiIndex) (array : list pyval)
    : result MultiIndex :=
  idx ← merge_all_loop self array (mi_values self);
  keys ← groupby_unique_keys idx;
  MultiIndex.__init__ (VObj (PyList (PyArr <$> keys))).

End MultiIndex_rest.

Module Index_rest.

Definition __len__ (self : Index) : nat := ak_size (idx_values self).

Definition __eq__ (self : Index) (v : pyval) : result (list bool) :=
  match v with
  | VIdx (AnIndex o) => binop_eq (idx_values self) (PyArr (idx_values o))
  | VIdx (AMultiIndex o) =>
      binop_eq (idx_values self) (PyList (PyArr <$> mi_values o))
  | VObj o => binop_eq (idx_values self) o
  | VPdIndex vals _ => binop_eq (idx_values self) (PyList vals)
  end.

Definition argsort `{SortKernel} (self : Index) (ascending : bool)
    : result (list Z) :=
  if negb ascending then
    if isinstance_pdarray (PyArr (idx_values self))
       && bool_decide (idx_dtype self ∈ [akint64; akfloat64])
    then argsort (negate (idx_values self))
    else
      i ← argsort (idx_values self);
      gather i (arange (Z.of_nat (idx_size self) - 1) (-1) (-1))
  else argsort (idx_values self).

Definition to_dict (self : Index) (label : label_arg)
    : result (list (string * akarray)) :=
  label ← match label with
          | LNone => Ok "idx"
          | LList l => list_getitem l 0
          | LStr s => Ok s
          end;
  Ok (dict_set label (idx_values self) []).

(** The loop of [_merge_all]. *)
Fixpoint merge_all_loop `{Kernels} (self : Index) (idx_list : list pyval)
    (idx : akarray) : result akarray :=
  match idx_list with
  | [] => Ok idx
  | other :: rest =>
      other ← Index._check_types (AnIndex self) other;
      match other with
      | AnIndex other =>
          idx ← util.generic_concat [idx; idx_values other] false;
          merge_all_loop self rest idx
      | AMultiIndex _ => Raise TypeError
      end
  end.

Definition _merge_all `{Kernels} (self : Index) (idx_list : list pyval)
    : result Index :=
  let idx := idx_values self in
  let callback := util.get_callback idx in
  idx ← merge_all_loop self idx_list idx;
  Index.__init__ (VObj (PyArr (util.apply_callback callback (unique idx)))) None.

(** [len(self)] and [self == v], resolved on the class of [self]. *)
Definition len_of (self : index_obj) : result nat :=
  match self with
  | AnIndex i => Ok (__len__ i)
  | AMultiIndex m => MultiIndex_rest.__len__ m
  end.

Definition eq_of (self : index_obj) (v : pyval) : result (list bool) :=
  match self with
  | AnIndex i => __eq__ i v
  | AMultiIndex m => MultiIndex_rest.__eq__ m v
  end.

(** [other.values] *)
Definition values_of (other : index_obj) : pyval :=
  match other with
  | AnIndex o => VObj (PyArr (idx_values o))
  | AMultiIndex o => VObj (PyList (PyArr <$> mi_values o))
  end.

(** Inherited by [MultiIndex].  The comparison of the elements is made
    only when the lengths agree. *)
Definition _check_aligned (self : index_obj) (other : pyval) : result bool :=
  other ← Index._check_types self other;
  length ← len_of self;
  len_other ← len_of other;
  if decide (len_other = length) then
    mask ← eq_of self (values_of other);
    Ok (bool_decide (bool_sum mask = length))
  else Ok false.

End Index_rest.

(** The reference engine's single-array sort: a stable merge sort of the
    positions. *)
Definition ref_sort : SortKernel := {|
  argsort := fun a =>
    Ok (Z.of_nat <$> merge_sort (row_le ((fun x => [x]) <$> ak_data a))
                                (seq 0 (ak_size a)))
|}.

(** * Properties *)

(** ** The result monad *)

Lemma bind_Ok {A B} (m : result A) (f : A -> result B) (b : B) :
  m ≫= f = Ok b -> exists a, m = Ok a ∧ f a = Ok b.
Proof. destruct m as [a|e]; simpl; [eauto | discriminate]. Qed.

Lemma result_bind_Ok {A B} (a : A) (f : A -> result B) : Ok a ≫= f = f a.
Proof. reflexivity. Qed.

Lemma mapM_result_cons {A B} (f : A -> result B) (x : A) (l : list A) :
  mapM f (x :: l) = y ← f x; k ← mapM f l; Ok (y :: k).
Proof. reflexivity. Qed.


Lemma mapM_Ok_length {A B} (f : A -> result B) (l : list A) (k : list B) :
  mapM f l = Ok k -> length k = length l.
Proof.
  revert k. induction l as [|x l IH]; intros k; simpl.
  - intros [= <-]. reflexivity.
  - intros Hb. apply bind_Ok in Hb as (y & _ & Hb).
    apply bind_Ok in Hb as (ys & Hys & [= <-]).
    simpl. f_equal. apply IH, Hys.
Qed.

Lemma mapM_Ok_Forall2 {A B} (f : A -> result B) (l : list A) (k : list B) :
  mapM f l = Ok k <-> Forall2 (fun x y => f x = Ok y) l k.
Proof.
  revert k. induction l as [|x l IH]; intros k; simpl.
  - split; [intros [= <-]; constructor | intros Hk; inversion Hk; reflexivity].
  - split.
    + intros Hb. apply bind_Ok in Hb as (y & Hy & Hb).
      apply bind_Ok in Hb as (ys & Hys & [= <-]).
      constructor; [exact Hy | apply IH, Hys].
    + intros Hk. inversion Hk as [|? y ? ys Hy Hys]; subst.
      apply IH in Hys. rewrite Hy. simpl. rewrite Hys. reflexivity.
Qed.

(** ** Registration of a MultiIndex *)

(** The inherited [is_registered] never looks at the names of the levels:
    it raises while [name] is unset and otherwise tests the single name
    [<name>_key]. *)
Lemma MultiIndex_is_registered_unfold (m : MultiIndex) (srv : server) :
  Index.is_registered (AMultiIndex m) srv =
    match mi_name m with
    | None => Raise AttributeError
    | Some v => Ok (bool_decide (fmt_opt v +:+ "_key" ∈ list_registry srv))
    end.
Proof. unfold Index.is_registered. simpl. destruct (mi_name m); reflexivity. Qed.

(** C1.  A two-level MultiIndex is registered as [mi], then the component
    [mi_key_0] alone is unregistered by name, so that the components
    disagree.  [is_registered] raises the same [AttributeError] as in the
    consistent state, and once [name] is assigned it answers a plain
    [False] in both states: no inconsistency error is ever raised. *)
Theorem C1_multiindex_is_registered_misses_components :
  exists m1 srv1 msg srv2,
    MultiIndex.register sample_mi "mi" sample_srv = Ok (m1, 2, srv1)
    ∧ list_registry srv1 = ["mi_key_0"; "mi_key_1"]
    ∧ util.unregister_by_name "mi_key_0" srv1 = Ok (msg, srv2)
    ∧ list_registry srv2 = ["mi_key_1"]
    ∧ Index.is_registered (AMultiIndex m1) srv1 = Raise AttributeError
    ∧ Index.is_registered (AMultiIndex m1) srv2 = Raise AttributeError
    ∧ Index.is_registered (AMultiIndex (set_name m1 "mi")) srv1 = Ok false
    ∧ Index.is_registered (AMultiIndex (set_name m1 "mi")) srv2 = Ok false.
Proof.
  do 4 eexists. split; [vm_compute; reflexivity|].
  split; [vm_compute; reflexivity|].
  split; [vm_compute; reflexivity|].
  repeat split; vm_compute; reflexivity.
Qed.


(** ** The symbol table *)

Lemma elem_of_list_registry (n : string) (srv : server) :
  n ∈ list_registry srv <-> exists e, (n, e) ∈ srv ∧ sym_registered e = true.
Proof.
  unfold list_registry. rewrite list_elem_of_fmap. split.
  - intros ([n' e] & -> & Hin). apply list_elem_of_filter in Hin as [Hr Hin].
    exists e. auto.
  - intros (e & Hin & Hr). exists (n, e). split; [reflexivity|].
    apply list_elem_of_filter. auto.
Qed.

Lemma st_lookup_Some_elem (n : string) (srv : server) (e : symbol) :
  st_lookup n srv = Some e -> (n, e) ∈ srv.
Proof.
  induction srv as [|[n' e'] srv IH]; simpl; [discriminate|].
  destruct (decide (n' = n)) as [->|Hne].
  - intros [= ->]. left.
  - intros H. right. auto.
Qed.

Lemma st_lookup_None_names (n : string) (srv : server) :
  st_lookup n srv = None <-> n ∉ list_symbol_table srv.
Proof.
  unfold list_symbol_table.
  induction srv as [|[n' e'] srv IH]; simpl.
  - split; [intros _; apply not_elem_of_nil | reflexivity].
  - rewrite not_elem_of_cons. destruct (decide (n' = n)) as [->|Hne].
    + split; [discriminate | intros [[] _]; reflexivity].
    + rewrite IH. split; [intros H; split; [congruence | exact H] | intros [_ H]; exact H].
Qed.

Lemma st_set_registered_names (n : string) (b : bool) (srv : server) :
  list_symbol_table (st_set_registered n b srv) = list_symbol_table srv.
Proof.
  unfold list_symbol_table.
  induction srv as [|[n' e'] srv IH]; simpl; [reflexivity|].
  destruct (decide (n' = n)); simpl; [reflexivity | f_equal; exact IH].
Qed.

Lemma st_set_registered_true (n : string) (srv : server) (e : symbol) :
  st_lookup n srv = Some e -> n ∈ list_registry (st_set_registered n true srv).
Proof.
  intros Hl. apply elem_of_list_registry.
  induction srv as [|[n' e'] srv IH]; simpl in *; [discriminate|].
  destruct (decide (n' = n)) as [->|Hne].
  - eexists. split; [left | reflexivity].
  - destruct (IH Hl) as (e1 & Hin & Hr). exists e1. split; [right; exact Hin | exact Hr].
Qed.

Lemma st_set_registered_false (n : string) (srv : server) :
  NoDup (list_symbol_table srv) ->
  n ∉ list_registry (st_set_registered n false srv).
Proof.
  unfold list_symbol_table. intros Hnd Hin.
  apply elem_of_list_registry in Hin as (e & Hin & Hr).
  induction srv as [|[n' e'] srv IH]; simpl in *; [inversion Hin|].
  apply NoDup_cons in Hnd as [Hfresh Hnd].
  destruct (decide (n' = n)) as [->|Hne].
  - apply elem_of_cons in Hin as [[= ->]|Hin]; [discriminate|].
    apply Hfresh. apply list_elem_of_fmap. exists (n, e). auto.
  - apply elem_of_cons in Hin as [[= -> ->]|Hin]; [congruence|]. auto.
Qed.

Lemma st_rename_registered (old new : string) (srv : server) (e : symbol) :
  st_lookup old srv = Some e -> new ∈ list_registry (st_rename old new srv).
Proof.
  intros Hl. apply elem_of_list_registry.
  induction srv as [|[n' e'] srv IH]; simpl in *; [discriminate|].
  destruct (decide (n' = old)) as [->|Hne].
  - eexists. split; [left | reflexivity].
  - destruct (IH Hl) as (e1 & Hin & Hr). exists e1. split; [right; exact Hin | exact Hr].
Qed.

Lemma st_delete_names (n : string) (srv : server) :
  list_symbol_table (st_delete n srv) = filter (fun x => x ≠ n) (list_symbol_table srv).
Proof.
  unfold list_symbol_table.
  induction srv as [|[n' e'] srv IH]; simpl; [reflexivity|].
  destruct (decide (n' = n)) as [->|Hne].
  - rewrite filter_cons_False by (intros H; apply H; reflexivity). exact IH.
  - rewrite filter_cons_True by exact Hne. simpl. f_equal. exact IH.
Qed.

Lemma st_delete_lookup_ne (n k : string) (srv : server) :
  k ≠ n -> st_lookup k (st_delete n srv) = st_lookup k srv.
Proof.
  intros Hne. induction srv as [|[n' e'] srv IH]; simpl; [reflexivity|].
  destruct (decide (n' = n)) as [->|Hn].
  - destruct (decide (n = k)); [congruence | exact IH].
  - simpl. destruct (decide (n' = k)); [reflexivity | exact IH].
Qed.



(** After a successful registration the new name is in the registry. *)
Lemma server_register_registered (old new : string) (srv srv' : server) :
  server_register old new srv = Ok srv' -> new ∈ list_registry srv'.
Proof.
  unfold server_register.
  destruct (st_lookup old srv) as [e|] eqn:Hold; [|discriminate].
  destruct (decide (old = new)) as [->|Hne].
  - intros [= <-]. eapply st_set_registered_true, Hold.
  - destruct (st_lookup new srv) as [e'|] eqn:Hnew.
    + destruct (sym_registered e'); [discriminate|]. intros [= <-].
      eapply st_rename_registered. rewrite st_delete_lookup_ne by exact Hne.
      exact Hold.
    + intros [= <-]. eapply st_rename_registered, Hold.
Qed.

Lemma isinstance_pdarray_class (a : akarray) :
  isinstance_pdarray (PyArr a) = true ->
  ak_class a ≠ Categorical ∧ ak_class a ≠ Strings.
Proof. unfold isinstance_pdarray. destruct (ak_class a); split; congruence. Qed.

Lemma handle_register_plain (a : akarray) (name : string) (srv : server) :
  ak_class a ≠ Categorical ->
  handle_register a name srv = pdarray_register a name srv.
Proof. unfold handle_register. destruct (ak_class a); congruence. Qed.

Lemma handle_unregister_plain (a : akarray) (srv : server) :
  ak_class a ≠ Categorical ->
  handle_unregister a srv = pdarray_unregister a srv.
Proof. unfold handle_unregister. destruct (ak_class a); congruence. Qed.

Lemma util_register_inv (a : akarray) (name : string) (srv : server)
    (reg : akarray) (srv' : server) :
  ak_class a ≠ Categorical ->
  util.register a name srv = Ok (reg, srv') ->
  reg = with_name a name ∧ server_register (ak_name a) name srv = Ok srv'.
Proof.
  intros Hc. unfold util.register.
  rewrite !(handle_register_plain _ _ _ Hc). unfold pdarray_register.
  destruct (server_register (ak_name a) name srv) as [s|e] eqn:Hs;
    destruct (bool_decide _); simpl; try discriminate;
    intros [= <- <-]; auto.
Qed.



(** ** Construction of a MultiIndex *)

Lemma init_loop_Ok (cols : list pyobj) (size size' : option nat)
    (arrs : list akarray) :
  MultiIndex.init_loop cols size = Ok (size', arrs) ->
  cols = PyArr <$> arrs
  ∧ Forall (fun a => Some (ak_size a) = size') arrs
  ∧ (forall n, size = Some n -> size' = Some n)
  ∧ (size = None -> arrs = [] -> size' = None).
Proof.
  revert size size' arrs.
  induction cols as [|col cols IH]; intros size size' arrs; simpl.
  - intros [= <- <-]. repeat split; auto.
  - destruct col as [| |a| |]; simpl; try discriminate.
    intros Hb. apply bind_Ok in Hb as (size1 & Hs1 & Hb).
    apply bind_Ok in Hb as ([sz arrs'] & Hrec & [= <- <-]).
    apply IH in Hrec as (-> & Hall & Hkeep & _).
    assert (size1 = Some (ak_size a) ∧ forall n, size = Some n -> n = ak_size a)
      as [-> Hsz].
    { destruct size as [n|]; simpl in Hs1.
      - destruct (decide (ak_size a ≠ n)) as [|Heq]; [discriminate|].
        apply dec_stable in Heq. injection Hs1 as <-. subst n.
        split; [reflexivity | intros ? [= <-]; reflexivity].
      - injection Hs1 as <-. split; [reflexivity | discriminate]. }
    rewrite (Hkeep _ eq_refl) in *.
    repeat split; auto.
    + intros n Hn. f_equal. symmetry. auto.
    + discriminate.
Qed.

Lemma init_loop_same_size (arrs : list akarray) (n : nat) :
  Forall (fun a => ak_size a = n) arrs ->
  MultiIndex.init_loop (PyArr <$> arrs) (Some n) = Ok (Some n, arrs).
Proof.
  induction 1 as [|a arrs Ha _ IH]; csimpl; [reflexivity|].
  rewrite Ha. destruct (decide (n ≠ n)) as [Hne|_]; [congruence|].
  csimpl. rewrite IH. reflexivity.
Qed.

(** The constructor accepts every non-empty table of arrays of one size
    and builds a well-formed object from it. *)
Lemma MultiIndex_init_aligned (arrs : list akarray) (n : nat) :
  aligned arrs n ->
  MultiIndex.__init__ (VObj (PyList (PyArr <$> arrs)))
    = Ok (mk_MultiIndex arrs (Some n) (length arrs) None).
Proof.
  intros [Hne Hall]. unfold MultiIndex.__init__. simpl.
  destruct Hall as [|a arrs Ha Hall]; [congruence|]. csimpl.
  rewrite Ha. csimpl. rewrite (init_loop_same_size _ _ Hall). reflexivity.
Qed.

Lemma MultiIndex_init_inv (values : pyval) (m : MultiIndex) :
  MultiIndex.__init__ values = Ok m ->
  exists cols,
    (values = VObj (PyList cols) ∨ values = VObj (PyTuple cols))
    ∧ cols = PyArr <$> mi_values m
    ∧ Forall (fun a => Some (ak_size a) = mi_size m) (mi_values m)
    ∧ mi_levels m = length cols.
Proof.
  unfold MultiIndex.__init__.
  destruct values as [o| |]; try discriminate.
  destruct o as [| | |l|l]; simpl; try discriminate.
  all: intros Hb; apply bind_Ok in Hb as ([sz arrs] & Hloop & [= <-]).
  all: apply init_loop_Ok in Hloop as (-> & Hall & _); simpl.
  all: eexists; split; [eauto|]; repeat split; auto.
  all: rewrite length_fmap; reflexivity.
Qed.

(** C7.  A MultiIndex that the constructor returns has all its levels of
    the size it records, and [levels] is the number of items of the
    wrapped sequence; a sequence holding two arrays of different sizes
    makes the constructor raise. *)
Theorem C7_multiindex_invariant :
  (forall values m, MultiIndex.__init__ values = Ok m ->
     exists cols,
       (values = VObj (PyList cols) ∨ values = VObj (PyTuple cols))
       ∧ cols = PyArr <$> mi_values m
       ∧ (forall a b, a ∈ mi_values m -> b ∈ mi_values m -> ak_size a = ak_size b)
       ∧ (forall a, a ∈ mi_values m -> mi_size m = Some (ak_size a))
       ∧ mi_levels m = length cols)
  ∧ (forall cols i j a b,
       cols !! i = Some (PyArr a) -> cols !! j = Some (PyArr b) ->
       ak_size a ≠ ak_size b ->
       raises (MultiIndex.__init__ (VObj (PyList cols)))
       ∧ raises (MultiIndex.__init__ (VObj (PyTuple cols)))).
Proof.
  assert (Hinv : forall values m, MultiIndex.__init__ values = Ok m ->
     exists cols,
       (values = VObj (PyList cols) ∨ values = VObj (PyTuple cols))
       ∧ cols = PyArr <$> mi_values m
       ∧ (forall a b, a ∈ mi_values m -> b ∈ mi_values m -> ak_size a = ak_size b)
       ∧ (forall a, a ∈ mi_values m -> mi_size m = Some (ak_size a))
       ∧ mi_levels m = length cols).
  { intros values m Hm.
    apply MultiIndex_init_inv in Hm as (cols & Hv & Hcols & Hall & Hlev).
    rewrite Forall_forall in Hall.
    exists cols. split; [exact Hv|]. split; [exact Hcols|].
    split; [|split; [|exact Hlev]].
    - intros a b Ha Hb. apply Hall in Ha, Hb. congruence.
    - intros a Ha. symmetry. apply Hall, Ha. }
  split; [exact Hinv|].
  intros cols i j a b Hi Hj Hne.
  assert (Hno : forall values, (values = VObj (PyList cols) ∨ values = VObj (PyTuple cols)) ->
                 raises (MultiIndex.__init__ values)).
  { intros values Hv.
    destruct (MultiIndex.__init__ values) as [m|e] eqn:Hm; [|eexists; reflexivity].
    exfalso. apply Hinv in Hm as (cols' & Hv' & Hcols & Hsame & _).
    assert (cols' = cols) as -> by (destruct Hv as [->| ->], Hv' as [[=]|[=]]; auto).
    apply Hne, Hsame.
    - apply list_elem_of_lookup_2 with i.
      rewrite Hcols, list_lookup_fmap in Hi.
      destruct (mi_values m !! i); simpl in Hi; congruence.
    - apply list_elem_of_lookup_2 with j.
      rewrite Hcols, list_lookup_fmap in Hj.
      destruct (mi_values m !! j); simpl in Hj; congruence. }
  split; apply Hno; auto.
Qed.

(** ** [Index.factory] *)




(** ** [lookup] *)

(** A scalar key is lifted into a one-element array and the mask tells,
    position by position, whether the value is that element. *)
Lemma Index_lookup_scalar (self : Index) (k : scalar) :
  exists key,
    array [PyScalar k] = Ok key
    ∧ (exists k', ak_data key = [k'])
    ∧ Index.lookup self (PyScalar k)
      = Ok (mask_of (idx_elems self) (ak_data key)).
Proof.
  unfold Index.lookup. simpl.
  destruct k as [z|b|s]; simpl; eexists; (split; [reflexivity|]);
    (split; [eexists; reflexivity | reflexivity]).
Qed.

(** The examples of the specification: 20 among [10, 20, 30], and the row
    (1, 1) among the rows of levels [0, 1, 2] and [2, 1, 0]. *)
Example Index_lookup_20 :
  (i ← Index.__init__ (VObj (py_ints [10; 20; 30])) None;
   ak_data <$> Index.lookup i (PyScalar (SInt 20)))
    = Ok [SBool false; SBool true; SBool false].
Proof. reflexivity. Qed.

Example MultiIndex_lookup_1_1 :
  ak_data <$> MultiIndex.lookup sample_mi (PyTuple [PyScalar (SInt 1); PyScalar (SInt 1)])
    = Ok [SBool false; SBool true; SBool false].
Proof. vm_compute. reflexivity. Qed.

Lemma array_raises_TypeError (l : list pyobj) (e : py_error) :
  array l = Raise e -> e = TypeError.
Proof.
  unfold array. destruct (mapM array_item l) as [xs|e'] eqn:Hm; simpl.
  - destruct xs; [discriminate|].
    destruct (existsb _ _); [discriminate|].
    destruct (forallb _ _); discriminate.
  - intros [= <-]. revert e' Hm.
    induction l as [|o l IH]; simpl; [discriminate|]. intros e'.
    destruct o; simpl; try (intros [= <-]; reflexivity).
    destruct (mapM array_item l) as [ys|e2]; simpl; [discriminate|].
    intros [= <-]. eapply IH. reflexivity.
Qed.

(** A key that is no list and no tuple is a type error, and so is a
    non-empty key with more or fewer entries than there are levels. *)
Lemma MultiIndex_lookup_type_errors (m : MultiIndex) :
  (forall key, seq_items key = None -> MultiIndex.lookup m key = Raise TypeError)
  ∧ (forall key items, seq_items key = Some items -> items ≠ [] ->
       length items ≠ length (mi_values m) ->
       MultiIndex.lookup m key = Raise TypeError).
Proof.
  split.
  - intros key Hk. destruct key; try discriminate; reflexivity.
  - intros key items Hk Hne Hlen.
    assert (Hin : forall key', seq_items key' = Some items ->
              in1d (PyList (PyArr <$> mi_values m)) key' = Raise TypeError).
    { intros key' Hk'. unfold in1d. simpl. rewrite Hk'.
      rewrite length_fmap.
      destruct (decide (length (mi_values m) ≠ length items)); [reflexivity|].
      exfalso. apply Hlen. symmetry. apply dec_stable. assumption. }
    assert (MultiIndex.lookup m key =
              match items with
              | [] => Raise IndexError
              | key0 :: _ =>
                  key' ← (if negb (isinstance_pdarray key0)
                          then PyList <$> mapM (fun x => PyArr <$> array [x]) items
                          else Ok key);
                  in1d (PyList (PyArr <$> mi_values m)) key'
              end) as ->.
    { destruct key; try discriminate; simpl in Hk; injection Hk as ->; reflexivity. }
    destruct items as [|key0 items']; [congruence|].
    destruct (negb (isinstance_pdarray key0)); [|simpl; apply Hin, Hk].
    destruct (mapM (fun x => PyArr <$> array [x]) (key0 :: items')) as [ks|e] eqn:Hm.
    + simpl. unfold in1d. simpl. rewrite length_fmap.
      apply mapM_Ok_length in Hm. rewrite Hm.
      destruct (decide (length (mi_values m) ≠ length (key0 :: items'))); [reflexivity|].
      exfalso. apply Hlen. symmetry. apply dec_stable. assumption.
    + simpl. f_equal. clear -Hm. revert e Hm.
      generalize (key0 :: items'). intros l.
      induction l as [|x l IH]; simpl; [discriminate|]. intros e.
      destruct (array [x]) as [a|e1] eqn:Ha; simpl.
      * destruct (mapM (fun x => PyArr <$> array [x]) l) as [ks|e2]; simpl; [discriminate|].
        intros [= <-]. eapply IH. reflexivity.
      * intros [= <-]. eapply array_raises_TypeError, Ha.
Qed.

(** C6.  The two-level [sample_mi] is what the constructor builds from
    its levels; looking up the empty tuple or the empty list, whose arity
    0 is not the number of levels, raises [IndexError] and not a type
    error. *)
Theorem C6_multiindex_lookup_empty_key :
  MultiIndex.__init__ (VObj (PyList [PyArr lvl0; PyArr lvl1])) = Ok sample_mi
  ∧ mi_levels sample_mi = 2%nat
  ∧ MultiIndex.lookup sample_mi (PyTuple []) = Raise IndexError
  ∧ MultiIndex.lookup sample_mi (PyList []) = Raise IndexError.
Proof. repeat split. Qed.

(** ** [attach_all] *)

(** A name that starts with the prefix is matched whole and filed under
    what follows the prefix. *)
Lemma attach_all_plain_name :
  util.attach_all "df_" (fresh_server [int_array "df_col" [1]])
    = Ok [("col", int_array "df_col" [1])].
Proof. vm_compute. reflexivity. Qed.

(** C9.  With the symbol [1_df_col] in the table and the prefix [df_],
    the pattern matches the whole name, numeric part included, and the
    key is that match without its first three characters: [f_col], not
    the suffix [col]. *)
Theorem C9_attach_all_key_after_locale_prefix :
  let srv := fresh_server [int_array "1_df_col" [1]] in
  findall "df_" (str_of_names (list_symbol_table srv)) = ["1_df_col"]
  ∧ util.attach_all "df_" srv = Ok [("f_col", int_array "1_df_col" [1])]
  ∧ str_drop (String.length "df_") "1_df_col" ≠ "col".
Proof.
  repeat split; try (vm_compute; reflexivity). vm_compute. discriminate.
Qed.

(** ** [register_all] *)

Lemma chars_text (cs : list ascii) : chars (text cs) = cs.
Proof. apply String.list_ascii_of_string_of_list_ascii. Qed.


Lemma st_set_registered_elem (n k : string) (b : bool) (e : symbol) (srv : server) :
  (n, e) ∈ srv -> n ≠ k -> (n, e) ∈ st_set_registered k b srv.
Proof.
  intros Hin Hne. induction srv as [|[n' e'] srv IH]; simpl; [inversion Hin|].
  apply elem_of_cons in Hin as [[= <- <-]|Hin].
  - destruct (decide (n = k)); [congruence | left].
  - destruct (decide (n' = k)); right; auto.
Qed.

Lemma st_delete_elem (n k : string) (e : symbol) (srv : server) :
  (n, e) ∈ srv -> n ≠ k -> (n, e) ∈ st_delete k srv.
Proof.
  intros Hin Hne. induction srv as [|[n' e'] srv IH]; simpl; [inversion Hin|].
  apply elem_of_cons in Hin as [[= <- <-]|Hin].
  - destruct (decide (n = k)); [congruence | left].
  - destruct (decide (n' = k)); [|right]; auto.
Qed.

Lemma st_rename_elem (n old new : string) (e : symbol) (srv : server) :
  (n, e) ∈ srv -> n ≠ old -> (n, e) ∈ st_rename old new srv.
Proof.
  intros Hin Hne. induction srv as [|[n' e'] srv IH]; simpl; [inversion Hin|].
  apply elem_of_cons in Hin as [[= <- <-]|Hin].
  - destruct (decide (n = old)); [congruence | left].
  - destruct (decide (n' = old)); right; auto.
Qed.

(** Registering one object leaves every other registered name in the
    registry. *)
Lemma server_register_keeps (old new n : string) (srv srv' : server) :
  server_register old new srv = Ok srv' ->
  n ∈ list_registry srv -> old ≠ n -> n ∈ list_registry srv'.
Proof.
  intros Hs Hin Hne.
  destruct (decide (n = new)) as [->|Hnew];
    [eapply server_register_registered, Hs|].
  apply elem_of_list_registry in Hin as (e & Hin & Hr).
  apply elem_of_list_registry. exists e. split; [|exact Hr].
  unfold server_register in Hs.
  destruct (st_lookup old srv) as [eo|]; [|discriminate].
  destruct (decide (old = new)) as [->|Hon].
  - injection Hs as <-. apply st_set_registered_elem; auto.
  - destruct (st_lookup new srv) as [e'|].
    + destruct (sym_registered e'); [discriminate|]. injection Hs as <-.
      apply st_rename_elem; [apply st_delete_elem|]; auto.
    + injection Hs as <-. apply st_rename_elem; auto.
Qed.

Lemma registry_st_delete (n : string) (srv : server) :
  n ∉ list_registry srv -> list_registry (st_delete n srv) = list_registry srv.
Proof.
  induction srv as [|[k e] srv IH]; [reflexivity|].
  intros Hn. cbn [st_delete].
  assert (Hcons : forall r, list_registry ((k, e) :: r)
            = if decide (sym_registered e = true) then k :: list_registry r else list_registry r).
  { intros r. unfold list_registry.
    destruct (decide (sym_registered e = true)) as [Hr|Hr].
    - rewrite (filter_cons_True (fun p : string * symbol => sym_registered p.2 = true))
        by exact Hr. reflexivity.
    - rewrite (filter_cons_False (fun p : string * symbol => sym_registered p.2 = true))
        by exact Hr. reflexivity. }
  rewrite Hcons in Hn.
  destruct (decide (k = n)) as [->|Hne].
  - rewrite Hcons.
    destruct (decide (sym_registered e = true)); [|apply IH, Hn].
    exfalso. apply Hn. left.
  - rewrite !Hcons.
    destruct (decide (sym_registered e = true)).
    + f_equal. apply IH. intros H. apply Hn. right. exact H.
    + apply IH, Hn.
Qed.

Lemma server_delete_registry (n : string) (srv : server) :
  list_registry (server_delete n srv) = list_registry srv.
Proof.
  unfold server_delete. destruct (decide (n ∈ list_registry srv)) as [Hn|Hn].
  - rewrite bool_decide_eq_true_2 by exact Hn. reflexivity.
  - rewrite bool_decide_eq_false_2 by exact Hn. apply registry_st_delete, Hn.
Qed.

(** Handles that go out of scope take nothing out of the registry. *)
Lemma drop_handles_registry (hs : list akarray) (srv : server) :
  list_registry (drop_handles hs srv) = list_registry srv.
Proof.
  unfold drop_handles. revert srv. induction hs as [|a hs IH]; intros srv;
    [reflexivity|].
  cbn [foldl]. rewrite IH. generalize (component_names a). intros ns. revert srv.
  induction ns as [|n ns IHn]; intros srv; [reflexivity|].
  cbn [foldl]. rewrite IHn. apply server_delete_registry.
Qed.

Lemma register_obj_inv (r : nat) (name : string) (h h' : heap) (srv srv' : server) :
  ak_class (h r) ≠ Categorical ->
  util.register_obj r name (h, srv) = Ok (h', srv') ->
  h' = heap_set r (with_name (h r) name) h
  ∧ server_register (ak_name (h r)) name srv = Ok srv'.
Proof.
  intros Hc. unfold util.register_obj. cbn [fst snd]. intros Hb.
  apply bind_Ok in Hb as ([reg s1] & Hu & [= <- <-]).
  apply util_register_inv in Hu as [-> Hs]; auto.
Qed.

Lemma heap_set_eq (r : nat) (a : akarray) (h : heap) : heap_set r a h r = a.
Proof. unfold heap_set. rewrite decide_True; reflexivity. Qed.

Lemma heap_set_ne (r r' : nat) (a : akarray) (h : heap) :
  r' ≠ r -> heap_set r a h r' = h r'.
Proof. intros Hne. unfold heap_set. rewrite decide_False; [reflexivity | exact Hne]. Qed.

(** What a run of registrations over distinct objects leaves behind:
    every object renamed, the others untouched, each name in the
    registry unless a later object carried it, and whatever was
    registered and is none of the objects still registered. *)
Lemma register_objs_inv (rns : list (nat * string)) (h h' : heap)
    (srv srv' : server) :
  NoDup rns.*1 ->
  Forall (fun rn => ak_class (h rn.1) ≠ Categorical) rns ->
  util.register_objs rns (h, srv) = Ok (h', srv') ->
  Forall (fun rn => h' rn.1 = with_name (h rn.1) rn.2) rns
  ∧ (forall r, r ∉ rns.*1 -> h' r = h r)
  ∧ (targets_fresh h rns -> Forall (fun rn => rn.2 ∈ list_registry srv') rns)
  ∧ (forall n, n ∈ list_registry srv ->
               Forall (fun rn => ak_name (h rn.1) ≠ n) rns ->
               n ∈ list_registry srv').
Proof.
  revert h srv. induction rns as [|[r name] rns IH]; intros h srv Hnd Hcls Hrun.
  - injection Hrun as <- <-. repeat split; auto.
  - rewrite fmap_cons in Hnd. apply NoDup_cons in Hnd as [Hr Hnd].
    apply Forall_cons in Hcls as [Hc Hcls]. cbn [fst snd] in *.
    cbn [util.register_objs] in Hrun.
    apply bind_Ok in Hrun as ([h1 s1] & Hobj & Hrun).
    apply register_obj_inv in Hobj as [-> Hs]; [|exact Hc].
    assert (Hsame : forall rn, rn ∈ rns ->
              heap_set r (with_name (h r) name) h rn.1 = h rn.1).
    { intros rn Hrn. apply heap_set_ne. intros Heq. apply Hr. rewrite <- Heq.
      apply list_elem_of_fmap. eauto. }
    assert (Hcls1 : Forall (fun rn => ak_class (heap_set r (with_name (h r) name) h rn.1)
                                      ≠ Categorical) rns).
    { apply Forall_forall. intros rn Hrn. rewrite (Hsame rn Hrn).
      rewrite Forall_forall in Hcls. apply Hcls, Hrn. }
    destruct (IH _ _ Hnd Hcls1 Hrun) as (Hren & Hother & Hreg & Hkeep).
    split; [|split; [|split]].
    + constructor.
      * cbn [fst snd]. rewrite (Hother r Hr). apply heap_set_eq.
      * apply Forall_forall. intros rn Hrn. rewrite Forall_forall in Hren.
        rewrite (Hren rn Hrn), (Hsame rn Hrn). reflexivity.
    + intros r0 Hr0. rewrite fmap_cons in Hr0. apply not_elem_of_cons in Hr0 as [Hne Hr0].
      rewrite (Hother r0 Hr0). apply heap_set_ne, Hne.
    + intros [Hfresh Hrest]. cbn [fst snd] in Hfresh. constructor.
      * cbn [snd]. apply Hkeep; [eapply server_register_registered, Hs|].
        apply Forall_forall. intros rn Hrn. rewrite (Hsame rn Hrn).
        rewrite Forall_forall in Hfresh. apply Hfresh, Hrn.
      * apply Hreg. clear -Hrest Hsame.
        induction rns as [|rn rns IHr]; [exact I|]. destruct Hrest as [Hf Hrest].
        split.
        -- apply Forall_forall. intros rn' Hrn'.
           rewrite (Hsame rn') by (right; exact Hrn').
           rewrite Forall_forall in Hf. apply Hf, Hrn'.
        -- apply IHr; [|exact Hrest]. intros rn' Hrn'. apply Hsame. right. exact Hrn'.
    + intros n Hn Hall. apply Forall_cons in Hall as [Hne Hall]. cbn [fst] in Hne.
      apply Hkeep.
      * eapply server_register_keeps; [exact Hs | exact Hn | exact Hne].
      * apply Forall_forall. intros rn Hrn. rewrite (Hsame rn Hrn).
        rewrite Forall_forall in Hall. apply Hall, Hrn.
Qed.




(** ** Picking positions and tables *)

Lemma pick_nil {A} (pos : list nat) : pick (@nil A) pos = [].
Proof. unfold pick. induction pos as [|i pos IH]; simpl; [reflexivity | exact IH]. Qed.

Lemma pick_cons_Some {A} (xs : list A) (i : nat) (pos : list nat) (x : A) :
  xs !! i = Some x -> pick xs (i :: pos) = x :: pick xs pos.
Proof. unfold pick. simpl. intros ->. reflexivity. Qed.

Lemma pick_cons_None {A} (xs : list A) (i : nat) (pos : list nat) :
  xs !! i = None -> pick xs (i :: pos) = pick xs pos.
Proof. unfold pick. simpl. intros ->. reflexivity. Qed.

Lemma pick_fmap {A B} (f : A -> B) (xs : list A) (pos : list nat) : pick (f <$> xs) pos = f <$> pick xs pos.
Proof.
  induction pos as [|i pos IH]; [reflexivity|].
  destruct (xs !! i) as [x|] eqn:Hi.
  - rewrite (pick_cons_Some (f <$> xs) i pos (f x)) by (rewrite list_lookup_fmap, Hi; reflexivity).
    rewrite (pick_cons_Some xs i pos x Hi). rewrite fmap_cons, IH. reflexivity.
  - rewrite (pick_cons_None (f <$> xs)) by (rewrite list_lookup_fmap, Hi; reflexivity).
    rewrite (pick_cons_None xs i pos Hi). exact IH.
Qed.

Lemma pick_seq_shift {A} (pre xs : list A) :
  pick (pre ++ xs) (seq (length pre) (length xs)) = xs.
Proof.
  revert pre. induction xs as [|x xs IH]; intros pre; [reflexivity|].
  simpl. rewrite (pick_cons_Some _ _ _ x) by (rewrite list_lookup_middle; reflexivity).
  f_equal. specialize (IH (pre ++ [x])).
  rewrite <- app_assoc, length_app in IH. simpl in IH.
  rewrite Nat.add_1_r in IH. exact IH.
Qed.

Lemma pick_seq {A} (xs : list A) : pick xs (seq 0 (length xs)) = xs.
Proof. apply (pick_seq_shift [] xs). Qed.

(** Picking along a rearrangement of all positions rearranges the list. *)
Lemma pick_Permutation {A} (xs : list A) (pos : list nat) : pos ≡ₚ seq 0 (length xs) -> pick xs pos ≡ₚ xs.
Proof.
  intros Hp. unfold pick. rewrite Hp. fold (pick xs (seq 0 (length xs))).
  rewrite pick_seq. reflexivity.
Qed.

Lemma pick_length {A} (xs : list A) (pos : list nat) :
  Forall (fun i => i < length xs)%nat pos -> length (pick xs pos) = length pos.
Proof.
  induction 1 as [|i pos Hi _ IH]; [reflexivity|].
  apply lookup_lt_is_Some_2 in Hi as [x Hx].
  rewrite (pick_cons_Some _ _ _ _ Hx). simpl. f_equal. exact IH.
Qed.

Lemma pick_reverse_seq {A} (xs : list A) : pick xs (reverse (seq 0 (length xs))) = reverse xs.
Proof.
  induction xs as [|x xs IH] using rev_ind; [reflexivity|].
  rewrite length_app. simpl. rewrite Nat.add_1_r, seq_S, reverse_app. simpl.
  rewrite reverse_app. simpl.
  rewrite (pick_cons_Some _ _ _ x) by (apply list_lookup_middle; reflexivity).
  f_equal. rewrite <- IH. unfold pick.
  apply list_omap_ext. apply Forall2_same_length_lookup_2; [reflexivity|].
  intros i a b Ha Hb. rewrite Ha in Hb. injection Hb as <-.
  apply lookup_app_l.
  apply list_elem_of_lookup_2, elem_of_reverse, elem_of_seq in Ha. lia.
Qed.

Lemma pick_zip_with {A B C} (f : A -> B -> C) (xs : list A) (ys : list B)
    (pos : list nat) :
  length xs = length ys ->
  pick (zip_with f xs ys) pos = zip_with f (pick xs pos) (pick ys pos).
Proof.
  intros Hlen. induction pos as [|i pos IH]; [reflexivity|].
  destruct (xs !! i) as [x|] eqn:Hx.
  - assert (exists y, ys !! i = Some y) as [y Hy].
    { apply lookup_lt_is_Some. rewrite <- Hlen. eapply lookup_lt_Some, Hx. }
    rewrite (pick_cons_Some _ _ _ (f x y)) by (rewrite lookup_zip_with, Hx, Hy; reflexivity).
    rewrite (pick_cons_Some _ _ _ _ Hx), (pick_cons_Some _ _ _ _ Hy).
    simpl. f_equal. exact IH.
  - assert (ys !! i = None) as Hy.
    { apply lookup_ge_None. rewrite <- Hlen. apply lookup_ge_None, Hx. }
    rewrite (pick_cons_None (zip_with f xs ys)) by (rewrite lookup_zip_with, Hx; reflexivity).
    rewrite (pick_cons_None _ _ _ Hx), (pick_cons_None _ _ _ Hy). exact IH.
Qed.

Lemma rows_cons2 (l l2 : list scalar) (ls : list (list scalar)) :
  rows (l :: l2 :: ls) = zip_with cons l (rows (l2 :: ls)).
Proof. reflexivity. Qed.

Lemma rows_length (levels : list (list scalar)) (n : nat) :
  levels ≠ [] -> Forall (fun l => length l = n) levels -> length (rows levels) = n.
Proof.
  intros Hne Hall. induction Hall as [|l ls Hl Hall IH]; [congruence|].
  destruct ls as [|l2 ls].
  - simpl. rewrite length_fmap. exact Hl.
  - rewrite rows_cons2, length_zip_with, Hl, IH by discriminate. lia.
Qed.

(** Every row is as wide as the table has levels. *)
Lemma rows_width (levels : list (list scalar)) (r : list scalar) :
  r ∈ rows levels -> length r = length levels.
Proof.
  revert r. induction levels as [|l ls IH]; intros r; [intros H; inversion H|].
  destruct ls as [|l2 ls].
  - simpl. intros Hr. apply list_elem_of_fmap in Hr as (x & -> & _). reflexivity.
  - rewrite rows_cons2. intros Hr.
    apply elem_of_zip_with in Hr as (x & r' & -> & _ & Hr').
    simpl. f_equal. apply IH, Hr'.
Qed.

Lemma rows_pick (levels : list (list scalar)) (n : nat) (pos : list nat) :
  Forall (fun l => length l = n) levels ->
  rows ((fun l => pick l pos) <$> levels) = pick (rows levels) pos.
Proof.
  intros Hall. induction Hall as [|l ls Hl Hall IH].
  - simpl. symmetry. apply pick_nil.
  - destruct ls as [|l2 ls].
    + simpl. symmetry. apply pick_fmap.
    + rewrite !fmap_cons, rows_cons2. rewrite fmap_cons in IH. rewrite IH.
      rewrite rows_cons2. symmetry. apply pick_zip_with.
      rewrite Hl. symmetry. apply rows_length; [discriminate | exact Hall].
Qed.

Lemma rows_app (ls1 ls2 : list (list scalar)) (n m : nat) :
  length ls1 = length ls2 ->
  Forall (fun l => length l = n) ls1 -> Forall (fun l => length l = m) ls2 ->
  rows (zip_with app ls1 ls2) = rows ls1 ++ rows ls2.
Proof.
  intros Hlen Hall1. revert ls2 Hlen.
  induction Hall1 as [|l1 ls1 Hl1 Hall1 IH]; intros ls2 Hlen Hall2.
  - destruct ls2; [reflexivity | discriminate].
  - destruct Hall2 as [|l2 ls2 Hl2 Hall2]; [discriminate|].
    injection Hlen as Hlen.
    destruct ls1 as [|l1' ls1], ls2 as [|l2' ls2]; try discriminate.
    + simpl. apply fmap_app.
    + change (zip_with app (l1 :: l1' :: ls1) (l2 :: l2' :: ls2))
        with ((l1 ++ l2) :: zip_with app (l1' :: ls1) (l2' :: ls2)).
      assert (zip_with app (l1' :: ls1) (l2' :: ls2) ≠ []) as Hne by discriminate.
      destruct (zip_with app (l1' :: ls1) (l2' :: ls2)) as [|z zs] eqn:Hz; [congruence|].
      rewrite rows_cons2, <- Hz, (IH _ Hlen Hall2), !rows_cons2.
      apply zip_with_app.
      rewrite Hl1. symmetry. apply rows_length; [discriminate | exact Hall1].
Qed.

(** ** Concatenation *)

(** What [generic_concat] does with two arrays: a type error unless they
    are of one class, a value error unless of one dtype, and otherwise the
    elements of both, in order when [ordered] holds and as the engine
    lays them out when not. *)
Lemma generic_concat_pair `{Kernels} (a b : akarray) (ordered : bool) :
  util.generic_concat [a; b] ordered =
    if decide (ak_class a = ak_class b) then
      if decide (ak_dtype b = ak_dtype a) then
        Ok (raw_array (ak_class a) (ak_dtype a)
              (if ordered then ak_data a ++ ak_data b
               else pick (ak_data a ++ ak_data b)
                         (concat_arrangement [ak_size a; ak_size b])))
      else Raise ValueError
    else Raise TypeError.
Proof.
  unfold util.generic_concat. cbn [fmap list_fmap remove_dups].
  destruct (decide_rel elem_of (ak_class a) [ak_class b]) as [Hin|Hnin].
  - apply list_elem_of_singleton in Hin.
    rewrite (decide_True _ _ Hin). simpl.
    rewrite bool_decide_eq_true_2 by reflexivity. simpl.
    rewrite app_nil_r.
    destruct (decide (ak_dtype b = ak_dtype a)) as [Hd|Hd].
    + rewrite bool_decide_eq_true_2 by exact Hd. reflexivity.
    + rewrite bool_decide_eq_false_2 by exact Hd. reflexivity.
  - rewrite (decide_False (P := ak_class a = ak_class b));
      [reflexivity | intros Heq; apply Hnin; rewrite Heq; left].
Qed.

Lemma Index_init_array (a : akarray) :
  Index.__init__ (VObj (PyArr a)) None = Ok (mk_Index a (ak_size a) (ak_dtype a) None).
Proof. reflexivity. Qed.

Lemma Index_concat_unfold `{Kernels} (a b : Index) :
  Index.concat a (VIdx (AnIndex b)) =
    idx ← util.generic_concat [idx_values a; idx_values b] true;
    Ok (mk_Index idx (ak_size idx) (ak_dtype idx) None).
Proof. reflexivity. Qed.

Lemma Index_merge_unfold `{Kernels} (a b : Index) :
  Index._merge a (VIdx (AnIndex b)) =
    idx ← util.generic_concat [idx_values a; idx_values b] false;
    let r := util.apply_callback (util.get_callback (idx_values a)) (unique idx) in
    Ok (mk_Index r (ak_size r) (ak_dtype r) None).
Proof. reflexivity. Qed.

Lemma apply_callback_data (cb : callback) (raw : akarray) :
  ak_data (util.apply_callback cb raw) = ak_data raw.
Proof. destruct cb; reflexivity. Qed.

(** The elements of a merge: each value of either side, once. *)
Lemma Index_merge_elems (K : Kernels) (a b r : Index) :
  arrangement_contract K -> unique_contract K ->
  Index._merge a (VIdx (AnIndex b)) = Ok r ->
  NoDup (idx_elems r)
  ∧ (forall x, x ∈ idx_elems r <-> x ∈ idx_elems a ∨ x ∈ idx_elems b)
  ∧ idx_size r = length (idx_elems r).
Proof.
  intros Harr Huniq. rewrite Index_merge_unfold, generic_concat_pair.
  destruct (decide _); [|discriminate]. destruct (decide _); [|discriminate].
  simpl. intros [= <-]. unfold idx_elems. simpl.
  rewrite apply_callback_data. simpl.
  destruct (Huniq (pick (ak_data (idx_values a) ++ ak_data (idx_values b))
                        (concat_arrangement [ak_size (idx_values a); ak_size (idx_values b)])))
    as [Hnd Hel].
  split; [exact Hnd|]. split.
  - intros x. rewrite Hel, <- elem_of_app.
    assert (Hp : pick (ak_data (idx_values a) ++ ak_data (idx_values b))
                   (concat_arrangement [ak_size (idx_values a); ak_size (idx_values b)])
                 ≡ₚ ak_data (idx_values a) ++ ak_data (idx_values b)).
    { apply pick_Permutation. unfold arrangement_contract in Harr.
      rewrite Harr, length_app. simpl. unfold ak_size.
      rewrite Nat.add_0_r. reflexivity. }
    rewrite Hp. reflexivity.
  - unfold ak_size. rewrite apply_callback_data. reflexivity.
Qed.

(** Level-wise concatenation of two tables of the same width whose levels
    agree in class and dtype. *)
Lemma concat_levels_Ok (K : Kernels) (ls1 ls2 : list akarray) (ordered : bool)
    (n m : nat) :
  Forall (fun a => ak_size a = n) ls1 -> Forall (fun a => ak_size a = m) ls2 ->
  Forall2 (fun a b => ak_class a = ak_class b ∧ ak_dtype b = ak_dtype a) ls1 ls2 ->
  exists idx,
    MultiIndex.concat_levels ls1 ls2 ordered = Ok idx
    ∧ length idx = length ls1
    ∧ ak_data <$> idx
      = (fun l => if ordered then l else pick l (concat_arrangement [n; m]))
          <$> zip_with app (ak_data <$> ls1) (ak_data <$> ls2).
Proof.
  intros Hn Hm Hcls. revert Hn Hm. unfold MultiIndex.concat_levels.
  induction Hcls as [|a b ls1 ls2 [Hc Hd] _ IH]; intros Hn Hm.
  - exists []. repeat split.
  - apply Forall_cons in Hn as [Ha Hn]. apply Forall_cons in Hm as [Hb Hm].
    destruct (IH Hn Hm) as (idx & Hidx & Hlen & Hdata).
    change (zip (a :: ls1) (b :: ls2)) with ((a, b) :: zip ls1 ls2).
    rewrite mapM_result_cons, Hidx. cbn [fst snd].
    rewrite generic_concat_pair.
    rewrite (decide_True _ _ Hc), (decide_True _ _ Hd).
    eexists. split; [reflexivity|].
    split; [simpl; f_equal; exact Hlen|].
    csimpl. rewrite Hdata, Ha, Hb. reflexivity.
Qed.

Lemma Forall_size_data (ls : list akarray) (n : nat) :
  Forall (fun a => ak_size a = n) ls -> Forall (fun l => length l = n) (ak_data <$> ls).
Proof. intros H. apply Forall_fmap. exact H. Qed.

Lemma Forall2_refl_class (ls : list akarray) :
  Forall2 (fun a b => ak_class a = ak_class b ∧ ak_dtype b = ak_dtype a) ls ls.
Proof. induction ls; constructor; auto. Qed.

Lemma aligned_data (idx : list akarray) (cols : list (list scalar)) (k : nat) :
  ak_data <$> idx = cols -> idx ≠ [] -> Forall (fun l => length l = k) cols ->
  aligned idx k.
Proof.
  intros <- Hne Hall. split; [exact Hne|].
  apply Forall_fmap in Hall. exact Hall.
Qed.

(** ** Uniqueness *)

Lemma count_one_NoDup {A} `{EqDecision A} (l : list A) :
  (forall x, x ∈ l -> length (filter (fun y => y = x) l) = 1%nat) -> NoDup l.
Proof.
  induction l as [|a l IH]; intros Hone; [constructor|].
  assert (Ha : a ∉ l).
  { specialize (Hone a (list_elem_of_here _ _)).
    rewrite filter_cons_True in Hone by reflexivity. simpl in Hone.
    intros Hin. assert (a ∈ filter (fun y => y = a) l) as Hf
      by (apply list_elem_of_filter; auto).
    destruct (filter (fun y => y = a) l); [inversion Hf | discriminate]. }
  constructor; [exact Ha|]. apply IH. intros x Hx.
  specialize (Hone x (list_elem_of_further _ _ _ Hx)).
  rewrite filter_cons_False in Hone by (intros ->; contradiction). exact Hone.
Qed.

(** When [is_unique] answers [True] no row occurs twice. *)
Lemma is_unique_NoDup (K : Kernels) (x : index_obj) (n : nat) :
  unique_keys_contract K -> aligned (key_levels x) n ->
  Index.is_unique x = Ok true -> NoDup (level_rows (key_levels x)).
Proof.
  intros Hk Hal. destruct (Hk _ _ Hal) as (keys & m & Hgb & _ & _ & _ & Hel).
  unfold Index.is_unique, GroupBy_count. rewrite Hgb. simpl. intros [= Hall].
  apply count_one_NoDup. intros r Hr. apply Hel in Hr.
  rewrite forallb_forall in Hall.
  assert (Z.of_nat (length (filter (fun r' => r' = r) (level_rows (key_levels x)))) = 1) as Hc.
  { apply Z.eqb_eq, Hall. apply list_elem_of_In, list_elem_of_fmap. eauto. }
  lia.
Qed.

Lemma level_rows_single (a : akarray) :
  level_rows [a] = (fun x => [x]) <$> ak_data a.
Proof. reflexivity. Qed.

#[local] Instance singleton_list_inj : Inj (=) (=) (fun x : scalar => [x]).
Proof. intros x y [= ->]. reflexivity. Qed.

Lemma zip_with_app_lengths {A} (ls1 ls2 : list (list A)) (n m : nat) :
  Forall (fun l => length l = n) ls1 -> Forall (fun l => length l = m) ls2 ->
  Forall (fun l => length l = (n + m)%nat) (zip_with app ls1 ls2).
Proof.
  intros H1. revert ls2. induction H1 as [|l1 ls1 Hl1 _ IH]; intros ls2 H2.
  - constructor.
  - destruct H2 as [|l2 ls2 Hl2 H2]; [constructor|].
    simpl. constructor; [rewrite length_app; lia | apply IH, H2].
Qed.

Lemma level_rows_length (levels : list akarray) (n : nat) :
  aligned levels n -> length (level_rows levels) = n.
Proof.
  intros [Hne Hall]. apply rows_length.
  - destruct levels; [congruence | discriminate].
  - apply Forall_size_data, Hall.
Qed.

(** The rows of a level-wise ordered concatenation are the rows of the
    first table followed by those of the second; unordered, they are
    these rows in the engine's arrangement. *)
Lemma concat_levels_rows (K : Kernels) (ls1 ls2 idx : list akarray)
    (ordered : bool) (n m : nat) :
  arrangement_contract K ∨ ordered = true ->
  aligned ls1 n -> aligned ls2 m ->
  Forall2 (fun a b => ak_class a = ak_class b ∧ ak_dtype b = ak_dtype a) ls1 ls2 ->
  MultiIndex.concat_levels ls1 ls2 ordered = Ok idx ->
  aligned idx (n + m)
  ∧ level_rows idx ≡ₚ level_rows ls1 ++ level_rows ls2
  ∧ (ordered = true -> level_rows idx = level_rows ls1 ++ level_rows ls2).
Proof.
  intros Harr [Hne1 Hn] [Hne2 Hm] Hcls Hidx.
  destruct (concat_levels_Ok K ls1 ls2 ordered n m Hn Hm Hcls)
    as (idx' & Hidx' & Hlen & Hdata).
  rewrite Hidx in Hidx'. injection Hidx' as <-.
  pose proof (Forall2_length _ _ _ Hcls) as Hlen12.
  pose proof (zip_with_app_lengths _ _ _ _
                (Forall_size_data _ _ Hn) (Forall_size_data _ _ Hm)) as Hz.
  assert (Hrows : rows (zip_with app (ak_data <$> ls1) (ak_data <$> ls2))
                  = level_rows ls1 ++ level_rows ls2).
  { eapply rows_app; [rewrite !length_fmap; exact Hlen12 | |];
      apply Forall_size_data; eassumption. }
  assert (Hidx_ne : idx ≠ []).
  { intros ->. destruct ls1; [congruence | discriminate]. }
  destruct ordered.
  - rewrite list_fmap_id in Hdata.
    split; [eapply aligned_data; eauto|].
    assert (level_rows idx = level_rows ls1 ++ level_rows ls2) as ->
      by (unfold level_rows at 1; rewrite Hdata; exact Hrows).
    auto.
  - destruct Harr as [Harr|]; [|discriminate].
    assert (Hperm : forall (B : Type) (xs : list B), length xs = (n + m)%nat ->
              pick xs (concat_arrangement [n; m]) ≡ₚ xs).
    { intros B xs Hxs. apply pick_Permutation. unfold arrangement_contract in Harr.
      rewrite Harr, Hxs. simpl. rewrite Nat.add_0_r. reflexivity. }
    split; [|split; [|discriminate]].
    + eapply aligned_data; [exact Hdata | exact Hidx_ne |].
      apply Forall_fmap. eapply Forall_impl; [exact Hz|].
      intros l Hl. simpl. rewrite (Hperm _ l Hl). exact Hl.
    + unfold level_rows at 1. rewrite Hdata.
      rewrite (rows_pick _ (n + m)%nat _ Hz), Hrows.
      apply Hperm. rewrite length_app.
      rewrite (level_rows_length ls1 n), (level_rows_length ls2 m)
        by (split; assumption).
      reflexivity.
Qed.

Lemma MultiIndex_concat_unfold `{Kernels} (a b : MultiIndex) :
  MultiIndex.concat a (VIdx (AMultiIndex b)) =
    idx ← MultiIndex.concat_levels (mi_values a) (mi_values b) true;
    MultiIndex.__init__ (VObj (PyList (PyArr <$> idx))).
Proof. reflexivity. Qed.

Lemma MultiIndex_merge_unfold `{Kernels} (a b : MultiIndex) :
  MultiIndex._merge a (VIdx (AMultiIndex b)) =
    idx ← MultiIndex.concat_levels (mi_values a) (mi_values b) false;
    keys ← groupby_unique_keys idx;
    MultiIndex.__init__ (VObj (PyList (PyArr <$> keys))).
Proof. reflexivity. Qed.

(** A level-wise concatenation of two tables of one width that returns
    was given levels that agree in class and dtype. *)
Lemma concat_levels_inv (K : Kernels) (ls1 ls2 idx : list akarray) (ordered : bool) :
  length ls1 = length ls2 ->
  MultiIndex.concat_levels ls1 ls2 ordered = Ok idx ->
  Forall2 (fun a b => ak_class a = ak_class b ∧ ak_dtype b = ak_dtype a) ls1 ls2.
Proof.
  unfold MultiIndex.concat_levels. revert ls2 idx.
  induction ls1 as [|a ls1 IH]; intros [|b ls2] idx Hlen Hidx; try discriminate.
  - constructor.
  - change (zip (a :: ls1) (b :: ls2)) with ((a, b) :: zip ls1 ls2) in Hidx.
    rewrite mapM_result_cons in Hidx.
    apply bind_Ok in Hidx as (y & Hy & Hidx).
    apply bind_Ok in Hidx as (k & Hk & _).
    cbn [fst snd] in Hy. rewrite generic_concat_pair in Hy.
    destruct (decide (ak_class a = ak_class b)) as [Hc|]; [|discriminate].
    destruct (decide (ak_dtype b = ak_dtype a)) as [Hd|]; [|discriminate].
    constructor; [auto|]. apply (IH ls2 k); [|exact Hk].
    simpl in Hlen. lia.
Qed.

(** The claim C5 as stated fails three times.  Two [Index] objects pass
    the type check of [concat] whatever their arrays are:
    [generic_concat] refuses arrays of two classes, and the
    concatenation refuses arrays of one class and two dtypes.  Two
    MultiIndex objects of two and of three levels are concatenated over
    the two levels they share, and the third level of the second is
    lost. *)
Lemma C5_concat_counterexample :
  @Index.concat ref_kernels sample_idx (VIdx (AnIndex sample_str_idx)) = Raise TypeError
  ∧ @Index.concat ref_kernels sample_idx (VIdx (AnIndex sample_bool_idx))
    = Raise ValueError
  ∧ exists r,
      @MultiIndex.concat ref_kernels sample_mi (VIdx (AMultiIndex sample_mi3)) = Ok r
      ∧ mi_levels r = 2%nat
      ∧ mi_rows r ≠ mi_rows sample_mi ++ mi_rows sample_mi3.
Proof.
  split; [vm_compute; reflexivity|]. split; [vm_compute; reflexivity|].
  eexists. split; [vm_compute; reflexivity|]. split; [reflexivity|].
  vm_compute. discriminate.
Qed.

(** C5, amended.  [concat] of two indices whose arrays agree in class and
    dtype returns the elements of the first followed by those of the
    second, duplicates kept; whenever it returns, that is what it
    returns; and the same holds row by row for two MultiIndex objects
    with the same number of levels.  [concat([1,2,2], [2,3])] is
    [[1,2,2,2,3]], while [_merge] keeps each value of either side
    once. *)
Theorem C5_concat_keeps_order_and_duplicates (K : Kernels) :
  (forall a b : Index,
     ak_class (idx_values a) = ak_class (idx_values b) ->
     ak_dtype (idx_values b) = ak_dtype (idx_values a) ->
     exists r, Index.concat a (VIdx (AnIndex b)) = Ok r
               ∧ idx_elems r = idx_elems a ++ idx_elems b
               ∧ idx_size r = length (idx_elems a ++ idx_elems b))
  ∧ (forall a b r,
       Index.concat a (VIdx (AnIndex b)) = Ok r ->
       idx_elems r = idx_elems a ++ idx_elems b)
  ∧ (forall (a b : MultiIndex) n m,
       MultiIndex_wf a n -> MultiIndex_wf b m ->
       Forall2 (fun x y => ak_class x = ak_class y ∧ ak_dtype y = ak_dtype x)
               (mi_values a) (mi_values b) ->
       exists r, MultiIndex.concat a (VIdx (AMultiIndex b)) = Ok r
                 ∧ mi_rows r = mi_rows a ++ mi_rows b
                 ∧ mi_size r = Some (n + m)%nat)
  ∧ (forall (a b r : MultiIndex) n m,
       MultiIndex_wf a n -> MultiIndex_wf b m ->
       mi_levels a = mi_levels b ->
       MultiIndex.concat a (VIdx (AMultiIndex b)) = Ok r ->
       mi_rows r = mi_rows a ++ mi_rows b
       ∧ mi_size r = Some (n + m)%nat
       ∧ mi_levels r = mi_levels a)
  ∧ (exists a b r,
       Index.__init__ (VObj (py_ints [1; 2; 2])) None = Ok a
       ∧ Index.__init__ (VObj (py_ints [2; 3])) None = Ok b
       ∧ Index.concat a (VIdx (AnIndex b)) = Ok r
       ∧ idx_elems r = [SInt 1; SInt 2; SInt 2; SInt 2; SInt 3])
  ∧ (arrangement_contract K -> unique_contract K ->
     forall a b r,
       Index._merge a (VIdx (AnIndex b)) = Ok r ->
       NoDup (idx_elems r)
       ∧ forall x, x ∈ idx_elems r <-> x ∈ idx_elems a ∨ x ∈ idx_elems b).
Proof.
  assert (Hmulti : forall (a b : MultiIndex) n m idx,
            MultiIndex_wf a n -> MultiIndex_wf b m ->
            Forall2 (fun x y => ak_class x = ak_class y ∧ ak_dtype y = ak_dtype x)
                    (mi_values a) (mi_values b) ->
            MultiIndex.concat_levels (mi_values a) (mi_values b) true = Ok idx ->
            MultiIndex.concat a (VIdx (AMultiIndex b))
              = Ok (mk_MultiIndex idx (Some (n + m)%nat) (length idx) None)
            ∧ level_rows idx = mi_rows a ++ mi_rows b
            ∧ length idx = length (mi_values a)).
  { intros a b n m idx (Ha & _ & _) (Hb & _ & _) Hcls Hidx.
    rewrite MultiIndex_concat_unfold, Hidx, result_bind_Ok.
    destruct (concat_levels_rows K _ _ _ true n m (or_intror eq_refl) Ha Hb Hcls Hidx)
      as (Hal & _ & Hrows).
    rewrite (MultiIndex_init_aligned _ _ Hal).
    split; [reflexivity|]. split; [apply Hrows; reflexivity|].
    destruct (concat_levels_Ok K _ _ true n m (proj2 Ha) (proj2 Hb) Hcls)
      as (idx' & Hidx' & Hlen & _).
    rewrite Hidx in Hidx'. injection Hidx' as <-. exact Hlen. }
  split; [|split; [|split; [|split; [|split]]]].
  - intros a b Hc Hd. rewrite Index_concat_unfold, generic_concat_pair.
    rewrite (decide_True _ _ Hc), (decide_True _ _ Hd). simpl.
    eexists. split; [reflexivity|]. split; reflexivity.
  - intros a b r. rewrite Index_concat_unfold, generic_concat_pair.
    destruct (decide _); [|discriminate]. destruct (decide _); [|discriminate].
    simpl. intros [= <-]. reflexivity.
  - intros a b n m Ha Hb Hcls.
    destruct (concat_levels_Ok K _ _ true n m (proj2 (proj1 Ha)) (proj2 (proj1 Hb)) Hcls)
      as (idx & Hidx & _ & _).
    destruct (Hmulti a b n m idx Ha Hb Hcls Hidx) as (Hr & Hrows & _).
    eexists. split; [exact Hr|]. split; [exact Hrows | reflexivity].
  - intros a b r n m Ha Hb Hlev Hr.
    pose proof Hr as Hr'. rewrite MultiIndex_concat_unfold in Hr'.
    apply bind_Ok in Hr' as (idx & Hidx & _).
    assert (Hlen : length (mi_values a) = length (mi_values b)).
    { destruct Ha as (_ & _ & <-). destruct Hb as (_ & _ & <-). exact Hlev. }
    pose proof (concat_levels_inv K _ _ _ _ Hlen Hidx) as Hcls.
    destruct (Hmulti a b n m idx Ha Hb Hcls Hidx) as (Hr2 & Hrows & Hl).
    rewrite Hr in Hr2. injection Hr2 as ->.
    split; [exact Hrows|]. split; [reflexivity|].
    destruct Ha as (_ & _ & ->). exact Hl.
  - do 3 eexists. repeat split.
  - intros Harr Huniq a b r Hr.
    destruct (Index_merge_elems K a b r Harr Huniq Hr) as (Hnd & Hel & _). auto.
Qed.

(** [_merge([1, 2, 2], [2, 3])] run by the reference engine: three
    elements, each once. *)
Example Index_merge_1_2_2_with_2_3 :
  (a ← Index.__init__ (VObj (py_ints [1; 2; 2])) None;
   b ← Index.__init__ (VObj (py_ints [2; 3])) None;
   r ← @Index._merge ref_kernels a (VIdx (AnIndex b));
   Ok (idx_elems r, idx_size r))
    = Ok ([SInt 1; SInt 2; SInt 3], 3%nat).
Proof. vm_compute. reflexivity. Qed.

(** ** Merging an index with itself *)

(** C3.  For an [Index] and for a [MultiIndex] on which [is_unique]
    answers [True], [_merge] of the object with itself returns an index
    with the same set of elements (rows) and the same size, under the
    contracts of the engine. *)
Theorem C3_merge_idempotent_on_unique (K : Kernels) :
  arrangement_contract K -> unique_contract K -> unique_keys_contract K ->
  (forall u : Index,
     Index_wf u -> Index.is_unique (AnIndex u) = Ok true ->
     exists r, Index._merge u (VIdx (AnIndex u)) = Ok r
               ∧ (forall x, x ∈ idx_elems r <-> x ∈ idx_elems u)
               ∧ idx_size r = idx_size u)
  ∧ (forall (u : MultiIndex) n,
       MultiIndex_wf u n -> Index.is_unique (AMultiIndex u) = Ok true ->
       exists r, MultiIndex._merge u (VIdx (AMultiIndex u)) = Ok r
                 ∧ (forall x, x ∈ mi_rows r <-> x ∈ mi_rows u)
                 ∧ mi_size r = mi_size u).
Proof.
  intros Harr Huniq Hkeys. split.
  - intros u Hwf Hu.
    assert (Hnd : NoDup (idx_elems u)).
    { apply (is_unique_NoDup K (AnIndex u) (ak_size (idx_values u))) in Hu;
        [|exact Hkeys | split; [discriminate | repeat constructor]].
      simpl in Hu. rewrite level_rows_single in Hu.
      apply NoDup_fmap in Hu; [exact Hu | apply _]. }
    assert (exists r, Index._merge u (VIdx (AnIndex u)) = Ok r) as [r Hr].
    { rewrite Index_merge_unfold, generic_concat_pair.
      rewrite !decide_True by reflexivity. simpl. eauto. }
    exists r. split; [exact Hr|].
    destruct (Index_merge_elems K u u r Harr Huniq Hr) as (Hndr & Hel & Hsz).
    assert (Hsame : forall x, x ∈ idx_elems r <-> x ∈ idx_elems u)
      by (intros x; rewrite Hel; tauto).
    split; [exact Hsame|].
    rewrite Hsz, Hwf. apply Permutation_length, NoDup_Permutation; assumption.
  - intros u n (Hal & Hsize & Hlev) Hu.
    pose proof (is_unique_NoDup K (AMultiIndex u) n Hkeys Hal Hu) as Hnd.
    simpl in Hnd. fold (mi_rows u) in Hnd.
    pose proof (Forall2_refl_class (mi_values u)) as Hcls.
    destruct (concat_levels_Ok K _ _ false n n (proj2 Hal) (proj2 Hal) Hcls)
      as (idx & Hidx & _ & _).
    destruct (concat_levels_rows K _ _ _ false n n (or_introl Harr) Hal Hal Hcls Hidx)
      as (Hal_idx & Hperm & _).
    destruct (Hkeys _ _ Hal_idx) as (keys & m & Hgb & _ & Hal_keys & Hnd_keys & Hel).
    rewrite MultiIndex_merge_unfold, Hidx, result_bind_Ok, Hgb, result_bind_Ok.
    rewrite (MultiIndex_init_aligned _ _ Hal_keys).
    eexists. split; [reflexivity|].
    assert (Hsame : forall x, x ∈ level_rows keys <-> x ∈ mi_rows u).
    { intros x. rewrite Hel, Hperm, elem_of_app. unfold mi_rows. tauto. }
    split; [exact Hsame|]. simpl. rewrite Hsize. f_equal.
    rewrite <- (level_rows_length _ _ Hal_keys), <- (level_rows_length _ _ Hal).
    apply Permutation_length, NoDup_Permutation; assumption.
Qed.

(** ** Sorting a MultiIndex *)

Lemma countdown_map (n : nat) :
  (fun k => Z.of_nat n - 1 + Z.of_nat k * -1) <$> seq 0 n
    = Z.of_nat <$> reverse (seq 0 n).
Proof.
  induction n as [|n IH]; [reflexivity|].
  rewrite seq_S at 2. rewrite reverse_app. cbn [reverse rev_append app fmap list_fmap].
  change (reverse [n]) with [n]. cbn [app fmap list_fmap].
  cbn [seq]. rewrite fmap_cons. f_equal; [lia|].
  rewrite <- fmap_S_seq, <- list_fmap_compose, <- IH.
  apply list_fmap_ext. intros i k _. simpl. lia.
Qed.

(** [arange(n - 1, -1, -1)] counts down from [n - 1] to 0. *)
Lemma arange_countdown (n : nat) :
  arange (Z.of_nat n - 1) (-1) (-1) = Z.of_nat <$> reverse (seq 0 n).
Proof.
  unfold arange. change (0 <? -1) with false. change (-1 <? 0) with true.
  change (- (-1)) with 1. cbv iota.
  replace (Z.to_nat ((Z.of_nat n - 1 - -1 - -1 - 1) `div` 1)) with n
    by (rewrite Z.div_1_r; lia).
  apply countdown_map.
Qed.

Lemma to_nat_of_nat_fmap (l : list nat) : Z.to_nat <$> (Z.of_nat <$> l) = l.
Proof.
  rewrite <- list_fmap_compose. rewrite <- (list_fmap_id l) at 2.
  apply list_fmap_ext. intros i k _. simpl. apply Nat2Z.id.
Qed.

Lemma gather_in_range {A} (xs : list A) (idx : list Z) :
  Forall (fun i => 0 ≤ i < Z.of_nat (length xs)) idx ->
  gather xs idx = Ok (pick xs (Z.to_nat <$> idx)).
Proof.
  intros Hall. unfold gather.
  rewrite (proj2 (forallb_forall _ _)); [reflexivity|].
  intros i Hi. apply list_elem_of_In in Hi.
  rewrite Forall_forall in Hall. specialize (Hall i Hi).
  apply andb_true_iff. split; [apply Z.leb_le | apply Z.ltb_lt]; lia.
Qed.

Lemma gather_reverse {A} (xs : list A) :
  gather xs (Z.of_nat <$> reverse (seq 0 (length xs))) = Ok (reverse xs).
Proof.
  rewrite gather_in_range.
  - rewrite to_nat_of_nat_fmap, pick_reverse_seq. reflexivity.
  - apply Forall_fmap, Forall_forall. intros k Hk. simpl.
    apply elem_of_reverse, elem_of_seq in Hk. lia.
Qed.

Lemma positions_in_range (p : list Z) (n : nat) :
  p ≡ₚ Z.of_nat <$> seq 0 n ->
  length p = n ∧ Forall (fun i => 0 ≤ i < Z.of_nat n) p.
Proof.
  intros Hp. split.
  - rewrite Hp, length_fmap, length_seq. reflexivity.
  - rewrite Hp. apply Forall_fmap, Forall_forall. intros k Hk. simpl.
    apply elem_of_seq in Hk. lia.
Qed.

Lemma getitem_array_in_range (a : akarray) (key : list Z) :
  Forall (fun i => 0 ≤ i < Z.of_nat (ak_size a)) key ->
  MultiIndex.getitem_array a key
    = Ok (raw_array (raw_class (ak_class a)) (ak_dtype a)
            (pick (ak_data a) (Z.to_nat <$> key))).
Proof.
  intros Hkey. unfold MultiIndex.getitem_array.
  rewrite gather_in_range by exact Hkey. reflexivity.
Qed.

(** Indexing every level by an array of valid positions. *)
Lemma getitem_levels (levels : list akarray) (key : list Z) (n : nat) :
  Forall (fun a => ak_size a = n) levels ->
  Forall (fun i => 0 ≤ i < Z.of_nat n) key ->
  exists cols,
    mapM (fun i => MultiIndex.getitem_array i key) levels = Ok cols
    ∧ length cols = length levels
    ∧ ak_data <$> cols = (fun l => pick l (Z.to_nat <$> key)) <$> (ak_data <$> levels).
Proof.
  intros Hall Hkey. induction Hall as [|a levels Ha _ IH].
  - exists []. repeat split.
  - destruct IH as (cols & Hcols & Hlen & Hdata).
    eexists. split; [|split].
    + rewrite mapM_result_cons, getitem_array_in_range by (rewrite Ha; exact Hkey).
      rewrite result_bind_Ok, Hcols. reflexivity.
    + simpl. f_equal. exact Hlen.
    + rewrite !fmap_cons, Hdata. reflexivity.
Qed.

(** C4.  For a well-formed MultiIndex and an engine whose [coargsort]
    meets its contract, [argsort(ascending=True)] returns a permutation
    of the positions, indexing the MultiIndex by it gives rows sorted
    lexicographically with level 0 most significant, and
    [argsort(ascending=False)] returns that permutation reversed. *)
Theorem C4_multiindex_argsort (K : Kernels) (m : MultiIndex) (n : nat) :
  coargsort_contract K -> MultiIndex_wf m n ->
  exists p s,
    MultiIndex.argsort m true = Ok p
    ∧ p ≡ₚ Z.of_nat <$> seq 0 n
    ∧ MultiIndex.__getitem__ m p = Ok s
    ∧ mi_rows s = pick (mi_rows m) (Z.to_nat <$> p)
    ∧ Sorted lex_le (mi_rows s)
    ∧ MultiIndex.argsort m false = Ok (reverse p).
Proof.
  intros Hco (Hal & Hsize & _).
  destruct (Hco _ _ Hal) as (p & Hp & Hperm & Hsorted).
  destruct (positions_in_range p n Hperm) as [Hlen Hrange].
  destruct (getitem_levels _ p n (proj2 Hal) Hrange) as (cols & Hcols & Hclen & Hdata).
  assert (Hal_cols : aligned cols n).
  { eapply aligned_data; [exact Hdata | |].
    - intros ->. destruct Hal as [Hne _]. destruct (mi_values m); [congruence | discriminate].
    - apply Forall_fmap, Forall_fmap, Forall_forall. intros a Ha. simpl.
      rewrite pick_length, length_fmap; [exact Hlen|].
      destruct Hal as [_ Hsz]. rewrite Forall_forall in Hsz.
      specialize (Hsz a Ha). unfold ak_size in Hsz. rewrite Hsz.
      apply Forall_fmap. eapply Forall_impl; [exact Hrange|]. simpl. lia. }
  assert (Hrows : level_rows cols = pick (mi_rows m) (Z.to_nat <$> p)).
  { unfold level_rows, mi_rows. rewrite Hdata.
    apply (rows_pick _ n), Forall_size_data, Hal. }
  exists p, (mk_MultiIndex cols (Some n) (length cols) None).
  split; [unfold MultiIndex.argsort; rewrite Hp; reflexivity|].
  split; [exact Hperm|].
  split; [unfold MultiIndex.__getitem__;
          rewrite Hcols, result_bind_Ok; apply MultiIndex_init_aligned, Hal_cols|].
  split; [exact Hrows|].
  split; [unfold mi_rows; simpl; rewrite Hrows; exact Hsorted|].
  unfold MultiIndex.argsort. rewrite Hp, result_bind_Ok, Hsize. simpl negb. cbv iota.
  rewrite arange_countdown, <- Hlen. apply gather_reverse.
Qed.

(** ** The reference engine meets the contracts *)

Lemma ref_arrangement_contract : arrangement_contract ref_kernels.
Proof. intros sizes. reflexivity. Qed.

Lemma ref_unique_contract : unique_contract ref_kernels.
Proof.
  intros xs. split; [apply NoDup_remove_dups | intros x; apply elem_of_remove_dups].
Qed.

Lemma columns_SS (k : nat) (rs : list (list scalar)) :
  columns (S (S k)) rs = (default (SInt 0) ∘ head <$> rs) :: columns (S k) (tail <$> rs).
Proof. reflexivity. Qed.

Lemma columns_length (k : nat) (rs : list (list scalar)) : length (columns k rs) = k.
Proof.
  revert rs. induction k as [|k IH]; intros rs; [reflexivity|].
  destruct k as [|k]; [reflexivity|].
  rewrite columns_SS. simpl. f_equal. apply IH.
Qed.

Lemma columns_sizes (k : nat) (rs : list (list scalar)) :
  Forall (fun c => length c = length rs) (columns k rs).
Proof.
  revert rs. induction k as [|k IH]; intros rs; [constructor|].
  destruct k as [|k].
  - repeat constructor. apply length_fmap.
  - rewrite columns_SS. constructor; [apply length_fmap|].
    specialize (IH (tail <$> rs)). rewrite length_fmap in IH. exact IH.
Qed.

Lemma heads_tails (rs : list (list scalar)) (k : nat) :
  Forall (fun r => length r = S k) rs ->
  zip_with cons (default (SInt 0) ∘ head <$> rs) (tail <$> rs) = rs.
Proof.
  induction 1 as [|r rs Hr _ IH]; [reflexivity|].
  destruct r as [|x r]; [discriminate|].
  csimpl. f_equal. exact IH.
Qed.

Lemma rows_columns (k : nat) (rs : list (list scalar)) :
  Forall (fun r => length r = S k) rs -> rows (columns (S k) rs) = rs.
Proof.
  revert rs. induction k as [|k IH]; intros rs Hall.
  - simpl. rewrite <- list_fmap_compose.
    rewrite <- (list_fmap_id rs) at 2. apply Forall_fmap_ext_1.
    eapply Forall_impl; [exact Hall|]. intros [|x [|y r]]; try discriminate.
    reflexivity.
  - rewrite columns_SS.
    pose proof (columns_length (S k) (tail <$> rs)) as Hlen.
    destruct (columns (S k) (tail <$> rs)) as [|c cs] eqn:Hc; [discriminate|].
    rewrite rows_cons2, <- Hc, IH; [eapply heads_tails, Hall|].
    apply Forall_fmap. eapply Forall_impl; [exact Hall|].
    intros [|x r]; [discriminate|]. simpl. lia.
Qed.

Lemma same_size_aligned (levels : list akarray) (n : nat) :
  aligned levels n -> same_size levels = true.
Proof.
  intros [Hne Hall]. destruct Hall as [|a rest Ha Hall]; [congruence|].
  simpl. apply forallb_forall. intros b Hb. apply bool_decide_eq_true_2.
  rewrite Forall_forall in Hall. rewrite Ha. apply Hall, list_elem_of_In, Hb.
Qed.

Lemma data_zip_with_raw (levels : list akarray) (cols : list (list scalar)) :
  length levels = length cols ->
  ak_data <$> zip_with (fun a col => raw_array (raw_class (ak_class a)) (ak_dtype a) col)
                       levels cols = cols.
Proof.
  revert cols. induction levels as [|a levels IH]; intros [|c cols]; try discriminate;
    [reflexivity|].
  intros [= Hlen]. csimpl. f_equal. apply IH, Hlen.
Qed.

Lemma ref_unique_keys_contract : unique_keys_contract ref_kernels.
Proof.
  intros levels n Hal. simpl. unfold ref_unique_keys.
  rewrite (same_size_aligned _ _ Hal).
  set (rs := remove_dups (level_rows levels)).
  set (cols := columns (length levels) rs).
  assert (Hk : exists k, length levels = S k).
  { destruct Hal as [Hne _]. destruct levels; [congruence | eauto]. }
  destruct Hk as [k Hk].
  assert (Hcols_len : length levels = length cols)
    by (unfold cols; rewrite columns_length; reflexivity).
  assert (Hdata := data_zip_with_raw levels cols Hcols_len).
  assert (Hrows : rows cols = rs).
  { unfold cols. rewrite Hk. apply rows_columns, Forall_forall.
    intros r Hr. apply elem_of_remove_dups, rows_width in Hr.
    rewrite length_fmap, Hk in Hr. exact Hr. }
  eexists _, (length rs). split; [reflexivity|].
  split; [rewrite length_zip_with, <- Hcols_len; lia|].
  split; [|split].
  - eapply aligned_data; [exact Hdata | | apply columns_sizes].
    intros Hnil. rewrite Hnil in Hdata. simpl in Hdata.
    rewrite <- Hdata, Hk in Hcols_len. discriminate.
  - unfold level_rows. rewrite Hdata, Hrows. apply NoDup_remove_dups.
  - intros r. unfold level_rows at 1. rewrite Hdata, Hrows.
    apply elem_of_remove_dups.
Qed.

#[local] Instance scalar_le_total : Total scalar_le.
Proof.
  intros [a|a|a] [b|b|b]; simpl; auto.
  - lia.
  - destruct a, b; auto.
  - apply (total String.le).
Qed.

#[local] Instance lex_le_total : Total lex_le.
Proof.
  intros r1. induction r1 as [|x r1 IH]; intros [|y r2]; simpl; auto.
  destruct (decide (x = y)) as [->|Hne].
  - rewrite decide_True by reflexivity. apply IH.
  - rewrite decide_False by congruence. apply (total scalar_le).
Qed.

#[local] Instance row_le_total (rs : list (list scalar)) : Total (row_le rs).
Proof. intros i j. apply (total lex_le). Qed.

Lemma pick_default {A} (d : A) (xs : list A) (pos : list nat) :
  Forall (fun i => i < length xs)%nat pos ->
  pick xs pos = (fun i => default d (xs !! i)) <$> pos.
Proof.
  induction 1 as [|i pos Hi _ IH]; [reflexivity|].
  apply lookup_lt_is_Some_2 in Hi as [x Hx].
  rewrite (pick_cons_Some _ _ _ _ Hx), fmap_cons, Hx, IH. reflexivity.
Qed.

Lemma ref_coargsort_contract : coargsort_contract ref_kernels.
Proof.
  intros levels n Hal. simpl. unfold ref_coargsort.
  rewrite (same_size_aligned _ _ Hal), (level_rows_length _ _ Hal).
  eexists. split; [reflexivity|].
  split; [rewrite merge_sort_Permutation; reflexivity|].
  rewrite to_nat_of_nat_fmap, (pick_default []).
  - apply (Sorted_fmap _ (row_le (level_rows levels))); [auto|].
    apply Sorted_merge_sort, _.
  - rewrite merge_sort_Permutation, (level_rows_length _ _ Hal).
    apply Forall_forall. intros i Hi. apply elem_of_seq in Hi. lia.
Qed.

(** ** The theorems at concrete inputs *)

Lemma sample_mi_wf : MultiIndex_wf sample_mi 3.
Proof. repeat split; [discriminate | repeat constructor]. Qed.

(** C3 at [sample_idx] and [sample_mi], run by the reference engine. *)
Lemma C3_merge_idempotent_on_unique_witness :
  (exists r, @Index._merge ref_kernels sample_idx (VIdx (AnIndex sample_idx)) = Ok r
             ∧ (forall x, x ∈ idx_elems r <-> x ∈ idx_elems sample_idx)
             ∧ idx_size r = idx_size sample_idx)
  ∧ (exists r, @MultiIndex._merge ref_kernels sample_mi (VIdx (AMultiIndex sample_mi)) = Ok r
               ∧ (forall x, x ∈ mi_rows r <-> x ∈ mi_rows sample_mi)
               ∧ mi_size r = mi_size sample_mi).
Proof.
  destruct (C3_merge_idempotent_on_unique ref_kernels
              ref_arrangement_contract ref_unique_contract ref_unique_keys_contract)
    as [Hindex Hmulti].
  split.
  - apply Hindex; [reflexivity | vm_compute; reflexivity].
  - apply (Hmulti sample_mi 3%nat); [exact sample_mi_wf | vm_compute; reflexivity].
Defined.

(** C4 at [sample_mi], sorted by the reference engine. *)
Lemma C4_multiindex_argsort_witness :
  exists p s,
    @MultiIndex.argsort ref_kernels sample_mi true = Ok p
    ∧ p ≡ₚ Z.of_nat <$> seq 0 3
    ∧ MultiIndex.__getitem__ sample_mi p = Ok s
    ∧ mi_rows s = pick (mi_rows sample_mi) (Z.to_nat <$> p)
    ∧ Sorted lex_le (mi_rows s)
    ∧ @MultiIndex.argsort ref_kernels sample_mi false = Ok (reverse p).
Proof.
  apply (C4_multiindex_argsort ref_kernels sample_mi 3%nat
           ref_coargsort_contract sample_mi_wf).
Defined.

(** C5 at [sample_idx] and [sample_mi], each concatenated with itself. *)
Lemma C5_concat_keeps_order_and_duplicates_witness :
  (exists r, @Index.concat ref_kernels sample_idx (VIdx (AnIndex sample_idx)) = Ok r
             ∧ idx_elems r = idx_elems sample_idx ++ idx_elems sample_idx
             ∧ idx_size r = length (idx_elems sample_idx ++ idx_elems sample_idx))
  ∧ (exists r, @MultiIndex.concat ref_kernels sample_mi (VIdx (AMultiIndex sample_mi)) = Ok r
               ∧ mi_rows r = mi_rows sample_mi ++ mi_rows sample_mi
               ∧ mi_size r = Some (3 + 3)%nat
               ∧ mi_levels r = mi_levels sample_mi).
Proof.
  destruct (C5_concat_keeps_order_and_duplicates ref_kernels)
    as (Hindex & _ & Hmulti & Hret & _ & _).
  split.
  - apply Hindex; reflexivity.
  - destruct (Hmulti sample_mi sample_mi 3%nat 3%nat sample_mi_wf sample_mi_wf)
      as (r & Hr & Hrows & Hsize); [repeat constructor|].
    exists r. split; [exact Hr|]. split; [exact Hrows|]. split; [exact Hsize|].
    apply (Hret sample_mi sample_mi r 3%nat 3%nat sample_mi_wf sample_mi_wf eq_refl Hr).
Defined.

(** C7 at the levels of [sample_mi], and at levels of sizes 3 and 1. *)
Lemma C7_multiindex_invariant_witness :
  (exists cols,
     (VObj (PyList [PyArr lvl0; PyArr lvl1]) = VObj (PyList cols)
      ∨ VObj (PyList [PyArr lvl0; PyArr lvl1]) = VObj (PyTuple cols))
     ∧ cols = PyArr <$> mi_values sample_mi
     ∧ (forall a b, a ∈ mi_values sample_mi -> b ∈ mi_values sample_mi ->
                    ak_size a = ak_size b)
     ∧ (forall a, a ∈ mi_values sample_mi -> mi_size sample_mi = Some (ak_size a))
     ∧ mi_levels sample_mi = length cols)
  ∧ raises (MultiIndex.__init__ (VObj (PyList [PyArr lvl0; PyArr (int_array "id_3" [7])])))
  ∧ raises (MultiIndex.__init__ (VObj (PyTuple [PyArr lvl0; PyArr (int_array "id_3" [7])]))).
Proof.
  destruct C7_multiindex_invariant as [Hinv Hdiff].
  split.
  - apply Hinv. reflexivity.
  - apply (Hdiff [PyArr lvl0; PyArr (int_array "id_3" [7])] 0%nat 1%nat
                 lvl0 (int_array "id_3" [7])); [reflexivity | reflexivity |].
    vm_compute. discriminate.
Defined.


(** * Further properties of the two files *)

(** ** Construction and type checks *)

Lemma array_size (l : list pyobj) (a : akarray) :
  array l = Ok a -> ak_size a = length l.
Proof.
  unfold array. intros Hb. apply bind_Ok in Hb as (xs & Hxs & Ha).
  apply mapM_Ok_length in Hxs. rewrite <- Hxs.
  destruct xs as [|x xs]; [injection Ha as <-; reflexivity|].
  destruct (existsb _ _); [|destruct (forallb _ _)]; injection Ha as <-;
    unfold ak_size; simpl; rewrite ?length_fmap; reflexivity.
Qed.

(** X1.  Whatever [Index.__init__] returns has [size] equal to the size
    of its values, provided an [Index] it copies from has; it never
    returns for a MultiIndex, a tuple, a scalar or [None]; and an empty
    string as [name] falls back to the name of the index copied. *)
Theorem Index_init_invariant :
  (forall values name i,
     Index.__init__ values name = Ok i ->
     (forall o, values = VIdx (AnIndex o) -> Index_wf o) ->
     Index_wf i)
  ∧ (forall values name,
       (exists m, values = VIdx (AMultiIndex m)) ∨ (exists l, values = VObj (PyTuple l))
       ∨ (exists x, values = VObj (PyScalar x)) ∨ values = VObj PyNone ->
       raises (Index.__init__ values name))
  ∧ (forall o, exists i,
       Index.__init__ (VIdx (AnIndex o)) (Some "") = Ok i ∧ idx_name i = idx_name o).
Proof.
  split; [|split].
  - intros values name i Hi Hwf. unfold Index_wf.
    destruct values as [o|[o|m]|vals nm]; simpl in Hi.
    + destruct o as [| |a|l|l]; try discriminate.
      * injection Hi as <-. reflexivity.
      * apply bind_Ok in Hi as (a & Ha & [= <-]). reflexivity.
    + injection Hi as <-. simpl. apply (Hwf o). reflexivity.
    + discriminate.
    + apply bind_Ok in Hi as (a & Ha & [= <-]). simpl.
      symmetry. apply array_size, Ha.
  - intros values name [[m ->]|[[l ->]|[[x ->]| ->]]]; eexists; reflexivity.
  - intros o. eexists. split; reflexivity.
Qed.

(** X1 at the array [lvl0]. *)
Lemma Index_init_invariant_witness : Index_wf sample_idx.
Proof.
  destruct Index_init_invariant as [Hwf _].
  apply (Hwf (VObj (PyArr lvl0)) None sample_idx); [reflexivity|].
  intros o. discriminate.
Defined.

(** X2.  Merging, concatenating or aligning an [Index] with a
    [MultiIndex] (either way round), or with a value that is no index,
    is a type error whatever the contents. *)
Theorem index_type_mismatch_raises (K : Kernels) (i : Index) (m : MultiIndex) :
  Index._merge i (VIdx (AMultiIndex m)) = Raise TypeError
  ∧ Index.concat i (VIdx (AMultiIndex m)) = Raise TypeError
  ∧ MultiIndex._merge m (VIdx (AnIndex i)) = Raise TypeError
  ∧ MultiIndex.concat m (VIdx (AnIndex i)) = Raise TypeError
  ∧ Index_rest._check_aligned (AnIndex i) (VIdx (AMultiIndex m)) = Raise TypeError
  ∧ Index_rest._check_aligned (AMultiIndex m) (VIdx (AnIndex i)) = Raise TypeError
  ∧ (forall rest, Index_rest._merge_all i (VIdx (AMultiIndex m) :: rest) = Raise TypeError)
  ∧ (forall rest, MultiIndex_rest._merge_all m (VIdx (AnIndex i) :: rest) = Raise TypeError)
  ∧ (forall o, Index._merge i (VObj o) = Raise TypeError
               ∧ Index.concat i (VObj o) = Raise TypeError
               ∧ MultiIndex._merge m (VObj o) = Raise TypeError
               ∧ MultiIndex.concat m (VObj o) = Raise TypeError).
Proof. repeat split. Qed.

(** ** Concatenation of any number of arrays *)

Lemma remove_dups_all_same {A} `{EqDecision A} (c : A) (l : list A) :
  l ≠ [] -> Forall (fun x => x = c) l -> remove_dups l = [c].
Proof.
  intros Hne Hall. induction Hall as [|x l -> Hall IH]; [congruence|].
  cbn [remove_dups]. destruct (decide_rel elem_of c l) as [Hin|Hnin].
  - apply IH. intros ->. inversion Hin.
  - destruct Hall as [|y l -> _]; [reflexivity|]. destruct Hnin. left.
Qed.

Lemma remove_dups_two {A} `{EqDecision A} (x y : A) (l : list A) :
  x ∈ l -> y ∈ l -> x ≠ y -> length (remove_dups l) ≠ 1%nat.
Proof.
  intros Hx Hy Hne Hlen.
  apply elem_of_remove_dups in Hx, Hy.
  destruct (remove_dups l) as [|a [|b r]]; try discriminate.
  apply list_elem_of_singleton in Hx, Hy. congruence.
Qed.

(** X3.  [generic_concat] of no array, or of arrays of two different
    classes, is a type error; of one or more arrays of one class and one
    dtype with [ordered] set it is the array of all their elements, piece
    after piece in the order given. *)
Theorem generic_concat_ordered (K : Kernels) :
  (forall ordered, util.generic_concat [] ordered = Raise TypeError)
  ∧ (forall items a b ordered,
       a ∈ items -> b ∈ items -> ak_class a ≠ ak_class b ->
       util.generic_concat items ordered = Raise TypeError)
  ∧ (forall a items,
       Forall (fun b => ak_class b = ak_class a ∧ ak_dtype b = ak_dtype a) items ->
       exists r,
         util.generic_concat (a :: items) true = Ok r
         ∧ ak_data r = concat (ak_data <$> (a :: items))
         ∧ ak_size r = sum_list (ak_size <$> (a :: items))
         ∧ ak_class r = ak_class a ∧ ak_dtype r = ak_dtype a).
Proof.
  split; [reflexivity|]. split.
  - intros items a b ordered Ha Hb Hne. unfold util.generic_concat.
    rewrite decide_True; [reflexivity|].
    apply (remove_dups_two (ak_class a) (ak_class b)); [| |exact Hne];
      apply list_elem_of_fmap; eauto.
  - intros a items Hall. unfold util.generic_concat.
    rewrite (remove_dups_all_same (ak_class a));
      [|discriminate|constructor; [reflexivity|]; apply Forall_fmap;
        eapply Forall_impl; [exact Hall|]; intros b [Hc _]; exact Hc].
    rewrite decide_False by (intros Hf; apply Hf; reflexivity).
    unfold pdarrayconcatenate.
    rewrite (proj2 (forallb_forall _ _)).
    + eexists. split; [reflexivity|]. split; [reflexivity|].
      split; [|split; reflexivity].
      unfold ak_size at 1. cbn [ak_data raw_array].
      generalize (a :: items). intros l.
      induction l as [|x l IH]; [reflexivity|].
      rewrite !fmap_cons. cbn [concat sum_list sum_list_with].
      rewrite length_app, IH. reflexivity.
    + intros b Hb. apply bool_decide_eq_true_2.
      apply list_elem_of_In, elem_of_cons in Hb as [->|Hb]; [reflexivity|].
      rewrite Forall_forall in Hall. apply (Hall b Hb).
Qed.

(** X3 at two copies of [lvl0] after [lvl1]. *)
Lemma generic_concat_ordered_witness :
  exists r,
    @util.generic_concat ref_kernels [lvl1; lvl0; lvl0] true = Ok r
    ∧ ak_data r = concat (ak_data <$> [lvl1; lvl0; lvl0])
    ∧ ak_size r = sum_list (ak_size <$> [lvl1; lvl0; lvl0])
    ∧ ak_class r = ak_class lvl1 ∧ ak_dtype r = ak_dtype lvl1.
Proof.
  destruct (generic_concat_ordered ref_kernels) as (_ & _ & Hok).
  apply (Hok lvl1 [lvl0; lvl0]). repeat constructor.
Defined.

(** ** Merging several indexes *)

Lemma Index_merge_all_loop_cons `{Kernels} (self o : Index) (rest : list pyval)
    (idx : akarray) :
  Index_rest.merge_all_loop self (VIdx (AnIndex o) :: rest) idx =
    idx1 ← util.generic_concat [idx; idx_values o] false;
    Index_rest.merge_all_loop self rest idx1.
Proof. reflexivity. Qed.

Lemma elem_of_concat {A} (x : A) (ls : list (list A)) :
  x ∈ concat ls <-> exists l, x ∈ l ∧ l ∈ ls.
Proof.
  induction ls as [|l ls IH]; simpl.
  - split; [intros H; inversion H | intros (l & _ & H); inversion H].
  - rewrite elem_of_app, IH. split.
    + intros [Hx|(l' & Hx & Hl)]; [exists l; split; [exact Hx | left]|].
      exists l'. split; [exact Hx | right; exact Hl].
    + intros (l' & Hx & Hl). apply elem_of_cons in Hl as [->|Hl]; eauto.
Qed.

Lemma pick_arrangement_pair (K : Kernels) {A} (xs ys : list A) :
  arrangement_contract K ->
  pick (xs ++ ys) (concat_arrangement [length xs; length ys]) ≡ₚ xs ++ ys.
Proof.
  intros Harr. apply pick_Permutation. unfold arrangement_contract in Harr.
  rewrite Harr, length_app. simpl. rewrite Nat.add_0_r. reflexivity.
Qed.

(** What the loop has gathered is a rearrangement of the elements of all
    the arrays met so far, and is of the class and dtype it started with. *)
Lemma Index_merge_all_loop_data (K : Kernels) (self : Index) (others : list Index)
    (idx idx' : akarray) :
  arrangement_contract K ->
  Index_rest.merge_all_loop self (VIdx ∘ AnIndex <$> others) idx = Ok idx' ->
  ak_data idx' ≡ₚ ak_data idx ++ concat (idx_elems <$> others)
  ∧ ak_class idx' = ak_class idx ∧ ak_dtype idx' = ak_dtype idx.
Proof.
  intros Harr. revert idx. induction others as [|o others IH]; intros idx.
  - simpl. intros [= <-]. rewrite app_nil_r. auto.
  - rewrite fmap_cons. cbn [compose]. rewrite Index_merge_all_loop_cons.
    rewrite generic_concat_pair.
    destruct (decide _) as [Hc|]; [|discriminate].
    destruct (decide _) as [Hd|]; [|discriminate].
    rewrite result_bind_Ok. intros Hloop. apply IH in Hloop as (Hp & Hcl & Hdt).
    simpl in Hp, Hcl, Hdt. split; [|auto].
    rewrite Hp. rewrite fmap_cons. cbn [concat].
    rewrite (pick_arrangement_pair K _ _ Harr), <- app_assoc. reflexivity.
Qed.

Lemma Index_merge_all_loop_returns (K : Kernels) (self : Index) (others : list Index)
    (idx : akarray) :
  Forall (fun o => ak_class (idx_values o) = ak_class idx
                   ∧ ak_dtype (idx_values o) = ak_dtype idx) others ->
  exists idx', Index_rest.merge_all_loop self (VIdx ∘ AnIndex <$> others) idx = Ok idx'.
Proof.
  revert idx. induction others as [|o others IH]; intros idx Hall.
  - eexists. reflexivity.
  - apply Forall_cons in Hall as [[Hc Hd] Hall].
    rewrite fmap_cons. cbn [compose]. rewrite Index_merge_all_loop_cons.
    rewrite generic_concat_pair.
    rewrite (decide_True _ _ (eq_sym Hc)), (decide_True _ _ Hd), result_bind_Ok.
    apply IH. exact Hall.
Qed.

(** X4.  Under the contracts of the engine, what [Index._merge_all]
    returns holds each element of the index and of the others exactly
    once, with [size] the number of these elements; it returns whenever
    all arrays are of one class and dtype; and with a single other index
    it is [_merge]. *)
Theorem Index_merge_all_union (K : Kernels) (self : Index) (others : list Index) :
  arrangement_contract K -> unique_contract K ->
  (forall r,
     Index_rest._merge_all self (VIdx ∘ AnIndex <$> others) = Ok r ->
     NoDup (idx_elems r)
     ∧ (forall x, x ∈ idx_elems r
                  <-> x ∈ idx_elems self ∨ exists o, o ∈ others ∧ x ∈ idx_elems o)
     ∧ Index_wf r)
  ∧ (Forall (fun o => ak_class (idx_values o) = ak_class (idx_values self)
                      ∧ ak_dtype (idx_values o) = ak_dtype (idx_values self)) others ->
     exists r, Index_rest._merge_all self (VIdx ∘ AnIndex <$> others) = Ok r)
  ∧ (forall other, Index_rest._merge_all self [other] = Index._merge self other).
Proof.
  intros Harr Huniq. split; [|split].
  - intros r Hr. unfold Index_rest._merge_all in Hr.
    apply bind_Ok in Hr as (idx & Hloop & Hr). injection Hr as <-.
    apply (Index_merge_all_loop_data K) in Hloop as (Hp & _ & _); [|exact Harr].
    unfold idx_elems, Index_wf. cbn [idx_values idx_size].
    rewrite apply_callback_data. simpl.
    destruct (Huniq (ak_data idx)) as [Hnd Hel].
    split; [exact Hnd|]. split; [|reflexivity].
    intros x. rewrite Hel, Hp, elem_of_app. split.
    + intros [Hx|Hx]; [left; exact Hx|]. right.
      apply elem_of_concat in Hx as (l & Hx & Hl).
      apply list_elem_of_fmap in Hl as (o & -> & Ho). eauto.
    + intros [Hx|(o & Ho & Hx)]; [left; exact Hx|]. right.
      apply elem_of_concat. exists (idx_elems o). split; [exact Hx|].
      apply list_elem_of_fmap. eauto.
  - intros Hall. unfold Index_rest._merge_all.
    destruct (Index_merge_all_loop_returns K self others (idx_values self) Hall)
      as [idx Hidx].
    rewrite Hidx. eexists. reflexivity.
  - intros other. unfold Index_rest._merge_all, Index._merge.
    destruct other as [o|[o|m]|vals nm]; try reflexivity.
    simpl. destruct (util.generic_concat _ _); reflexivity.
Qed.

(** X4 at [sample_idx] merged with two copies of itself. *)
Lemma Index_merge_all_union_witness :
  exists r,
    @Index_rest._merge_all ref_kernels sample_idx
      (VIdx ∘ AnIndex <$> [sample_idx; sample_idx]) = Ok r
    ∧ NoDup (idx_elems r)
    ∧ (forall x, x ∈ idx_elems r
                 <-> x ∈ idx_elems sample_idx
                     ∨ exists o, o ∈ [sample_idx; sample_idx] ∧ x ∈ idx_elems o)
    ∧ Index_wf r.
Proof.
  destruct (Index_merge_all_union ref_kernels sample_idx [sample_idx; sample_idx]
              ref_arrangement_contract ref_unique_contract) as (Hel & Hret & _).
  destruct Hret as [r Hr]; [repeat constructor|].
  exists r. split; [exact Hr | apply Hel, Hr].
Defined.

(** X5.  [_merge] gives the merged values the semantic class of the
    receiver back: a Datetime, Timedelta or IPv4 index merges into one of
    the same class, a BitVector without a cast of its own into a BitVector
    of the same width and bit order, and a plain array, Strings or
    Categorical without a cast stays what it is. *)
Theorem Index_merge_restores_wrapper (K : Kernels) (a b r : Index) :
  Index._merge a (VIdx (AnIndex b)) = Ok r ->
  (ak_class (idx_values a) ∈ [Datetime; Timedelta; IPv4] ->
   ak_class (idx_values r) = ak_class (idx_values a))
  ∧ (cast_attr (idx_values a) = None -> ak_class (idx_values a) = BitVector ->
     ak_class (idx_values r) = BitVector
     ∧ bv_width (idx_values r) = bv_width (idx_values a)
     ∧ bv_reverse (idx_values r) = bv_reverse (idx_values a))
  ∧ (cast_attr (idx_values a) = None ->
     ak_class (idx_values a) ∈ [pdarray; Strings; Categorical] ->
     ak_class (idx_values r) = ak_class (idx_values a))
  ∧ idx_dtype r = ak_dtype (idx_values a).
Proof.
  rewrite Index_merge_unfold, generic_concat_pair.
  destruct (decide _); [|discriminate]. destruct (decide _); [|discriminate].
  simpl. intros [= <-]. cbn [idx_values idx_dtype].
  unfold util.get_callback.
  destruct (idx_values a) as [c nm d xs w rv cst]. cbn [ak_class cast_attr bv_width bv_reverse ak_dtype].
  split; [|split; [|split]].
  - intros Hc. rewrite bool_decide_eq_true_2 by exact Hc. reflexivity.
  - intros -> ->. repeat split.
  - intros -> Hc.
    repeat (apply elem_of_cons in Hc as [->|Hc]); try reflexivity. inversion Hc.
  - destruct (bool_decide _); [reflexivity|].
    destruct cst; [reflexivity|]. destruct (bool_decide _); reflexivity.
Qed.

(** X5 at a Datetime index over the values of [lvl0]. *)
Lemma Index_merge_restores_wrapper_witness :
  exists r,
    @Index._merge ref_kernels (mk_Index (with_class lvl0 Datetime) 3 akint64 None)
      (VIdx (AnIndex (mk_Index (with_class lvl0 Datetime) 3 akint64 None))) = Ok r
    ∧ ak_class (idx_values r) = Datetime.
Proof.
  eexists. split; [vm_compute; reflexivity|].
  refine (proj1 (Index_merge_restores_wrapper ref_kernels
                   (mk_Index (with_class lvl0 Datetime) 3 akint64 None)
                   (mk_Index (with_class lvl0 Datetime) 3 akint64 None) _ _) _).
  - vm_compute. reflexivity.
  - left.
Defined.

(** ** Alignment and equality *)

Lemma bool_sum_le (mask : list bool) : (bool_sum mask ≤ length mask)%nat.
Proof. unfold bool_sum. apply length_filter. Qed.

Lemma bool_sum_cons (b : bool) (mask : list bool) :
  bool_sum (b :: mask) = ((if b then 1 else 0) + bool_sum mask)%nat.
Proof.
  unfold bool_sum. destruct b.
  - rewrite filter_cons_True by reflexivity. reflexivity.
  - rewrite filter_cons_False by discriminate. reflexivity.
Qed.

(** A mask counts as many true entries as it is long exactly when all
    its entries are true. *)
Lemma bool_sum_all (mask : list bool) :
  bool_sum mask = length mask <-> Forall (fun b => b = true) mask.
Proof.
  induction mask as [|b mask IH].
  - split; [constructor | reflexivity].
  - rewrite bool_sum_cons. pose proof (bool_sum_le mask) as Hle. simpl. split.
    + intros Hs. destruct b; [|lia]. constructor; [reflexivity|]. apply IH. lia.
    + intros Hall. apply Forall_cons in Hall as [-> Hall].
      apply IH in Hall. lia.
Qed.

Lemma eq_mask_all {A} `{EqDecision A} (xs ys : list A) :
  length xs = length ys ->
  Forall (fun b => b = true) (zip_with (fun x y => bool_decide (x = y)) xs ys)
  <-> xs = ys.
Proof.
  revert ys. induction xs as [|x xs IH]; intros [|y ys]; try discriminate.
  - split; [reflexivity | constructor].
  - intros [= Hlen]. simpl. rewrite Forall_cons, (IH ys Hlen). split.
    + intros [Hxy ->]. apply bool_decide_eq_true in Hxy. congruence.
    + intros [= -> ->]. split; [apply bool_decide_eq_true_2|]; reflexivity.
Qed.

(** X6.  For two [Index] objects [_check_aligned] never raises and
    answers [True] exactly when both hold the same elements in the same
    order; when the lengths differ the elements are not compared. *)
Theorem Index_check_aligned_iff (a b : Index) :
  Index_rest._check_aligned (AnIndex a) (VIdx (AnIndex b))
    = Ok (bool_decide (idx_elems a = idx_elems b)).
Proof.
  unfold Index_rest._check_aligned. cbn [Index._check_types mbind result_bind
    Index_rest.len_of Index_rest.eq_of Index_rest.values_of Index_rest.__eq__].
  unfold Index_rest.__len__, ak_size. fold (idx_elems a) (idx_elems b).
  destruct (decide (length (idx_elems b) = length (idx_elems a))) as [Hlen|Hlen].
  - unfold binop_eq, ak_size. fold (idx_elems a) (idx_elems b).
    rewrite decide_False by (intros Hne; apply Hne; symmetry; exact Hlen).
    cbn [mbind result_bind]. f_equal. apply bool_decide_ext.
    rewrite <- (eq_mask_all _ _ (eq_sym Hlen)), <- bool_sum_all.
    rewrite length_zip_with, Hlen, Nat.min_id. reflexivity.
  - f_equal. symmetry. apply bool_decide_eq_false_2. intros Heq.
    apply Hlen. rewrite Heq. reflexivity.
Qed.


Lemma zip_with_andb_assoc (l1 l2 l3 : list bool) :
  zip_with andb (zip_with andb l1 l2) l3 = zip_with andb l1 (zip_with andb l2 l3).
Proof.
  revert l2 l3. induction l1 as [|x l1 IH]; intros [|y l2] [|z l3]; simpl;
    try reflexivity.
  rewrite IH, andb_assoc. reflexivity.
Qed.

Lemma zip_with_andb_true (n : nat) (mask : list bool) :
  (length mask ≤ n)%nat -> zip_with andb (replicate n true) mask = mask.
Proof.
  revert mask. induction n as [|n IH]; intros [|b mask] Hlen; simpl in *;
    try reflexivity; [lia|].
  rewrite IH by lia. reflexivity.
Qed.

Lemma row_mask_cons (da db : list scalar) (rs rs' : list (list scalar)) :
  zip_with row_eqb (zip_with cons da rs) (zip_with cons db rs')
    = zip_with andb (zip_with (fun x y => bool_decide (x = y)) da db)
                    (zip_with row_eqb rs rs').
Proof.
  revert db rs rs'.
  induction da as [|x da IH]; intros [|y db] [|r rs] [|r' rs']; simpl;
    try reflexivity.
  rewrite IH. f_equal.
  destruct (decide (x = y)) as [->|Hne].
  - rewrite (bool_decide_eq_true_2 (y = y)) by reflexivity. simpl.
    apply bool_decide_ext. split; [intros [= ->]; reflexivity | intros ->; reflexivity].
  - rewrite (bool_decide_eq_false_2 (x = y)) by exact Hne. simpl.
    apply bool_decide_eq_false_2. intros [= ? ?]. contradiction.
Qed.

Lemma row_mask_single (da db : list scalar) :
  zip_with row_eqb ((fun x => [x]) <$> da) ((fun x => [x]) <$> db)
    = zip_with (fun x y => bool_decide (x = y)) da db.
Proof.
  revert db. induction da as [|x da IH]; intros [|y db]; simpl; try reflexivity.
  rewrite <- IH. f_equal.
  apply bool_decide_ext. split; [intros [= ->]; reflexivity | intros ->; reflexivity].
Qed.

Lemma eq_loop_cons (a b : akarray) (rest : list (akarray * pyobj))
    (retval : list bool) :
  ak_size a = ak_size b -> length retval = ak_size a ->
  MultiIndex_rest.eq_loop ((a, PyArr b) :: rest) retval
    = MultiIndex_rest.eq_loop rest
        (zip_with andb retval
           (zip_with (fun x y => bool_decide (x = y)) (ak_data a) (ak_data b))).
Proof.
  intros Hab Hret. cbn [MultiIndex_rest.eq_loop]. unfold binop_eq.
  rewrite decide_False by (intros Hne; apply Hne; exact Hab).
  rewrite result_bind_Ok. unfold binop_and.
  rewrite decide_False; [reflexivity|].
  intros Hne. apply Hne. rewrite length_zip_with, Hret. unfold ak_size in *. lia.
Qed.

(** The loop of [MultiIndex.__eq__] over two tables of one width and one
    size: the mask it ends with tells which rows are equal. *)
Lemma eq_loop_rows (ls1 ls2 : list akarray) (n : nat) (retval : list bool) :
  length ls1 = length ls2 -> ls1 ≠ [] ->
  Forall (fun a => ak_size a = n) ls1 -> Forall (fun a => ak_size a = n) ls2 ->
  length retval = n ->
  MultiIndex_rest.eq_loop (zip ls1 (PyArr <$> ls2)) retval
    = Ok (zip_with andb retval
            (zip_with row_eqb (level_rows ls1) (level_rows ls2))).
Proof.
  intros Hlen Hne H1. revert ls2 retval Hlen Hne.
  induction H1 as [|a ls1 Ha H1 IH]; intros ls2 retval Hlen Hne H2 Hret;
    [congruence|].
  destruct H2 as [|b ls2 Hb H2]; [discriminate|]. injection Hlen as Hlen.
  change (zip (a :: ls1) (PyArr <$> b :: ls2))
    with ((a, PyArr b) :: zip ls1 (PyArr <$> ls2)).
  rewrite eq_loop_cons by congruence.
  destruct ls1 as [|a2 ls1], ls2 as [|b2 ls2]; try discriminate.
  - cbn [zip_with fmap list_fmap MultiIndex_rest.eq_loop].
    unfold level_rows. cbn [fmap list_fmap rows].
    change (list_fmap scalar (list scalar) (fun x => [x])) with (fmap (M:=list) (fun x : scalar => [x])).
    rewrite row_mask_single. reflexivity.
  - rewrite IH; [|exact Hlen|discriminate|exact H2|].
    + unfold level_rows. rewrite !fmap_cons, !rows_cons2.
      rewrite row_mask_cons, zip_with_andb_assoc. reflexivity.
    + rewrite !length_zip_with, Hret. unfold ak_size in Ha, Hb. lia.
Qed.

Lemma row_mask_length (ls1 ls2 : list akarray) (n : nat) :
  aligned ls1 n -> aligned ls2 n ->
  length (zip_with row_eqb (level_rows ls1) (level_rows ls2)) = n.
Proof.
  intros H1 H2.
  rewrite length_zip_with, (level_rows_length _ _ H1), (level_rows_length _ _ H2).
  apply Nat.min_id.
Qed.

Lemma MultiIndex_len_wf (m : MultiIndex) (n : nat) :
  aligned (mi_values m) n -> MultiIndex_rest.__len__ m = Ok n.
Proof.
  intros [Hne Hall]. unfold MultiIndex_rest.__len__, list_getitem.
  destruct Hall as [|a ls Ha _]; [congruence|]. simpl. rewrite Ha. reflexivity.
Qed.

(** Comparing with the levels of a table of the same width and size. *)
Lemma MultiIndex_eq_levels (a b : MultiIndex) (n : nat) :
  aligned (mi_values a) n -> aligned (mi_values b) n ->
  length (mi_values a) = length (mi_values b) ->
  MultiIndex_rest.__eq__ a (VObj (PyList (PyArr <$> mi_values b)))
    = Ok (zip_with row_eqb (mi_rows a) (mi_rows b)).
Proof.
  intros Ha Hb Hlen. cbn [MultiIndex_rest.__eq__].
  rewrite (MultiIndex_len_wf _ _ Ha), result_bind_Ok.
  rewrite (eq_loop_rows _ _ n);
    [|exact Hlen|apply Ha|apply Ha|apply Hb|apply length_replicate].
  f_equal. apply zip_with_andb_true. unfold mi_rows.
  rewrite (row_mask_length _ _ n Ha Hb). lia.
Qed.

(** X7.  [MultiIndex.__eq__] against a MultiIndex of the same width and
    size returns the mask whose entry [i] tells whether the rows at [i]
    are equal; against a scalar, [None] or an [Index] it raises a type
    error. *)
Theorem MultiIndex_eq_rows (a b : MultiIndex) (n : nat) :
  MultiIndex_wf a n -> MultiIndex_wf b n ->
  length (mi_values a) = length (mi_values b) ->
  MultiIndex_rest.__eq__ a (VIdx (AMultiIndex b))
    = Ok (zip_with row_eqb (mi_rows a) (mi_rows b))
  ∧ MultiIndex_rest.__eq__ a (VObj (PyList (PyArr <$> mi_values b)))
    = Ok (zip_with row_eqb (mi_rows a) (mi_rows b))
  ∧ (forall x, MultiIndex_rest.__eq__ a (VObj (PyScalar x)) = Raise TypeError)
  ∧ MultiIndex_rest.__eq__ a (VObj PyNone) = Raise TypeError
  ∧ (forall i, MultiIndex_rest.__eq__ a (VIdx (AnIndex i)) = Raise TypeError).
Proof.
  intros (Ha & _) (Hb & _) Hlen.
  pose proof (MultiIndex_eq_levels a b n Ha Hb Hlen) as Hloop.
  repeat split; exact Hloop.
Qed.

(** X7 at [sample_mi] compared with itself. *)
Lemma MultiIndex_eq_rows_witness :
  MultiIndex_rest.__eq__ sample_mi (VIdx (AMultiIndex sample_mi))
    = Ok (zip_with row_eqb (mi_rows sample_mi) (mi_rows sample_mi)).
Proof.
  apply (MultiIndex_eq_rows sample_mi sample_mi 3%nat sample_mi_wf sample_mi_wf).
  reflexivity.
Defined.

(** X8.  For two MultiIndex objects of the same width, [_check_aligned]
    answers [True] exactly when both hold the same rows in the same
    order. *)
Theorem MultiIndex_check_aligned_iff (a b : MultiIndex) (n n' : nat) :
  MultiIndex_wf a n -> MultiIndex_wf b n' ->
  length (mi_values a) = length (mi_values b) ->
  Index_rest._check_aligned (AMultiIndex a) (VIdx (AMultiIndex b))
    = Ok (bool_decide (mi_rows a = mi_rows b)).
Proof.
  intros Hwa Hwb Hlen. pose proof Hwa as (Ha & _). pose proof Hwb as (Hb & _).
  unfold Index_rest._check_aligned.
  cbn [Index._check_types]. rewrite result_bind_Ok.
  cbn [Index_rest.len_of Index_rest.eq_of Index_rest.values_of].
  rewrite (MultiIndex_len_wf _ _ Ha), result_bind_Ok.
  rewrite (MultiIndex_len_wf _ _ Hb), result_bind_Ok.
  destruct (decide (n' = n)) as [->|Hne].
  - rewrite (MultiIndex_eq_levels a b n Ha Hb Hlen).
    rewrite result_bind_Ok. f_equal. apply bool_decide_ext.
    unfold mi_rows.
    pose proof (row_mask_length _ _ n Ha Hb) as Hl.
    set (mask := zip_with row_eqb _ _) in *. rewrite <- Hl.
    rewrite bool_sum_all. subst mask. apply eq_mask_all.
    rewrite !(level_rows_length _ n); auto.
  - f_equal. symmetry. apply bool_decide_eq_false_2. intros Heq.
    apply Hne. rewrite <- (level_rows_length _ _ Ha), <- (level_rows_length _ _ Hb).
    unfold mi_rows in Heq. rewrite Heq. reflexivity.
Qed.

(** X8 at [sample_mi] against itself. *)
Lemma MultiIndex_check_aligned_iff_witness :
  Index_rest._check_aligned (AMultiIndex sample_mi) (VIdx (AMultiIndex sample_mi))
    = Ok (bool_decide (mi_rows sample_mi = mi_rows sample_mi)).
Proof.
  apply (MultiIndex_check_aligned_iff sample_mi sample_mi 3%nat 3%nat
           sample_mi_wf sample_mi_wf).
  reflexivity.
Defined.

Lemma zip_fmap_app_r {A B C} (f : B -> C) (l : list A) (k extra : list B) :
  length l = length k -> zip l (f <$> (k ++ extra)) = zip l (f <$> k).
Proof.
  revert k. induction l as [|x l IH]; intros [|y k] Hlen; try discriminate.
  - destruct extra; reflexivity.
  - injection Hlen as Hlen. csimpl. f_equal. apply IH, Hlen.
Qed.

Lemma row_mask_refl (rs : list (list scalar)) :
  zip_with row_eqb rs rs = replicate (length rs) true.
Proof.
  induction rs as [|r rs IH]; [reflexivity|]. simpl. rewrite IH. f_equal.
  apply bool_decide_eq_true_2. reflexivity.
Qed.

Lemma bool_sum_replicate_true (n : nat) : bool_sum (replicate n true) = n.
Proof.
  induction n as [|n IH]; [reflexivity|].
  change (replicate (S n) true) with (true :: replicate n true).
  rewrite bool_sum_cons, IH. reflexivity.
Qed.

(** X9.  [MultiIndex.__eq__] pairs the levels with [zip], which stops at
    the shorter side: an index whose levels are the first levels of a
    wider index of the same length is reported aligned with it, although
    (when there are rows at all) the two hold different rows. *)
Theorem MultiIndex_check_aligned_prefix (a b : MultiIndex) (n : nat)
    (extra : list akarray) :
  MultiIndex_wf a n -> MultiIndex_wf b n ->
  mi_values b = mi_values a ++ extra ->
  Index_rest._check_aligned (AMultiIndex a) (VIdx (AMultiIndex b)) = Ok true
  ∧ (extra ≠ [] -> (0 < n)%nat -> mi_rows a ≠ mi_rows b).
Proof.
  intros Hwa Hwb Hb. pose proof Hwa as (Ha & _). pose proof Hwb as (Hb' & _).
  split.
  - unfold Index_rest._check_aligned.
    cbn [Index._check_types]. rewrite result_bind_Ok.
    cbn [Index_rest.len_of Index_rest.eq_of Index_rest.values_of].
    rewrite (MultiIndex_len_wf _ _ Ha), result_bind_Ok.
    rewrite (MultiIndex_len_wf _ _ Hb'), result_bind_Ok.
    rewrite decide_True by reflexivity.
    cbn [MultiIndex_rest.__eq__].
    rewrite (MultiIndex_len_wf _ _ Ha), result_bind_Ok.
    rewrite Hb, zip_fmap_app_r by reflexivity.
    rewrite (eq_loop_rows _ _ n);
      [|reflexivity|apply Ha|apply Ha|apply Ha|apply length_replicate].
    rewrite result_bind_Ok. f_equal. apply bool_decide_eq_true_2.
    rewrite row_mask_refl, (level_rows_length _ _ Ha).
    rewrite zip_with_andb_true by (rewrite length_replicate; lia).
    apply bool_sum_replicate_true.
  - intros Hextra Hn Heq.
    pose proof (level_rows_length _ _ Ha) as Hlen. unfold mi_rows in Heq.
    destruct (level_rows (mi_values a)) as [|r rs] eqn:Hrows; [simpl in Hlen; lia|].
    assert (H1 : r ∈ level_rows (mi_values a)) by (rewrite Hrows; left).
    assert (H2 : r ∈ level_rows (mi_values b)) by (rewrite <- Heq; left).
    apply rows_width in H1, H2. rewrite length_fmap in H1, H2.
    rewrite Hb, length_app in H2.
    destruct extra; [congruence | simpl in H2; lia].
Qed.

(** X9 at [sample_mi] against the same two levels followed by a third. *)
Lemma MultiIndex_check_aligned_prefix_witness :
  Index_rest._check_aligned (AMultiIndex sample_mi)
    (VIdx (AMultiIndex (mk_MultiIndex [lvl0; lvl1; lvl0] (Some 3%nat) 3 None)))
    = Ok true
  ∧ mi_rows sample_mi ≠ mi_rows (mk_MultiIndex [lvl0; lvl1; lvl0] (Some 3%nat) 3 None).
Proof.
  destruct (MultiIndex_check_aligned_prefix sample_mi
              (mk_MultiIndex [lvl0; lvl1; lvl0] (Some 3%nat) 3 None) 3%nat [lvl0]
              sample_mi_wf) as [H1 H2].
  - repeat split; [discriminate | repeat constructor].
  - reflexivity.
  - split; [exact H1 | apply H2; [discriminate | lia]].
Defined.

(** ** Sorting one Index *)

Lemma scalar_le_refl (x : scalar) : scalar_le x x.
Proof. destruct (total scalar_le x x); assumption. Qed.

Lemma Sorted_fmap_inv {A B} (f : A -> B) (R : relation B) (R' : relation A)
    (P : A -> Prop) (l : list A) :
  (forall x y, P x -> P y -> R (f x) (f y) -> R' x y) ->
  Forall P l -> Sorted R (f <$> l) -> Sorted R' l.
Proof.
  intros HR Hall. induction Hall as [|x l Hx Hall IH]; [constructor|].
  rewrite fmap_cons. intros Hs. inversion Hs as [|? ? Htl Hhd]; subst.
  constructor; [apply IH, Htl|].
  destruct Hall as [|y l Hy Hall]; [constructor|].
  rewrite fmap_cons in Hhd. inversion Hhd; subst. constructor. apply HR; assumption.
Qed.

Lemma pick_elem {A} (xs : list A) (pos : list nat) (x : A) :
  x ∈ pick xs pos -> x ∈ xs.
Proof.
  unfold pick. rewrite list_elem_of_omap. intros (i & _ & Hi).
  eapply list_elem_of_lookup_2, Hi.
Qed.

Lemma pick_reverse {A} (xs : list A) (pos : list nat) :
  pick xs (reverse pos) = reverse (pick xs pos).
Proof.
  induction pos as [|i pos IH]; [reflexivity|].
  rewrite reverse_cons. unfold pick in *. rewrite omap_app, IH. csimpl.
  destruct (xs !! i); [rewrite reverse_cons|rewrite app_nil_r]; reflexivity.
Qed.

Lemma wrap64_small (z : Z) : - 2 ^ 63 ≤ z < 2 ^ 63 -> wrap64 z = z.
Proof. intros Hz. unfold wrap64. rewrite Z.mod_small; lia. Qed.

Lemma ref_sort_contract : argsort_contract ref_sort.
Proof.
  intros a. eexists. split; [reflexivity|].
  split; [rewrite merge_sort_Permutation; reflexivity|].
  rewrite to_nat_of_nat_fmap.
  apply (Sorted_fmap_inv (fun x => [x]) lex_le scalar_le (fun _ => True)).
  - intros x y _ _. simpl. destruct (decide (x = y)) as [->|_]; [|auto].
    intros _. apply scalar_le_refl.
  - apply Forall_forall. auto.
  - rewrite <- pick_fmap, (pick_default []).
    + apply (Sorted_fmap _ (row_le ((fun x => [x]) <$> ak_data a))); [auto|].
      apply Sorted_merge_sort, _.
    + rewrite merge_sort_Permutation, length_fmap.
      apply Forall_forall. intros i Hi. apply elem_of_seq in Hi.
      unfold ak_size in Hi. lia.
Qed.

(** X10.  [Index.argsort] with a sort that meets its contract returns a
    permutation of the positions that puts the elements in ascending
    order, or in descending order for [ascending=False].  On the numeric
    fast path, which sorts the negated values, this needs every element
    to be an integer whose negation is an int64; the generic path returns
    the ascending permutation reversed and needs nothing. *)
Theorem Index_argsort_sorted (S : SortKernel) (self : Index) (ascending : bool) :
  argsort_contract S -> Index_wf self ->
  (ascending = false ->
   isinstance_pdarray (PyArr (idx_values self)) = true ->
   idx_dtype self ∈ [akint64; akfloat64] ->
   Forall (fun x => exists z, x = SInt z ∧ - 2 ^ 63 < z < 2 ^ 63) (idx_elems self)) ->
  exists p,
    Index_rest.argsort self ascending = Ok p
    ∧ p ≡ₚ Z.of_nat <$> seq 0 (idx_size self)
    ∧ Sorted (if ascending then scalar_le else flip scalar_le)
             (pick (idx_elems self) (Z.to_nat <$> p))
    ∧ (ascending = false ->
       isinstance_pdarray (PyArr (idx_values self))
         && bool_decide (idx_dtype self ∈ [akint64; akfloat64]) = false ->
       exists q, argsort (idx_values self) = Ok q ∧ p = reverse q).
Proof.
  intros Hc Hwf Hfast. unfold Index_wf in Hwf. unfold Index_rest.argsort.
  destruct ascending; cbn [negb].
  - destruct (Hc (idx_values self)) as (p & Hp & Hperm & Hs).
    exists p. rewrite Hwf. repeat split; try assumption. discriminate.
  - destruct (isinstance_pdarray (PyArr (idx_values self))
              && bool_decide (idx_dtype self ∈ [akint64; akfloat64])) eqn:Hpath.
    + apply andb_true_iff in Hpath as [Hisa Hdt]. apply bool_decide_eq_true_1 in Hdt.
      specialize (Hfast eq_refl Hisa Hdt).
      destruct (Hc (negate (idx_values self))) as (p & Hp & Hperm & Hs).
      exists p. split; [exact Hp|].
      assert (Hsz : ak_size (negate (idx_values self)) = ak_size (idx_values self))
        by (unfold ak_size, negate; simpl; apply length_fmap).
      rewrite Hsz in Hperm. rewrite Hwf. split; [exact Hperm|].
      split; [|discriminate].
      unfold negate in Hs. cbn [ak_data] in Hs. rewrite pick_fmap in Hs.
      eapply (Sorted_fmap_inv _ scalar_le (flip scalar_le)
                (fun x => exists z, x = SInt z ∧ - 2 ^ 63 < z < 2 ^ 63));
        [| |exact Hs].
      * intros x y (z & -> & Hz) (w & -> & Hw). simpl.
        rewrite !wrap64_small by lia. unfold flip. simpl. lia.
      * apply Forall_forall. intros x Hx. apply pick_elem in Hx.
        rewrite Forall_forall in Hfast. apply Hfast, Hx.
    + destruct (Hc (idx_values self)) as (p & Hp & Hperm & Hs).
      destruct (positions_in_range p _ Hperm) as [Hlen _].
      exists (reverse p). rewrite Hp, result_bind_Ok.
      rewrite Hwf, arange_countdown, <- Hlen.
      split; [apply gather_reverse|].
      split; [rewrite reverse_Permutation, Hlen; exact Hperm|].
      split; [|intros _ _; exists p; split; reflexivity].
      rewrite fmap_reverse, pick_reverse. apply Sorted_reverse, Hs.
Qed.

(** X10 at [sample_idx], whose elements are 0, 1 and 2, sorted in
    descending order by the reference sort. *)
Lemma Index_argsort_sorted_witness :
  exists p,
    @Index_rest.argsort ref_sort sample_idx false = Ok p
    ∧ p ≡ₚ Z.of_nat <$> seq 0 (idx_size sample_idx)
    ∧ Sorted (flip scalar_le) (pick (idx_elems sample_idx) (Z.to_nat <$> p))
    ∧ (false = false ->
       isinstance_pdarray (PyArr (idx_values sample_idx))
         && bool_decide (idx_dtype sample_idx ∈ [akint64; akfloat64]) = false ->
       exists q, @argsort ref_sort (idx_values sample_idx) = Ok q ∧ p = reverse q).
Proof.
  apply (Index_argsort_sorted ref_sort sample_idx false ref_sort_contract).
  - reflexivity.
  - intros _ _ _. repeat constructor; eexists; (split; [reflexivity | lia]).
Defined.

(** ** [to_dict] *)

Lemma dict_get_set_eq {K V} `{EqDecision K} (k : K) (v : V) (d : list (K * V)) :
  dict_get k (dict_set k v d) = Some v.
Proof.
  induction d as [|[k' v'] d IH]; simpl.
  - rewrite decide_True; reflexivity.
  - destruct (decide (k' = k)) as [->|Hne]; simpl.
    + rewrite decide_True; reflexivity.
    + rewrite decide_False by exact Hne. exact IH.
Qed.

Lemma dict_get_set_ne {K V} `{EqDecision K} (k k' : K) (v : V) (d : list (K * V)) :
  k ≠ k' -> dict_get k' (dict_set k v d) = dict_get k' d.
Proof.
  intros Hne. induction d as [|[k0 v0] d IH]; simpl.
  - rewrite decide_False by exact Hne. reflexivity.
  - destruct (decide (k0 = k)) as [->|Hne0]; simpl.
    + rewrite !decide_False by exact Hne. reflexivity.
    + destruct (decide (k0 = k')); [reflexivity | exact IH].
Qed.

Lemma imap_pair_zip {A} (off : nat) (vs : list A) :
  imap (fun i x => ((off + i)%nat, x)) vs = zip (seq off (length vs)) vs.
Proof.
  revert off. induction vs as [|v vs IH]; intros off; [reflexivity|].
  simpl. rewrite Nat.add_0_r. f_equal. rewrite <- IH.
  apply imap_ext. intros i x _. simpl. f_equal. lia.
Qed.

(** The loop of [MultiIndex.to_dict] over the levels numbered from [off]:
    with a label for every level it ends, and each label then reads the
    last level stored under it. *)
Lemma to_dict_loop_reads (labels : list string) (vs : list akarray) (off : nat)
    (data : list (string * akarray)) :
  (off + length vs ≤ length labels)%nat ->
  exists d,
    MultiIndex_rest.to_dict_loop labels (zip (seq off (length vs)) vs) data = Ok d
    ∧ (forall i label v,
         vs !! i = Some v -> labels !! (off + i)%nat = Some label ->
         (forall j, (i < j < length vs)%nat -> labels !! (off + j)%nat ≠ Some label) ->
         dict_get label d = Some v)
    ∧ (forall key,
         (forall j, (j < length vs)%nat -> labels !! (off + j)%nat ≠ Some key) ->
         dict_get key d = dict_get key data).
Proof.
  revert off data. induction vs as [|v vs IH]; intros off data Hlen.
  - exists data. split; [reflexivity|]. split; [intros i ? ? Hi; discriminate|].
    reflexivity.
  - simpl in Hlen. destruct (lookup_lt_is_Some_2 labels off) as [l0 Hl0]; [lia|].
    destruct (IH (S off) (dict_set l0 v data)) as (d & Hd & Hread & Hkeep); [lia|].
    exists d. split; [|split].
    + cbn [length seq zip zip_with MultiIndex_rest.to_dict_loop].
      unfold list_getitem. rewrite Hl0, result_bind_Ok. exact Hd.
    + intros [|i] label w Hw Hlabel Hlast.
      * injection Hw as <-. rewrite Nat.add_0_r, Hl0 in Hlabel. injection Hlabel as <-.
        rewrite Hkeep; [apply dict_get_set_eq|].
        intros j Hj. replace (S off + j)%nat with (off + S j)%nat by lia.
        apply Hlast. simpl. lia.
      * apply (Hread i); [exact Hw| |].
        -- replace (S off + i)%nat with (off + S i)%nat by lia. exact Hlabel.
        -- intros j Hj. replace (S off + j)%nat with (off + S j)%nat by lia.
           apply Hlast. simpl. lia.
    + intros key Hkey. rewrite Hkeep.
      * apply dict_get_set_ne. intros ->. apply (Hkey 0%nat); [simpl; lia|].
        rewrite Nat.add_0_r. exact Hl0.
      * intros j Hj. replace (S off + j)%nat with (off + S j)%nat by lia.
        apply Hkey. simpl. lia.
Qed.

Lemma to_dict_loop_short (labels : list string) (vs : list akarray) (off : nat)
    (data : list (string * akarray)) :
  (length labels < off + length vs)%nat -> vs ≠ [] ->
  MultiIndex_rest.to_dict_loop labels (zip (seq off (length vs)) vs) data
    = Raise IndexError.
Proof.
  revert off data. induction vs as [|v vs IH]; intros off data Hlen Hne;
    [congruence|].
  cbn [length seq zip zip_with MultiIndex_rest.to_dict_loop]. unfold list_getitem.
  destruct (labels !! off) as [l0|] eqn:Hl0; [|reflexivity].
  rewrite result_bind_Ok. apply lookup_lt_Some in Hl0. simpl in Hlen.
  apply IH; [lia|]. intros ->. simpl in Hlen. lia.
Qed.

Lemma MultiIndex_to_dict_unfold (m : MultiIndex) (l : list string) :
  MultiIndex_rest.to_dict m (Some l)
    = MultiIndex_rest.to_dict_loop l
        (zip (seq 0 (length (mi_values m))) (mi_values m)) [].
Proof.
  unfold MultiIndex_rest.to_dict. rewrite <- imap_pair_zip. reflexivity.
Qed.

(** X11.  [MultiIndex.to_dict(labels)] with a list that names every level
    returns a dict in which a label reads the last level stored under it
    (so each level, when the labels used are distinct); with fewer labels
    than levels it raises an index error. *)
Theorem MultiIndex_to_dict_labels (m : MultiIndex) (l : list string) :
  ((length (mi_values m) ≤ length l)%nat ->
   exists d,
     MultiIndex_rest.to_dict m (Some l) = Ok d
     ∧ forall i label v,
         mi_values m !! i = Some v -> l !! i = Some label ->
         (forall j, (i < j < length (mi_values m))%nat -> l !! j ≠ Some label) ->
         dict_get label d = Some v)
  ∧ ((length l < length (mi_values m))%nat ->
     MultiIndex_rest.to_dict m (Some l) = Raise IndexError).
Proof.
  rewrite MultiIndex_to_dict_unfold. split.
  - intros Hlen.
    destruct (to_dict_loop_reads l (mi_values m) 0 []) as (d & Hd & Hread & _);
      [simpl; lia|].
    exists d. split; [exact Hd|]. intros i label v Hv Hl Hlast.
    apply (Hread i label v Hv Hl Hlast).
  - intros Hlen. apply to_dict_loop_short; [simpl; lia|].
    intros Hnil. rewrite Hnil in Hlen. simpl in Hlen. lia.
Qed.

(** X11 at [sample_mi]: two labels for its two levels, then one label. *)
Lemma MultiIndex_to_dict_labels_witness :
  (exists d, MultiIndex_rest.to_dict sample_mi (Some ["a"; "b"]) = Ok d
             ∧ dict_get "b" d = Some lvl1)
  ∧ MultiIndex_rest.to_dict sample_mi (Some ["a"]) = Raise IndexError.
Proof.
  destruct (MultiIndex_to_dict_labels sample_mi ["a"; "b"]) as [H _].
  destruct H as (d & Hd & Hread); [simpl; lia|].
  destruct (MultiIndex_to_dict_labels sample_mi ["a"]) as [_ Hshort].
  split.
  - exists d. split; [exact Hd|].
    apply (Hread 1%nat "b" lvl1); [reflexivity | reflexivity|].
    intros j Hj. simpl in Hj. lia.
  - apply Hshort. simpl. lia.
Defined.

(** X12.  [MultiIndex.to_dict(None)] always returns, and level [i] is
    read under the key [idx_i]. *)
Theorem MultiIndex_to_dict_default (m : MultiIndex) :
  exists d,
    MultiIndex_rest.to_dict m None = Ok d
    ∧ forall i v, mi_values m !! i = Some v ->
                  dict_get ("idx_" +:+ pretty i) d = Some v.
Proof.
  set (l := (fun i : nat => "idx_" +:+ pretty i) <$> seq 0 (length (mi_values m))).
  assert (Hl : forall j, (j < length (mi_values m))%nat ->
                         l !! j = Some ("idx_" +:+ pretty j)).
  { intros j Hj. unfold l. rewrite list_lookup_fmap, lookup_seq_lt by exact Hj.
    reflexivity. }
  destruct (to_dict_loop_reads l (mi_values m) 0 []) as (d & Hd & Hread & _).
  { unfold l. rewrite length_fmap, length_seq. reflexivity. }
  exists d. split.
  { unfold MultiIndex_rest.to_dict. fold l.
    rewrite <- (imap_pair_zip 0) in Hd. exact Hd. }
  intros i v Hv.
  apply (Hread i); [exact Hv | apply Hl; eapply lookup_lt_Some, Hv|].
  intros j Hj. change (0 + j)%nat with j. rewrite Hl by lia. intros Heq.
  injection Heq as Heq. change (pretty j = pretty i) in Heq.
  apply (inj pretty) in Heq. lia.
Qed.

(** X12 at [sample_mi]: its second level is read under [idx_1]. *)
Lemma MultiIndex_to_dict_default_witness :
  exists d, MultiIndex_rest.to_dict sample_mi None = Ok d
            ∧ dict_get "idx_1" d = Some lvl1.
Proof.
  destruct (MultiIndex_to_dict_default sample_mi) as (d & Hd & Hread).
  exists d. split; [exact Hd|]. exact (Hread 1%nat lvl1 eq_refl).
Defined.

(** X13.  [Index.to_dict] and [MultiIndex.to_dict] on the same single
    array: with a list of one or more labels both file the array under
    the first label and ignore the rest, with an empty list both raise an
    index error, but with [None] the Index uses the key [idx] and the
    MultiIndex the key [idx_0]; a plain string is a label for the Index. *)
Theorem Index_to_dict_key (self : Index) (m : MultiIndex) :
  mi_values m = [idx_values self] ->
  Index_rest.to_dict self LNone = Ok [("idx", idx_values self)]
  ∧ MultiIndex_rest.to_dict m None = Ok [("idx_0", idx_values self)]
  ∧ (forall s, Index_rest.to_dict self (LStr s) = Ok [(s, idx_values self)])
  ∧ (forall s rest,
       Index_rest.to_dict self (LList (s :: rest)) = Ok [(s, idx_values self)]
       ∧ MultiIndex_rest.to_dict m (Some (s :: rest)) = Ok [(s, idx_values self)])
  ∧ Index_rest.to_dict self (LList []) = Raise IndexError
  ∧ MultiIndex_rest.to_dict m (Some []) = Raise IndexError.
Proof.
  intros Hm. unfold MultiIndex_rest.to_dict. rewrite Hm. repeat split.
Qed.

(** X13 at [sample_idx] and the MultiIndex of its one array. *)
Lemma Index_to_dict_key_witness :
  Index_rest.to_dict sample_idx LNone = Ok [("idx", lvl0)]
  ∧ MultiIndex_rest.to_dict (mk_MultiIndex [lvl0] (Some 3%nat) 1 None) None
    = Ok [("idx_0", lvl0)].
Proof.
  destruct (Index_to_dict_key sample_idx (mk_MultiIndex [lvl0] (Some 3%nat) 1 None))
    as (H1 & H2 & _); [reflexivity|].
  split; [exact H1 | exact H2].
Defined.

(** ** Registration of a sequence of handles *)

Lemma append_inj_l (s x y : string) : s +:+ x = s +:+ y -> x = y.
Proof. induction s as [|c s IH]; simpl; [auto|]. intros [= H]. apply IH, H. Qed.

Lemma st_rename_names_in (n old new : string) (srv : server) :
  n ∈ list_symbol_table (st_rename old new srv) ->
  n = new ∨ n ∈ list_symbol_table srv.
Proof.
  unfold list_symbol_table. induction srv as [|[k e] srv IH]; simpl; [auto|].
  destruct (decide (k = old)); csimpl; rewrite !elem_of_cons; intros [->|Hin]; auto.
  destruct (IH Hin); auto.
Qed.

Lemma st_rename_names_keep (n old new : string) (srv : server) :
  n ∈ list_symbol_table srv -> n ≠ old ->
  n ∈ list_symbol_table (st_rename old new srv).
Proof.
  unfold list_symbol_table. rewrite !list_elem_of_fmap.
  intros ([k e] & -> & Hin) Hne. exists (k, e). split; [reflexivity|].
  apply st_rename_elem; assumption.
Qed.

Lemma server_register_fresh (old new : string) (srv : server) :
  old ∈ list_symbol_table srv -> new ∉ list_symbol_table srv ->
  server_register old new srv = Ok (st_rename old new srv).
Proof.
  intros Hold Hnew. unfold server_register.
  destruct (st_lookup old srv) as [e|] eqn:Ho.
  - rewrite decide_False by (intros ->; contradiction).
    apply st_lookup_None_names in Hnew. rewrite Hnew. reflexivity.
  - apply st_lookup_None_names in Ho. contradiction.
Qed.

Lemma util_register_Ok (a : akarray) (name : string) (srv srv' : server) :
  ak_class a ≠ Categorical ->
  server_register (ak_name a) name srv = Ok srv' ->
  util.register a name srv = Ok (with_name a name, srv').
Proof.
  intros Hc Hs. unfold util.register.
  rewrite !(handle_register_plain _ _ _ Hc). unfold pdarray_register. rewrite Hs.
  destruct (bool_decide _); reflexivity.
Qed.

(** Registering the handles [vs] one after the other, the one at
    position [i] under the name [name_of (off + i)]: with distinct
    handles known to the server and names that are new to it, every
    registration is accepted. *)
Lemma register_positions (name_of : nat -> string) (vs : list akarray)
    (off : nat) (srv : server) :
  Inj (=) (=) name_of ->
  Forall (fun a => ak_class a ≠ Categorical) vs ->
  NoDup (ak_name <$> vs) ->
  Forall (fun a => ak_name a ∈ list_symbol_table srv) vs ->
  (forall i, (off ≤ i < off + length vs)%nat -> name_of i ∉ list_symbol_table srv) ->
  exists srv',
    mapM_server (fun (iv : nat * akarray) s => util.register iv.2 (name_of iv.1) s)
                (zip (seq off (length vs)) vs) srv
      = Ok (zip_with (fun i a => with_name a (name_of i)) (seq off (length vs)) vs,
            srv')
    ∧ (forall i, (off ≤ i < off + length vs)%nat -> name_of i ∈ list_registry srv')
    ∧ (forall n, n ∈ list_registry srv -> n ∉ ak_name <$> vs ->
                 n ∈ list_registry srv').
Proof.
  intros Hinj Hcls. revert off srv.
  induction Hcls as [|a vs Hc Hcls IH]; intros off srv Hnd Hin Hfresh.
  - exists srv. split; [reflexivity|]. split; [simpl; intros; lia | auto].
  - rewrite fmap_cons in Hnd. apply NoDup_cons in Hnd as [Ha Hnd].
    apply Forall_cons in Hin as [Hain Hin].
    assert (Hs : server_register (ak_name a) (name_of off) srv
                 = Ok (st_rename (ak_name a) (name_of off) srv)).
    { apply server_register_fresh; [exact Hain|]. apply Hfresh. simpl. lia. }
    destruct (IH (S off) (st_rename (ak_name a) (name_of off) srv) Hnd)
      as (srv' & Hmap & Hreg & Hkeep).
    { eapply Forall_impl with (P := fun b => b ∈ vs ∧ ak_name b ∈ list_symbol_table srv).
      - apply Forall_forall. intros b Hb. split; [exact Hb|].
        rewrite Forall_forall in Hin. apply Hin, Hb.
      - intros b [Hb Hbin]. apply st_rename_names_keep; [exact Hbin|].
        intros Heq. apply Ha. rewrite <- Heq. apply list_elem_of_fmap. eauto. }
    { intros i Hi Hn. apply st_rename_names_in in Hn as [Heq|Hn].
      - apply Hinj in Heq. lia.
      - apply (Hfresh i); [simpl; lia | exact Hn]. }
    exists srv'. split; [|split].
    + cbn [length seq zip zip_with mapM_server]. cbn [fst snd].
      rewrite (util_register_Ok _ _ _ _ Hc Hs), result_bind_Ok.
      change (zip_with pair (seq (S off) (length vs)) vs)
        with (zip (seq (S off) (length vs)) vs).
      rewrite Hmap. reflexivity.
    + intros i Hi. destruct (decide (i = off)) as [->|Hne].
      * apply Hkeep; [eapply server_register_registered, Hs|].
        intros Hn. apply list_elem_of_fmap in Hn as (b & Heq & Hb).
        rewrite Forall_forall in Hin. apply (Hfresh off); [simpl; lia|].
        rewrite Heq. apply Hin, Hb.
      * apply Hreg. simpl in Hi. lia.
    + intros n Hn Hnot. apply Hkeep.
      * eapply server_register_keeps; [exact Hs | exact Hn|].
        intros Heq. apply Hnot. rewrite fmap_cons, <- Heq. left.
      * intros Hn'. apply Hnot. rewrite fmap_cons. right. exact Hn'.
Qed.

Lemma zip_with_seq_imap {A B} (f : nat -> A -> B) (vs : list A) :
  zip_with f (seq 0 (length vs)) vs = imap f vs.
Proof.
  assert (H : forall off, zip_with f (seq off (length vs)) vs
                          = imap (fun i => f (off + i)%nat) vs).
  { induction vs as [|v vs IH]; intros off; [reflexivity|]. simpl.
    rewrite Nat.add_0_r. f_equal. rewrite IH. apply imap_ext.
    intros i x _. simpl. f_equal. lia. }
  apply H.
Qed.

(** X14.  [MultiIndex.register(label)] on distinct levels known to the
    server, each a [pdarray] or of one of its subclasses, with none of
    the names [<label>_key_<i>] in the symbol table yet, returns the
    number of levels, leaves level [i] renamed [<label>_key_<i>], has all
    these names in the registry afterwards and keeps registered whatever
    was and is not one of the levels. *)
Theorem MultiIndex_register_levels (m : MultiIndex) (label : string) (srv : server) :
  Forall (fun a => isinstance_pdarray (PyArr a) = true) (mi_values m) ->
  NoDup (ak_name <$> mi_values m) ->
  Forall (fun a => ak_name a ∈ list_symbol_table srv) (mi_values m) ->
  (forall i, (i < length (mi_values m))%nat ->
             label +:+ "_key_" +:+ pretty i ∉ list_symbol_table srv) ->
  exists m' srv',
    MultiIndex.register m label srv
      = Ok (m', Z.of_nat (length (mi_values m)), srv')
    ∧ mi_values m'
        = imap (fun i a => with_name a (label +:+ "_key_" +:+ pretty i)) (mi_values m)
    ∧ (forall i, (i < length (mi_values m))%nat ->
                 label +:+ "_key_" +:+ pretty i ∈ list_registry srv')
    ∧ (forall n, n ∈ list_registry srv -> n ∉ ak_name <$> mi_values m ->
                 n ∈ list_registry srv').
Proof.
  intros Hcls Hnd Hin Hfresh.
  destruct (register_positions (fun i => label +:+ "_key_" +:+ pretty i)
              (mi_values m) 0 srv) as (srv' & Hmap & Hreg & Hkeep); auto.
  { intros i j Heq. apply append_inj_l in Heq. injection Heq as Heq.
    repeat (injection Heq as Heq). apply (inj pretty), Heq. }
  { eapply Forall_impl; [exact Hcls|]. intros a Ha.
    apply isinstance_pdarray_class in Ha as [Ha _]. exact Ha. }
  { intros i Hi. apply Hfresh. simpl in Hi. lia. }
  do 2 eexists. split; [|split; [|split]].
  - unfold MultiIndex.register. rewrite <- (imap_pair_zip 0) in Hmap.
    unfold MultiIndex.register_level.
    change (imap pair (mi_values m))
      with (imap (fun i x => ((0 + i)%nat, x)) (mi_values m)).
    rewrite Hmap, result_bind_Ok. reflexivity.
  - simpl. apply zip_with_seq_imap.
  - intros i Hi. apply Hreg. simpl. lia.
  - exact Hkeep.
Qed.

(** X14 at [sample_mi], registered as [mi] on the server that holds its
    two levels. *)
Lemma MultiIndex_register_levels_witness :
  exists m' srv',
    MultiIndex.register sample_mi "mi" sample_srv = Ok (m', 2, srv')
    ∧ mi_values m' = [with_name lvl0 "mi_key_0"; with_name lvl1 "mi_key_1"]
    ∧ "mi_key_1" ∈ list_registry srv'.
Proof.
  destruct (MultiIndex_register_levels sample_mi "mi" sample_srv)
    as (m' & srv' & Hr & Hv & Hreg & _).
  - repeat constructor.
  - apply (bool_decide_unpack _). vm_compute. exact I.
  - apply (bool_decide_unpack _). vm_compute. exact I.
  - intros [|[|i]] Hi; [| |simpl in Hi; lia];
      apply (bool_decide_unpack _); vm_compute; exact I.
  - exists m', srv'. split; [exact Hr|]. split; [exact Hv|].
    apply (Hreg 1%nat). simpl. lia.
Defined.

(** ** [attach], [attach_all] and [unregister_all] *)

Lemma attach_Ok (k : string) (srv : server) (e : symbol) :
  st_lookup k srv = Some e -> util.attach k srv = Ok (attached (sym_obj e) k).
Proof.
  intros He. unfold util.attach, genericAttach, attached. rewrite He.
  rewrite result_bind_Ok. cbn.
  destruct (decide (ak_dtype (sym_obj e) = akstr)); reflexivity.
Qed.

(** A handle that [attach] returns and that is no [Categorical] is the
    handle of a name of the symbol table. *)
Lemma attach_inv (k : string) (srv : server) (h : akarray) :
  util.attach k srv = Ok h -> ak_class h ≠ Categorical ->
  exists e, st_lookup k srv = Some e ∧ h = attached (sym_obj e) k.
Proof.
  intros Hat Hc. destruct (st_lookup k srv) as [e|] eqn:He.
  - rewrite (attach_Ok _ _ _ He) in Hat. injection Hat as <-. eauto.
  - exfalso. unfold util.attach, genericAttach in Hat. rewrite He in Hat.
    destruct (st_lookup (k +:+ ".codes") srv); [|discriminate].
    destruct (st_lookup (k +:+ ".categories") srv); [|discriminate].
    cbn in Hat. injection Hat as <-. apply Hc. reflexivity.
Qed.

Lemma names_lookup (k : string) (srv : server) :
  k ∈ list_symbol_table srv <-> exists e, st_lookup k srv = Some e.
Proof.
  split.
  - intros Hin. destruct (st_lookup k srv) as [e|] eqn:He; [eauto|].
    apply st_lookup_None_names in He. contradiction.
  - intros [e He]. apply st_lookup_Some_elem in He.
    unfold list_symbol_table. apply list_elem_of_fmap. exists (k, e). auto.
Qed.

Lemma foldl_Raise {A B} (f : result A -> B -> result A) (e : py_error) (l : list B) :
  (forall x, f (Raise e) x = Raise e) -> foldl f (Raise e) l = Raise e.
Proof. intros Hf. induction l as [|x l IH]; simpl; [reflexivity|]. rewrite Hf. exact IH. Qed.

Lemma elem_of_dict_set {K V} `{EqDecision K} (k k' : K) (v v' : V) (d : list (K * V)) :
  (k', v') ∈ dict_set k v d -> (k', v') = (k, v) ∨ (k', v') ∈ d.
Proof.
  induction d as [|[k0 v0] d IH]; simpl.
  - intros ->%list_elem_of_singleton. auto.
  - destruct (decide (k0 = k)); rewrite !elem_of_cons; intros [Heq|Hin]; auto.
    destruct (IH Hin); auto.
Qed.

(** The loop of [attach_all] from the dict [d0] over matches that are
    names of the symbol table. *)
Lemma attach_all_loop (n : nat) (srv : server) (res : list string)
    (d0 : list (string * akarray)) :
  Forall (fun k => k ∈ list_symbol_table srv) res ->
  exists att,
    foldl (fun (acc : result (list (string * akarray))) k =>
             d ← acc; h ← util.attach k srv; Ok (dict_set (str_drop n k) h d))
          (Ok d0) res = Ok att
    ∧ (forall key h, (key, h) ∈ att ->
         (key, h) ∈ d0
         ∨ exists k e, k ∈ res ∧ key = str_drop n k
                       ∧ st_lookup k srv = Some e ∧ h = attached (sym_obj e) k)
    ∧ (forall key, is_Some (dict_get key d0) ∨ key ∈ str_drop n <$> res ->
                   is_Some (dict_get key att)).
Proof.
  revert d0. induction res as [|k res IH]; intros d0 Hall.
  - exists d0. split; [reflexivity|]. split; [auto|].
    intros key [Hk|Hk]; [exact Hk | inversion Hk].
  - apply Forall_cons in Hall as [Hk Hall]. apply names_lookup in Hk as [e He].
    destruct (IH (dict_set (str_drop n k) (attached (sym_obj e) k) d0) Hall)
      as (att & Hatt & Hshape & Hkeys).
    exists att. split; [|split].
    + cbn [foldl]. rewrite result_bind_Ok, (attach_Ok _ _ _ He), result_bind_Ok.
      exact Hatt.
    + intros key h Hin. destruct (Hshape key h Hin) as [Hd|(k' & e' & Hk' & Hrest)].
      * apply elem_of_dict_set in Hd as [[= -> ->]|Hd]; [|auto].
        right. exists k, e. split; [left | auto].
      * right. exists k', e'. split; [right; exact Hk' | exact Hrest].
    + intros key Hkey. apply Hkeys.
      destruct (decide (str_drop n k = key)) as [<-|Hne].
      * left. rewrite dict_get_set_eq. eauto.
      * destruct Hkey as [Hd|Hk].
        -- left. rewrite dict_get_set_ne by exact Hne. exact Hd.
        -- rewrite fmap_cons in Hk. apply elem_of_cons in Hk as [Hk|Hk];
             [congruence | auto].
Qed.

(** The first match on which [attach] fails ends the loop with its
    error. *)
Lemma attach_all_loop_raise (n : nat) (srv : server) (pre post : list string)
    (k : string) (e : py_error) (d0 : list (string * akarray)) :
  Forall (fun k => k ∈ list_symbol_table srv) pre ->
  util.attach k srv = Raise e ->
  foldl (fun (acc : result (list (string * akarray))) k =>
           d ← acc; h ← util.attach k srv; Ok (dict_set (str_drop n k) h d))
        (Ok d0) (pre ++ k :: post) = Raise e.
Proof.
  intros Hpre Hk. rewrite foldl_app.
  destruct (attach_all_loop n srv pre d0 Hpre) as (att & -> & _).
  cbn [foldl]. rewrite result_bind_Ok, Hk. apply foldl_Raise. reflexivity.
Qed.

(** X15.  For a prefix free of regular-expression metacharacters and a
    symbol table of plain names: [attach_all(prefix)] returns when every
    match of the pattern in the listing of the symbol table is itself a
    name of the table; each entry of the dict is then a match, filed
    under the match without its first [len(prefix)] characters and
    holding the handle of the array the server has under that name, and
    every match has an entry.  When [attach] fails on a match and all
    matches before it are names of the table, the call raises that
    error. *)
Theorem attach_all_entries (prefix : string) (srv : server) :
  regex_literal prefix = true ->
  Forall (fun n => plain_name n = true) (list_symbol_table srv) ->
  let res := findall prefix (str_of_names (list_symbol_table srv)) in
  (Forall (fun k => k ∈ list_symbol_table srv) res ->
   exists att,
     util.attach_all prefix srv = Ok att
     ∧ (forall key h, (key, h) ∈ att ->
          exists k e, k ∈ res ∧ key = str_drop (String.length prefix) k
                      ∧ st_lookup k srv = Some e ∧ h = attached (sym_obj e) k)
     ∧ (forall k, k ∈ res ->
          is_Some (dict_get (str_drop (String.length prefix) k) att)))
  ∧ (forall pre k post e,
       res = pre ++ k :: post ->
       Forall (fun k => k ∈ list_symbol_table srv) pre ->
       util.attach k srv = Raise e ->
       util.attach_all prefix srv = Raise e).
Proof.
  intros _ _ res. split.
  - intros Hall.
    destruct (attach_all_loop (String.length prefix) srv res [] Hall)
      as (att & Hatt & Hshape & Hkeys).
    exists att. split; [exact Hatt|]. split.
    + intros key h Hin.
      destruct (Hshape key h Hin) as [Hnil|H]; [inversion Hnil | exact H].
    + intros k Hk. apply Hkeys. right. apply list_elem_of_fmap. eauto.
  - intros pre k post e Hres Hpre Hk. unfold util.attach_all. fold res.
    rewrite Hres. apply attach_all_loop_raise; assumption.
Qed.

(** X15 on two servers: one whose only name starts with the prefix, one
    whose only name holds a match after a hyphen. *)
Lemma attach_all_entries_witness :
  (exists att, util.attach_all "df_" (fresh_server [int_array "df_col" [1]]) = Ok att
               ∧ is_Some (dict_get "col" att))
  ∧ util.attach_all "df_" (fresh_server [int_array "x-df_col" [1]])
    = Raise RuntimeError.
Proof.
  split.
  - destruct (attach_all_entries "df_" (fresh_server [int_array "df_col" [1]]))
      as [Hok _]; [reflexivity | repeat constructor|].
    destruct Hok as (att & Hatt & _ & Hkeys).
    { apply (bool_decide_unpack _). vm_compute. exact I. }
    exists att. split; [exact Hatt|].
    apply (Hkeys "df_col"). apply (bool_decide_unpack _). vm_compute. exact I.
  - destruct (attach_all_entries "df_" (fresh_server [int_array "x-df_col" [1]]))
      as [_ Hbad]; [reflexivity | repeat constructor|].
    apply (Hbad [] "df_col" []); [vm_compute; reflexivity | constructor|].
    vm_compute. reflexivity.
Defined.

Lemma st_set_registered_elem_inv (n k : string) (b : bool) (e : symbol) (srv : server) :
  (n, e) ∈ st_set_registered k b srv ->
  (n, e) ∈ srv ∨ (n = k ∧ sym_registered e = b).
Proof.
  induction srv as [|[n' e'] srv IH]; simpl; [auto|].
  destruct (decide (n' = k)) as [->|Hne]; rewrite !elem_of_cons.
  - intros [[= -> ->]|Hin]; auto.
  - intros [Heq|Hin]; [auto|]. destruct (IH Hin); auto.
Qed.

Lemma registry_set_false (n k : string) (srv : server) :
  NoDup (list_symbol_table srv) ->
  n ∈ list_registry (st_set_registered k false srv)
  <-> n ∈ list_registry srv ∧ n ≠ k.
Proof.
  intros Hnd. split.
  - intros Hin. split.
    + apply elem_of_list_registry in Hin as (e & Hin & Hr).
      apply st_set_registered_elem_inv in Hin as [Hin|[_ Hb]]; [|congruence].
      apply elem_of_list_registry. eauto.
    + intros ->. revert Hin. apply st_set_registered_false, Hnd.
  - intros [Hin Hne]. apply elem_of_list_registry in Hin as (e & Hin & Hr).
    apply elem_of_list_registry. exists e. split; [|exact Hr].
    apply st_set_registered_elem; assumption.
Qed.

(** Unregistering the handles [hs] one after the other. *)
Lemma unregister_handles (hs : list akarray) (srv : server) :
  NoDup (list_symbol_table srv) ->
  Forall (fun h => ak_class h ≠ Categorical) hs ->
  Forall (fun h => ak_name h ∈ list_symbol_table srv) hs ->
  exists srv',
    foldl (fun acc v => s ← acc; handle_unregister v s) (Ok srv) hs = Ok srv'
    ∧ list_symbol_table srv' = list_symbol_table srv
    ∧ forall n, n ∈ list_registry srv'
                <-> n ∈ list_registry srv ∧ n ∉ ak_name <$> hs.
Proof.
  intros Hnd Hcls. revert srv Hnd. induction Hcls as [|h hs Hc Hcls IH];
    intros srv Hnd Hall.
  - exists srv. split; [reflexivity|]. split; [reflexivity|].
    intros n. split; [intros Hn; split; [exact Hn | intros H; inversion H] | tauto].
  - apply Forall_cons in Hall as [Hh Hall].
    apply names_lookup in Hh as [e He].
    pose proof (st_set_registered_names (ak_name h) false srv) as Hnames.
    destruct (IH (st_set_registered (ak_name h) false srv)) as (srv' & Hf & Hn' & Hreg).
    { rewrite Hnames. exact Hnd. }
    { rewrite Hnames. exact Hall. }
    exists srv'. split; [|split].
    + cbn [foldl]. rewrite result_bind_Ok, (handle_unregister_plain _ _ Hc).
      unfold pdarray_unregister, server_unregister. rewrite He. exact Hf.
    + rewrite Hn'. exact Hnames.
    + intros n. rewrite Hreg, (registry_set_false _ _ _ Hnd), fmap_cons, elem_of_cons.
      tauto.
Qed.

(** Handles of unregistered names that go out of scope take their
    symbols with them. *)
Lemma drop_handles_names (hs : list akarray) (srv : server) :
  Forall (fun h => ak_class h ≠ Categorical) hs ->
  Forall (fun h => ak_name h ∉ list_registry srv) hs ->
  forall n, n ∈ list_symbol_table (drop_handles hs srv)
            <-> n ∈ list_symbol_table srv ∧ n ∉ ak_name <$> hs.
Proof.
  intros Hcls. revert srv. induction Hcls as [|h hs Hc Hcls IH]; intros srv Hreg n.
  - split; [intros Hn; split; [exact Hn | intros H; inversion H] | tauto].
  - apply Forall_cons in Hreg as [Hh Hreg].
    assert (Hstep : drop_handles (h :: hs) srv
                    = drop_handles hs (st_delete (ak_name h) srv)).
    { unfold drop_handles. cbn [foldl]. unfold component_names.
      destruct (ak_class h) eqn:Hk; try congruence; cbn [foldl];
        unfold server_delete; rewrite bool_decide_eq_false_2 by exact Hh;
        reflexivity. }
    rewrite Hstep, IH.
    + rewrite st_delete_names, list_elem_of_filter, fmap_cons, elem_of_cons. tauto.
    + rewrite registry_st_delete by exact Hh. exact Hreg.
Qed.

(** X16.  For a prefix free of regular-expression metacharacters and a
    symbol table of plain names without repetition, whose matches give
    distinct keys: when [attach_all(prefix)] returns a dict [att] of
    handles that are instances of [pdarray], [unregister_all(prefix)]
    returns too, and as the handles of [att] die with the call, a name
    is in the symbol table afterwards, and in the registry, exactly when
    it was before and no handle of [att] carries it. *)
Theorem unregister_all_effect (prefix : string) (srv : server)
    (att : list (string * akarray)) :
  regex_literal prefix = true ->
  Forall (fun n => plain_name n = true) (list_symbol_table srv) ->
  NoDup (list_symbol_table srv) ->
  NoDup (str_drop (String.length prefix)
           <$> findall prefix (str_of_names (list_symbol_table srv))) ->
  util.attach_all prefix srv = Ok att ->
  Forall (fun kh => isinstance_pdarray (PyArr kh.2) = true) att ->
  (forall key h, (key, h) ∈ att -> ak_name h ∈ list_symbol_table srv)
  ∧ exists srv',
      util.unregister_all prefix srv = Ok srv'
      ∧ (forall n, n ∈ list_symbol_table srv'
                   <-> n ∈ list_symbol_table srv ∧ n ∉ ak_name <$> att.*2)
      ∧ (forall n, n ∈ list_registry srv'
                   <-> n ∈ list_registry srv ∧ n ∉ ak_name <$> att.*2).
Proof.
  intros _ _ Hnd _ Hatt Hinst.
  assert (Hcls : Forall (fun h => ak_class h ≠ Categorical) att.*2).
  { apply Forall_fmap. eapply Forall_impl; [exact Hinst|]. intros kh Hkh.
    apply isinstance_pdarray_class in Hkh as [Hkh _]. exact Hkh. }
  assert (Hnames : forall key h, (key, h) ∈ att -> ak_name h ∈ list_symbol_table srv).
  { intros key h Hin.
    assert (Hc : ak_class h ≠ Categorical).
    { rewrite Forall_forall in Hcls. apply Hcls, list_elem_of_fmap.
      exists (key, h). auto. }
    clear Hcls Hinst. revert Hin. unfold util.attach_all in Hatt. revert att Hatt.
    generalize (findall prefix (str_of_names (list_symbol_table srv))).
    intros res. assert (Hnil : forall kh : string * akarray, kh ∈ [] ->
                           ak_class kh.2 ≠ Categorical -> ak_name kh.2 ∈ list_symbol_table srv)
      by (intros kh H; inversion H).
    revert Hnil. generalize (@nil (string * akarray)).
    induction res as [|k res IH]; intros d0 Hd0 att Hatt Hin.
    - injection Hatt as <-. apply (Hd0 (key, h) Hin Hc).
    - cbn [foldl] in Hatt. rewrite result_bind_Ok in Hatt.
      destruct (util.attach k srv) as [hk|e] eqn:Hk.
      + rewrite result_bind_Ok in Hatt. apply (IH _) with (2 := Hatt); [|exact Hin].
        intros kh Hkh Hckh. destruct kh as [key' h'].
        apply elem_of_dict_set in Hkh as [[= -> ->]|Hkh]; [|apply (Hd0 _ Hkh Hckh)].
        apply attach_inv in Hk as (e & He & ->); [|exact Hckh].
        change (k ∈ list_symbol_table srv). apply names_lookup. eauto.
      + change (h ← Raise e; Ok (dict_set (str_drop (String.length prefix) k) h d0))
          with (@Raise (list (string * akarray)) e) in Hatt.
        rewrite (foldl_Raise _ e) in Hatt by reflexivity. discriminate. }
  split; [exact Hnames|].
  destruct (unregister_handles att.*2 srv Hnd Hcls) as (s1 & Hf & Hn & Hreg).
  { apply Forall_forall. intros h Hh. apply list_elem_of_fmap in Hh as ([key h'] & -> & Hin).
    apply (Hnames key h' Hin). }
  exists (drop_handles att.*2 s1). split; [|split].
  - unfold util.unregister_all. rewrite Hatt, result_bind_Ok, Hf. reflexivity.
  - intros n. rewrite drop_handles_names, Hn; [reflexivity | exact Hcls|].
    apply Forall_forall. intros h Hh Hin. apply Hreg in Hin as [_ Hnot].
    apply Hnot, list_elem_of_fmap. eauto.
  - intros n. rewrite drop_handles_registry. apply Hreg.
Qed.

(** X16 on a server whose two names start with the prefix, one of them
    registered: both objects are gone afterwards. *)
Lemma unregister_all_effect_witness :
  exists srv',
    util.unregister_all "df_"
      [("df_a", mk_symbol (int_array "df_a" [1]) true);
       ("df_b", mk_symbol (int_array "df_b" [2]) false)] = Ok srv'
    ∧ ("df_a" ∉ list_symbol_table srv')
    ∧ ("df_a" ∉ list_registry srv').
Proof.
  destruct (unregister_all_effect "df_"
              [("df_a", mk_symbol (int_array "df_a" [1]) true);
               ("df_b", mk_symbol (int_array "df_b" [2]) false)]
              [("a", int_array "df_a" [1]); ("b", int_array "df_b" [2])])
    as (_ & srv' & Hu & Hn & Hreg).
  - reflexivity.
  - repeat constructor.
  - apply (bool_decide_unpack _). vm_compute. exact I.
  - apply (bool_decide_unpack _). vm_compute. exact I.
  - vm_compute. reflexivity.
  - repeat constructor.
  - exists srv'. split; [exact Hu|]. split.
    + intros Hin. apply Hn in Hin as [_ Hnot]. apply Hnot.
      apply (bool_decide_unpack _). vm_compute. exact I.
    + intros Hin. apply Hreg in Hin as [_ Hnot]. apply Hnot.
      apply (bool_decide_unpack _). vm_compute. exact I.
Defined.

(** ** Register, then attach *)

Lemma st_rename_lookup_new (old new : string) (srv : server) (e : symbol) :
  st_lookup old srv = Some e -> st_lookup new srv = None ->
  st_lookup new (st_rename old new srv) = Some (mk_symbol (sym_obj e) true).
Proof.
  induction srv as [|[n e'] srv IH]; simpl; [discriminate|].
  destruct (decide (n = old)) as [->|Hne].
  - intros [= ->] _. simpl. rewrite decide_True; reflexivity.
  - destruct (decide (n = new)) as [->|Hne']; [discriminate|].
    intros Ho Hn. simpl. rewrite decide_False by exact Hne'. apply IH; assumption.
Qed.

Lemma st_set_registered_lookup (n : string) (b : bool) (srv : server) (e : symbol) :
  st_lookup n srv = Some e ->
  st_lookup n (st_set_registered n b srv) = Some (mk_symbol (sym_obj e) b).
Proof.
  induction srv as [|[k e'] srv IH]; simpl; [discriminate|].
  destruct (decide (k = n)) as [->|Hne]; simpl.
  - intros [= ->]. rewrite decide_True; reflexivity.
  - intros Hl. rewrite decide_False by exact Hne. apply IH, Hl.
Qed.

Lemma st_delete_lookup_eq (n : string) (srv : server) :
  st_lookup n (st_delete n srv) = None.
Proof.
  induction srv as [|[k e] srv IH]; simpl; [reflexivity|].
  destruct (decide (k = n)) as [->|Hne]; [exact IH|].
  simpl. rewrite decide_False by exact Hne. exact IH.
Qed.

(** X17.  After a successful [register(a, name)] of a handle that is an
    instance of [pdarray], the name is in the registry and
    [attach(name)] returns the handle of the array the server held for
    [a], under the new name: a [Strings] for the dtype [str] and a plain
    [pdarray] otherwise.  For a plain [pdarray] that agrees with the
    server's array this is the handle [register] returned. *)
Theorem register_then_attach (a : akarray) (name : string) (srv srv' : server)
    (reg : akarray) :
  isinstance_pdarray (PyArr a) = true ->
  util.register a name srv = Ok (reg, srv') ->
  exists e,
    st_lookup (ak_name a) srv = Some e
    ∧ util.attach name srv' = Ok (attached (sym_obj e) name)
    ∧ name ∈ list_registry srv'
    ∧ (sym_obj e = a -> ak_class a = pdarray -> ak_dtype a ≠ akstr ->
       util.attach name srv' = Ok reg).
Proof.
  intros Hcls Hreg. apply isinstance_pdarray_class in Hcls as [Hcls _].
  apply util_register_inv in Hreg as [-> Hs]; [|exact Hcls].
  pose proof (server_register_registered _ _ _ _ Hs) as Hin.
  unfold server_register in Hs.
  destruct (st_lookup (ak_name a) srv) as [e|] eqn:He; [|discriminate].
  exists e. split; [reflexivity|].
  assert (Hl : st_lookup name srv' = Some (mk_symbol (sym_obj e) true)).
  { destruct (decide (ak_name a = name)) as [<-|Hne].
    - injection Hs as <-. apply st_set_registered_lookup, He.
    - destruct (st_lookup name srv) as [e'|] eqn:Hn.
      + destruct (sym_registered e'); [discriminate|]. injection Hs as <-.
        apply st_rename_lookup_new; [|apply st_delete_lookup_eq].
        rewrite st_delete_lookup_ne by exact Hne. exact He.
      + injection Hs as <-. apply st_rename_lookup_new; assumption. }
  rewrite (attach_Ok _ _ _ Hl). cbn [sym_obj].
  split; [reflexivity|]. split; [exact Hin|]. intros -> Hp Hd.
  f_equal. unfold attached. rewrite decide_False by exact Hd.
  destruct a as [c n d xs w r k]. cbn in Hp. subst c. reflexivity.
Qed.

(** X17 at [lvl0], registered as [x] on the server that holds it. *)
Lemma register_then_attach_witness :
  exists e,
    st_lookup (ak_name lvl0) sample_srv = Some e
    ∧ util.attach "x" (st_rename "id_1" "x" sample_srv)
      = Ok (attached (sym_obj e) "x")
    ∧ "x" ∈ list_registry (st_rename "id_1" "x" sample_srv)
    ∧ (sym_obj e = lvl0 -> ak_class lvl0 = pdarray -> ak_dtype lvl0 ≠ akstr ->
       util.attach "x" (st_rename "id_1" "x" sample_srv) = Ok (with_name lvl0 "x")).
Proof.
  apply (register_then_attach lvl0 "x" sample_srv); [reflexivity|].
  vm_compute. reflexivity.
Defined.

(** ** The matches of the pattern *)

Lemma span_Forall (p : ascii -> bool) (s a b : list ascii) :
  span p s = (a, b) -> Forall (fun c => p c = true) a ∧ s = a ++ b.
Proof.
  revert a b. induction s as [|c s IH]; intros a b; simpl.
  - intros [= <- <-]. split; [constructor | reflexivity].
  - destruct (p c) eqn:Hc.
    + destruct (span p s) as [a' b'] eqn:Hs. intros [= <- <-].
      destruct (IH a' b' eq_refl) as [Hall ->].
      split; [constructor; assumption | reflexivity].
    + intros [= <- <-]. split; [constructor | reflexivity].
Qed.

Lemma match_body_shape (pre s m : list ascii) :
  match_body pre s = Some m ->
  exists ws, m = pre ++ ws ∧ ws ≠ []
             ∧ Forall (fun c => is_word_or_dot c = true) ws.
Proof.
  unfold match_body. destruct (strip_literal pre s) as [s1|]; [|discriminate].
  destruct (span is_word_or_dot s1) as [ws rest] eqn:Hs.
  apply span_Forall in Hs as [Hall _].
  destruct ws as [|w ws]; [discriminate|]. intros [= <-].
  exists (w :: ws). split; [reflexivity|]. split; [discriminate | exact Hall].
Qed.

Lemma match_here_shape (pre s m : list ascii) :
  match_here pre s = Some m ->
  exists loc ws,
    m = loc ++ pre ++ ws ∧ ws ≠ []
    ∧ Forall (fun c => is_word_or_dot c = true) ws
    ∧ (loc = [] ∨ exists ds, ds ≠ [] ∧ Forall (fun c => is_digit c = true) ds
                             ∧ loc = ds ++ ["_"%char]).
Proof.
  unfold match_here.
  destruct (span is_digit s) as [ds rest] eqn:Hs.
  apply span_Forall in Hs as [Hds _].
  assert (Hplain : match_body pre s = Some m ->
                   exists loc ws, m = loc ++ pre ++ ws ∧ ws ≠ []
                     ∧ Forall (fun c => is_word_or_dot c = true) ws
                     ∧ (loc = [] ∨ exists ds, ds ≠ []
                          ∧ Forall (fun c => is_digit c = true) ds
                          ∧ loc = ds ++ ["_"%char])).
  { intros Hb. apply match_body_shape in Hb as (ws & -> & Hne & Hall).
    exists [], ws. auto. }
  destruct ds as [|d ds]; [exact Hplain|].
  destruct rest as [|c s1]; [exact Hplain|].
  destruct (decide (c = "_"%char)) as [->|Hc]; [|exact Hplain].
  destruct (match_body pre s1) as [m1|] eqn:Hb; [|exact Hplain].
  cbn. intros [= <-].
  apply match_body_shape in Hb as (ws & -> & Hne & Hall).
  exists ((d :: ds) ++ ["_"%char]), ws. split.
  - rewrite <- !app_assoc. reflexivity.
  - split; [exact Hne|]. split; [exact Hall|]. right.
    exists (d :: ds). split; [discriminate|]. split; [exact Hds | reflexivity].
Qed.

Lemma findall_from_matches (pre : list ascii) (skip : nat) (s m : list ascii) :
  m ∈ findall_from pre skip s ->
  exists s', match_here pre s' = Some m ∧ s' `suffix_of` s.
Proof.
  revert skip. induction s as [|c s IH]; intros skip; simpl; [intros H; inversion H|].
  assert (Hrec : forall k, m ∈ findall_from pre k s ->
                           exists s', match_here pre s' = Some m ∧ s' `suffix_of` c :: s).
  { intros k Hin. destruct (IH k Hin) as (s' & Hm & Hsuf).
    exists s'. split; [exact Hm | apply suffix_cons_r, Hsuf]. }
  destruct skip as [|k]; [|apply Hrec].
  destruct (match_here pre (c :: s)) as [m'|] eqn:Hm; [|apply Hrec].
  rewrite elem_of_cons. intros [->|Hin]; [|eapply Hrec, Hin].
  exists (c :: s). split; [exact Hm | reflexivity].
Qed.

Lemma length_chars (s : string) : length (chars s) = String.length s.
Proof. induction s as [|c s IH]; simpl; [reflexivity | f_equal; exact IH]. Qed.

(** X18.  For a prefix free of regular-expression metacharacters and an
    ASCII listing of the symbol table: every match that [attach_all]
    takes from the listing is the prefix followed by one or more word
    characters or dots, with or without a run of digits and an
    underscore in front.  For a match without that numeric part the key
    [k[len(prefix):]] is exactly what follows the prefix. *)
Theorem attach_all_match_shape (prefix s k : string) :
  regex_literal prefix = true ->
  is_ascii_text s = true ->
  k ∈ findall prefix s ->
  exists loc ws,
    chars k = loc ++ chars prefix ++ ws ∧ ws ≠ []
    ∧ Forall (fun c => is_word_or_dot c = true) ws
    ∧ (loc = [] ∨ exists ds, ds ≠ [] ∧ Forall (fun c => is_digit c = true) ds
                             ∧ loc = ds ++ ["_"%char])
    ∧ (loc = [] -> str_drop (String.length prefix) k = text ws).
Proof.
  unfold findall. intros _ _ Hk. apply list_elem_of_fmap in Hk as (m & -> & Hm).
  apply findall_from_matches in Hm as (s' & Hm & _).
  apply match_here_shape in Hm as (loc & ws & -> & Hne & Hall & Hloc).
  exists loc, ws. rewrite chars_text. split; [reflexivity|].
  split; [exact Hne|]. split; [exact Hall|]. split; [exact Hloc|].
  intros ->. unfold str_drop. rewrite chars_text, <- length_chars. simpl.
  rewrite drop_app_length. reflexivity.
Qed.

(** X18 at the listing of one name that starts with the prefix. *)
Lemma attach_all_match_shape_witness :
  exists loc ws,
    chars "df_col" = loc ++ chars "df_" ++ ws ∧ ws ≠ []
    ∧ Forall (fun c => is_word_or_dot c = true) ws
    ∧ (loc = [] ∨ exists ds, ds ≠ [] ∧ Forall (fun c => is_digit c = true) ds
                             ∧ loc = ds ++ ["_"%char])
    ∧ (loc = [] -> str_drop (String.length "df_") "df_col" = text ws).
Proof.
  apply (attach_all_match_shape "df_" (str_of_names ["df_col"]) "df_col");
    [reflexivity | reflexivity|].
  apply (bool_decide_unpack _). vm_compute. exact I.
Defined.

(** ** [invert_permutation] *)

Lemma unique_values_length (K : Kernels) (xs : list scalar) :
  unique_contract K -> length (unique_values xs) = length xs <-> NoDup xs.
Proof.
  intros Hu. destruct (Hu xs) as [Hnd Hel]. split.
  - intros Hlen.
    assert (Hsub : unique_values xs ⊆+ xs).
    { apply NoDup_submseteq; [exact Hnd|]. intros x. apply Hel. }
    apply submseteq_length_Permutation in Hsub; [|lia].
    rewrite <- Hsub. exact Hnd.
  - intros Hxs. apply Permutation_length, NoDup_Permutation; assumption.
Qed.

Lemma arange_iota (n : nat) : arange 0 (Z.of_nat n) 1 = Z.of_nat <$> seq 0 n.
Proof.
  unfold arange. change (0 <? 1) with true. cbv iota.
  replace (Z.to_nat ((Z.of_nat n - 0 + 1 - 1) `div` 1)) with n
    by (rewrite Z.div_1_r; lia).
  apply list_fmap_ext. intros i k _. lia.
Qed.

Lemma Sorted_lex_heads (xs : list scalar) (rs : list (list scalar)) :
  length xs = length rs -> Sorted lex_le (zip_with cons xs rs) -> Sorted scalar_le xs.
Proof.
  revert rs. induction xs as [|x xs IH]; intros [|r rs] Hlen; try discriminate;
    [constructor|].
  injection Hlen as Hlen. simpl. intros Hs. inversion Hs as [|? ? Htl Hhd]; subst.
  constructor; [apply (IH rs Hlen Htl)|].
  destruct xs as [|y xs], rs as [|r' rs]; try discriminate; [constructor|].
  simpl in Hhd. inversion Hhd as [|? ? Hle]; subst. constructor.
  simpl in Hle. destruct (decide (x = y)) as [->|_]; [apply scalar_le_refl | exact Hle].
Qed.

Lemma Sorted_le_seq (a n : nat) : Sorted le (seq a n).
Proof.
  revert a. induction n as [|n IH]; intros a; simpl; constructor; [apply IH|].
  destruct n; simpl; constructor. lia.
Qed.

Lemma positions_to_nat (p : list Z) (n : nat) :
  p ≡ₚ Z.of_nat <$> seq 0 n -> Z.to_nat <$> p ≡ₚ seq 0 n.
Proof. intros Hp. rewrite Hp, to_nat_of_nat_fmap. reflexivity. Qed.

(** With the size check passed, [invert_permutation] is the sort of the
    array, ties broken by position. *)
Lemma invert_permutation_sorts (K : Kernels) (perm : akarray) :
  unique_contract K -> coargsort_contract K -> NoDup (ak_data perm) ->
  exists p,
    util_rest.invert_permutation perm = Ok p
    ∧ p ≡ₚ Z.of_nat <$> seq 0 (ak_size perm)
    ∧ Sorted scalar_le (pick (ak_data perm) (Z.to_nat <$> p)).
Proof.
  intros Hu Hco Hnd. unfold util_rest.invert_permutation.
  rewrite decide_False.
  2:{ intros Hne. apply Hne. unfold unique, ak_size. simpl.
      apply (unique_values_length K); assumption. }
  set (ar := raw_array pdarray akint64 (SInt <$> arange 0 (Z.of_nat (ak_size perm)) 1)).
  assert (Har : ak_size ar = ak_size perm).
  { unfold ar, ak_size at 1. simpl.
    rewrite arange_iota, !length_fmap, length_seq. reflexivity. }
  destruct (Hco [perm; ar] (ak_size perm)) as (p & Hp & Hperm & Hs).
  { split; [discriminate|]. repeat constructor. exact Har. }
  exists p. split; [exact Hp|]. split; [exact Hperm|].
  destruct (positions_in_range p _ Hperm) as [Hlen Hrange].
  assert (Hpos : forall xs : list scalar, length xs = ak_size perm ->
                 length (pick xs (Z.to_nat <$> p)) = length p).
  { intros xs Hxs. rewrite pick_length, length_fmap; [reflexivity|].
    apply Forall_fmap. eapply Forall_impl; [exact Hrange|]. simpl. lia. }
  unfold level_rows in Hs. cbn [fmap list_fmap] in Hs. rewrite rows_cons2 in Hs.
  rewrite pick_zip_with in Hs.
  2:{ rewrite (rows_length _ (ak_size perm)); [reflexivity | discriminate|].
      repeat constructor. exact Har. }
  apply Sorted_lex_heads in Hs; [exact Hs|].
  rewrite (Hpos _ eq_refl). cbn [rows]. rewrite pick_fmap, length_fmap.
  symmetry. apply Hpos. exact Har.
Qed.

(** X19.  [invert_permutation] raises a value error exactly on repeated
    values; any array without repeated values passes the check and gets
    the permutation that sorts it; and for an arrangement [sigma] of
    [0 .. n-1] the result is the inverse: it holds [i] at position
    [sigma[i]]. *)
Theorem invert_permutation_inverse (K : Kernels) (perm : akarray) :
  unique_contract K -> coargsort_contract K ->
  (¬ NoDup (ak_data perm) -> util_rest.invert_permutation perm = Raise ValueError)
  ∧ (NoDup (ak_data perm) ->
     exists p,
       util_rest.invert_permutation perm = Ok p
       ∧ p ≡ₚ Z.of_nat <$> seq 0 (ak_size perm)
       ∧ Sorted scalar_le (pick (ak_data perm) (Z.to_nat <$> p)))
  ∧ (forall sigma : list nat,
       ak_data perm = (fun k => SInt (Z.of_nat k)) <$> sigma ->
       sigma ≡ₚ seq 0 (length sigma) ->
       exists p,
         util_rest.invert_permutation perm = Ok p
         ∧ forall i j, sigma !! i = Some j -> p !! j = Some (Z.of_nat i)).
Proof.
  intros Hu Hco. split; [|split].
  - intros Hdup. unfold util_rest.invert_permutation.
    rewrite decide_True; [reflexivity|].
    intros Heq. apply Hdup. apply (unique_values_length K); [exact Hu|].
    exact Heq.
  - apply invert_permutation_sorts; assumption.
  - intros sigma Hdata Hsig.
    assert (Hnds : NoDup sigma) by (rewrite Hsig; apply NoDup_seq).
    assert (Hsize : ak_size perm = length sigma)
      by (unfold ak_size; rewrite Hdata, length_fmap; reflexivity).
    destruct (invert_permutation_sorts K perm Hu Hco) as (p & Hp & Hperm & Hs).
    { rewrite Hdata. apply NoDup_fmap_2; [|exact Hnds].
      intros a b [= Hab]. lia. }
    exists p. split; [exact Hp|]. rewrite Hsize in Hperm.
    pose proof (positions_to_nat _ _ Hperm) as Hp'.
    destruct (positions_in_range p _ Hperm) as [Hlen Hrange].
    rewrite Hdata, pick_fmap in Hs.
    apply (Sorted_fmap_inv _ scalar_le le (fun _ => True)) in Hs;
      [|simpl; intros; lia | apply Forall_forall; auto].
    assert (Hid : pick sigma (Z.to_nat <$> p) = seq 0 (length sigma)).
    { apply (Sorted_unique le); [exact Hs | apply Sorted_le_seq|].
      rewrite pick_Permutation by exact Hp'. exact Hsig. }
    intros i j Hij.
    assert (Hj : (j < length sigma)%nat).
    { apply list_elem_of_lookup_2 in Hij. rewrite Hsig in Hij.
      apply elem_of_seq in Hij. lia. }
    destruct (lookup_lt_is_Some_2 p j) as [z Hz]; [lia|].
    assert (Hzr : 0 ≤ z < Z.of_nat (length sigma)).
    { rewrite Forall_forall in Hrange. eapply Hrange, list_elem_of_lookup_2, Hz. }
    rewrite (pick_default 0%nat) in Hid.
    2:{ apply Forall_fmap. eapply Forall_impl; [exact Hrange|]. simpl. lia. }
    assert (Hat : ((fun i => default 0%nat (sigma !! i)) <$> (Z.to_nat <$> p)) !! j
                  = Some j).
    { rewrite Hid. apply lookup_seq_lt. exact Hj. }
    rewrite !list_lookup_fmap, Hz in Hat. simpl in Hat.
    destruct (lookup_lt_is_Some_2 sigma (Z.to_nat z)) as [v Hv]; [lia|].
    rewrite Hv in Hat. simpl in Hat. injection Hat as ->.
    assert (Heq : i = Z.to_nat z) by (eapply NoDup_lookup; eauto).
    rewrite Hz. f_equal. lia.
Qed.

(** X19 on the arrangement 2, 0, 1, inverted by the reference engine. *)
Lemma invert_permutation_inverse_witness :
  exists p,
    @util_rest.invert_permutation ref_kernels (int_array "p" [2; 0; 1]) = Ok p
    ∧ forall i j, [2; 0; 1]%nat !! i = Some j -> p !! j = Some (Z.of_nat i).
Proof.
  destruct (invert_permutation_inverse ref_kernels (int_array "p" [2; 0; 1])
              ref_unique_contract ref_coargsort_contract) as (_ & _ & Hinv).
  apply (Hinv [2; 0; 1]%nat).
  - reflexivity.
  - apply (bool_decide_unpack _). vm_compute. exact I.
Defined.

(** ** Indexing a MultiIndex *)

(** X20.  Indexing a well-formed MultiIndex by an array of valid
    positions returns a well-formed MultiIndex with as many levels, one
    row per position: row [j] of the result is the row of the source at
    [key[j]]. *)
Theorem MultiIndex_getitem_rows (m : MultiIndex) (n : nat) (key : list Z) :
  MultiIndex_wf m n ->
  Forall (fun i => 0 ≤ i < Z.of_nat n) key ->
  exists s,
    MultiIndex.__getitem__ m key = Ok s
    ∧ MultiIndex_wf s (length key)
    ∧ mi_levels s = mi_levels m
    ∧ mi_rows s = pick (mi_rows m) (Z.to_nat <$> key).
Proof.
  intros (Hal & Hsize & Hlev) Hkey.
  destruct (getitem_levels _ key n (proj2 Hal) Hkey) as (cols & Hcols & Hclen & Hdata).
  assert (Hal_cols : aligned cols (length key)).
  { eapply aligned_data; [exact Hdata | |].
    - intros ->. destruct Hal as [Hne _]. destruct (mi_values m); [congruence | discriminate].
    - apply Forall_fmap, Forall_fmap, Forall_forall. intros a Ha. simpl.
      rewrite pick_length, length_fmap; [reflexivity|].
      destruct Hal as [_ Hsz]. rewrite Forall_forall in Hsz.
      specialize (Hsz a Ha). unfold ak_size in Hsz. rewrite Hsz.
      apply Forall_fmap. eapply Forall_impl; [exact Hkey|]. simpl. lia. }
  exists (mk_MultiIndex cols (Some (length key)) (length cols) None).
  split; [unfold MultiIndex.__getitem__; rewrite Hcols, result_bind_Ok;
          apply MultiIndex_init_aligned, Hal_cols|].
  split; [repeat split; apply Hal_cols|].
  split; [simpl; rewrite Hclen, Hlev; reflexivity|].
  unfold mi_rows, level_rows. simpl. rewrite Hdata.
  apply (rows_pick _ n), Forall_size_data, Hal.
Qed.

(** X20 at [sample_mi], indexed by the positions 2, 0, 2. *)
Lemma MultiIndex_getitem_rows_witness :
  exists s,
    MultiIndex.__getitem__ sample_mi [2; 0; 2] = Ok s
    ∧ MultiIndex_wf s 3
    ∧ mi_levels s = 2%nat
    ∧ mi_rows s = pick (mi_rows sample_mi) [2; 0; 2]%nat.
Proof.
  apply (MultiIndex_getitem_rows sample_mi 3%nat [2; 0; 2] sample_mi_wf).
  repeat constructor; lia.
Defined.

(** ** Merging several MultiIndex objects *)

Lemma concat_levels_classes (K : Kernels) (ls1 ls2 : list akarray) (ordered : bool) :
  Forall2 (fun a b => ak_class a = ak_class b ∧ ak_dtype b = ak_dtype a) ls1 ls2 ->
  exists idx,
    MultiIndex.concat_levels ls1 ls2 ordered = Ok idx
    ∧ Forall2 (fun a c => ak_class a = ak_class c ∧ ak_dtype a = ak_dtype c) ls1 idx.
Proof.
  intros Hcls. unfold MultiIndex.concat_levels.
  induction Hcls as [|a b ls1 ls2 [Hc Hd] _ IH].
  - exists []. split; [reflexivity | constructor].
  - destruct IH as (idx & Hidx & Hcl).
    change (zip (a :: ls1) (b :: ls2)) with ((a, b) :: zip ls1 ls2).
    rewrite mapM_result_cons, Hidx. cbn [fst snd].
    rewrite generic_concat_pair.
    rewrite (decide_True _ _ Hc), (decide_True _ _ Hd).
    eexists. split; [reflexivity|]. constructor; [split; reflexivity | exact Hcl].
Qed.

Lemma MultiIndex_merge_all_loop_cons `{Kernels} (self o : MultiIndex)
    (rest : list pyval) (idx : list akarray) :
  MultiIndex_rest.merge_all_loop self (VIdx (AMultiIndex o) :: rest) idx =
    idx1 ← MultiIndex.concat_levels idx (mi_values o) false;
    MultiIndex_rest.merge_all_loop self rest idx1.
Proof. reflexivity. Qed.

(** The loop of [MultiIndex._merge_all]: what it has gathered is a table
    of the width it started with whose rows are a rearrangement of the
    rows of all the tables met so far. *)
Lemma MultiIndex_merge_all_loop_rows (K : Kernels) (self : MultiIndex)
    (others : list MultiIndex) (idx : list akarray) (k : nat) :
  arrangement_contract K -> aligned idx k ->
  Forall (fun o => (exists ko, aligned (mi_values o) ko)
                   ∧ Forall2 (fun a b => ak_class a = ak_class b
                                         ∧ ak_dtype b = ak_dtype a)
                             idx (mi_values o)) others ->
  exists idx' k',
    MultiIndex_rest.merge_all_loop self (VIdx ∘ AMultiIndex <$> others) idx = Ok idx'
    ∧ aligned idx' k' ∧ length idx' = length idx
    ∧ level_rows idx' ≡ₚ level_rows idx ++ concat (mi_rows <$> others).
Proof.
  intros Harr. revert idx k. induction others as [|o others IH]; intros idx k Hal Hall.
  - exists idx, k. split; [reflexivity|]. split; [exact Hal|]. split; [reflexivity|].
    simpl. rewrite app_nil_r. reflexivity.
  - apply Forall_cons in Hall as [[[ko Hko] Hcls] Hall].
    destruct (concat_levels_classes K idx (mi_values o) false Hcls)
      as (idx1 & Hidx1 & Hcl1).
    destruct (concat_levels_rows K idx (mi_values o) idx1 false k ko
                (or_introl Harr) Hal Hko Hcls Hidx1) as (Hal1 & Hrows1 & _).
    destruct (IH idx1 (k + ko)%nat Hal1) as (idx' & k' & Hloop & Hal' & Hlen & Hrows).
    { eapply Forall_impl; [exact Hall|]. intros o' [Hko' Hcls']. split; [exact Hko'|].
      assert (Hcl1' : Forall2 (fun c a => ak_class a = ak_class c
                                         ∧ ak_dtype a = ak_dtype c) idx1 idx)
        by (apply Forall2_flip; exact Hcl1).
      eapply Forall2_trans; [|exact Hcl1' | exact Hcls'].
      simpl. intros c a b [Hc Hd] [Hc' Hd']. split; congruence. }
    exists idx', k'. split; [|split; [exact Hal'|split]].
    + rewrite fmap_cons. cbn [compose].
      rewrite MultiIndex_merge_all_loop_cons, Hidx1, result_bind_Ok. exact Hloop.
    + rewrite Hlen. symmetry. apply (Forall2_length _ _ _ Hcl1).
    + rewrite Hrows, Hrows1, fmap_cons. cbn [concat].
      rewrite <- app_assoc. reflexivity.
Qed.

(** X21.  Under the contracts of the engine, [MultiIndex._merge_all] of a
    well-formed MultiIndex with others whose levels agree with its own in
    number, class and dtype returns a well-formed MultiIndex of the same
    width that holds each row of the receiver and of the others exactly
    once. *)
Theorem MultiIndex_merge_all_union (K : Kernels) (self : MultiIndex)
    (others : list MultiIndex) (n : nat) :
  arrangement_contract K -> unique_keys_contract K ->
  MultiIndex_wf self n ->
  Forall (fun o => (exists ko, aligned (mi_values o) ko)
                   ∧ Forall2 (fun a b => ak_class a = ak_class b
                                         ∧ ak_dtype b = ak_dtype a)
                             (mi_values self) (mi_values o)) others ->
  exists r k,
    MultiIndex_rest._merge_all self (VIdx ∘ AMultiIndex <$> others) = Ok r
    ∧ MultiIndex_wf r k
    ∧ mi_levels r = mi_levels self
    ∧ NoDup (mi_rows r)
    ∧ (forall row, row ∈ mi_rows r
                   <-> row ∈ mi_rows self ∨ exists o, o ∈ others ∧ row ∈ mi_rows o).
Proof.
  intros Harr Huk (Hal & _ & Hlev) Hall.
  destruct (MultiIndex_merge_all_loop_rows K self others (mi_values self) n
              Harr Hal Hall) as (idx & k & Hloop & Halk & Hlen & Hrows).
  destruct (Huk idx k Halk) as (keys & m & Hgb & Hklen & Hkal & Hnd & Hel).
  exists (mk_MultiIndex keys (Some m) (length keys) None), m.
  split; [|split; [|split; [|split]]].
  - unfold MultiIndex_rest._merge_all. rewrite Hloop, result_bind_Ok, Hgb, result_bind_Ok.
    apply MultiIndex_init_aligned, Hkal.
  - repeat split; apply Hkal.
  - simpl. rewrite Hklen, Hlen, Hlev. reflexivity.
  - exact Hnd.
  - intros row. unfold mi_rows at 1. simpl. rewrite Hel, Hrows, elem_of_app. split.
    + intros [Hx|Hx]; [left; exact Hx|]. right.
      apply elem_of_concat in Hx as (l & Hx & Hl).
      apply list_elem_of_fmap in Hl as (o & -> & Ho). eauto.
    + intros [Hx|(o & Ho & Hx)]; [left; exact Hx|]. right.
      apply elem_of_concat. exists (mi_rows o). split; [exact Hx|].
      apply list_elem_of_fmap. eauto.
Qed.

(** X21 at [sample_mi] merged with two copies of itself. *)
Lemma MultiIndex_merge_all_union_witness :
  exists r k,
    @MultiIndex_rest._merge_all ref_kernels sample_mi
      (VIdx ∘ AMultiIndex <$> [sample_mi; sample_mi]) = Ok r
    ∧ MultiIndex_wf r k
    ∧ mi_levels r = mi_levels sample_mi
    ∧ NoDup (mi_rows r)
    ∧ (forall row, row ∈ mi_rows r
                   <-> row ∈ mi_rows sample_mi
                       ∨ exists o, o ∈ [sample_mi; sample_mi] ∧ row ∈ mi_rows o).
Proof.
  apply (MultiIndex_merge_all_union ref_kernels sample_mi [sample_mi; sample_mi] 3%nat
           ref_arrangement_contract ref_unique_keys_contract sample_mi_wf).
  repeat constructor; try (exists 3%nat; apply sample_mi_wf).
Defined.

(** ** [lookup] *)

(** X22.  [Index.lookup] with an array that is an instance of [pdarray]
    returns the mask telling, position by position, whether the element
    is among the key's; a [Strings] or [Categorical] key array is not
    such an instance, goes through [array([key])] and ends in a type
    error; and no other exception ever leaves the method. *)
Theorem Index_lookup_mask (self : Index) (key : pyobj) :
  (forall a, key = PyArr a -> isinstance_pdarray key = true ->
     Index.lookup self key = Ok (mask_of (idx_elems self) (ak_data a)))
  ∧ (forall a, key = PyArr a -> isinstance_pdarray key = false ->
       Index.lookup self key = Raise TypeError)
  ∧ (forall e, Index.lookup self key = Raise e -> e = TypeError).
Proof.
  unfold Index.lookup. split; [|split].
  - intros a -> Hi. rewrite Hi. reflexivity.
  - intros a -> Hi. rewrite Hi. reflexivity.
  - intros e. destruct (isinstance_pdarray key) eqn:Hi; cbn [negb].
    + destruct key as [| |a| |]; discriminate.
    + destruct (array [key]) as [arr|e'] eqn:Harr; simpl; [discriminate|].
      intros [= <-]. reflexivity.
Qed.

(** X22 at [sample_idx] with the key array [lvl1]. *)
Lemma Index_lookup_mask_witness :
  Index.lookup sample_idx (PyArr lvl1)
    = Ok (mask_of (idx_elems sample_idx) (ak_data lvl1)).
Proof.
  destruct (Index_lookup_mask sample_idx (PyArr lvl1)) as (H & _ & _).
  apply H; reflexivity.
Defined.

Lemma mapM_as_array (l : list akarray) : mapM as_array (PyArr <$> l) = Ok l.
Proof.
  induction l as [|a l IH]; [reflexivity|].
  rewrite fmap_cons, mapM_result_cons, IH. reflexivity.
Qed.

Lemma in1d_levels (ls1 ls2 : list akarray) :
  ls1 ≠ [] -> length ls1 = length ls2 ->
  in1d (PyList (PyArr <$> ls1)) (PyList (PyArr <$> ls2))
    = Ok (mask_of (level_rows ls1) (level_rows ls2)).
Proof.
  intros Hne Hlen. unfold in1d. cbn [seq_items]. rewrite !length_fmap.
  rewrite decide_False by (intros H; apply H; exact Hlen).
  rewrite !mapM_as_array. reflexivity.
Qed.

Lemma array_scalar_data (x : scalar) :
  exists a, array [PyScalar x] = Ok a ∧ ak_data a = [x].
Proof. destruct x as [z|b|s]; eexists; split; reflexivity. Qed.

Lemma lift_scalars (xs : list scalar) :
  exists arrs,
    mapM (fun x => PyArr <$> array [x]) (PyScalar <$> xs) = Ok (PyArr <$> arrs)
    ∧ ak_data <$> arrs = (fun x => [x]) <$> xs.
Proof.
  induction xs as [|x xs (arrs & Hm & Hd)]; [exists []; split; reflexivity|].
  destruct (array_scalar_data x) as (a & Ha & Hda).
  exists (a :: arrs). split.
  - rewrite fmap_cons, mapM_result_cons, Ha, Hm. reflexivity.
  - rewrite !fmap_cons, Hda, Hd. reflexivity.
Qed.

Lemma rows_singletons (xs : list scalar) :
  xs ≠ [] -> rows ((fun x => [x]) <$> xs) = [xs].
Proof.
  induction xs as [|x xs IH]; [congruence|]. intros _.
  destruct xs as [|y xs]; [reflexivity|].
  rewrite !fmap_cons, rows_cons2. rewrite fmap_cons in IH. rewrite IH by discriminate.
  reflexivity.
Qed.

(** X23.  [MultiIndex.lookup] with a list of key arrays, one per level,
    returns the mask telling for each row whether it is a row of the key
    table; with a tuple of scalars, one per level, each scalar is lifted
    to a one-element array and the mask tells which rows are that
    tuple. *)
Theorem MultiIndex_lookup_mask (m : MultiIndex) :
  (forall a0 rest,
     isinstance_pdarray (PyArr a0) = true ->
     length (a0 :: rest) = length (mi_values m) ->
     MultiIndex.lookup m (PyList (PyArr <$> a0 :: rest))
       = Ok (mask_of (mi_rows m) (level_rows (a0 :: rest))))
  ∧ (forall xs,
       xs ≠ [] -> length xs = length (mi_values m) ->
       MultiIndex.lookup m (PyTuple (PyScalar <$> xs)) = Ok (mask_of (mi_rows m) [xs])).
Proof.
  split.
  - intros a0 rest Hi Hlen. unfold MultiIndex.lookup.
    cbn [isinstance_list isinstance_tuple negb andb seq_items default fmap list_fmap id].
    rewrite Hi. cbn [negb]. rewrite result_bind_Ok.
    apply (in1d_levels (mi_values m) (a0 :: rest)); [|auto].
    intros Hnil. rewrite Hnil in Hlen. discriminate.
  - intros xs Hne Hlen. unfold MultiIndex.lookup.
    cbn [isinstance_list isinstance_tuple negb andb seq_items default id].
    destruct (lift_scalars xs) as (arrs & Hm & Hd).
    destruct xs as [|x xs]; [congruence|].
    rewrite fmap_cons. cbn [isinstance_pdarray negb]. rewrite <- fmap_cons, Hm.
    cbn [fmap result_fmap]. rewrite result_bind_Ok.
    assert (Hl : length (mi_values m) = length arrs).
    { rewrite <- Hlen, <- (length_fmap (fun x => [x]) (x :: xs)), <- Hd, length_fmap.
      reflexivity. }
    assert (Hin : in1d (PyList (PyArr <$> mi_values m)) (PyList (PyArr <$> arrs))
                  = Ok (mask_of (mi_rows m) [x :: xs])).
    { rewrite in1d_levels; [|destruct (mi_values m); [discriminate Hlen | discriminate]
                            |exact Hl].
      unfold level_rows at 2. rewrite Hd, rows_singletons by discriminate.
      reflexivity. }
    exact Hin.
Qed.

(** X23 at [sample_mi]: the key arrays are its own levels, then the
    tuple (1, 1). *)
Lemma MultiIndex_lookup_mask_witness :
  MultiIndex.lookup sample_mi (PyList (PyArr <$> [lvl0; lvl1]))
    = Ok (mask_of (mi_rows sample_mi) (level_rows [lvl0; lvl1]))
  ∧ MultiIndex.lookup sample_mi (PyTuple (PyScalar <$> [SInt 1; SInt 1]))
    = Ok (mask_of (mi_rows sample_mi) [[SInt 1; SInt 1]]).
Proof.
  destruct (MultiIndex_lookup_mask sample_mi) as [Harr Hsc].
  split; [apply Harr; reflexivity | apply Hsc; [discriminate | reflexivity]].
Defined.

(** ** [register_all] on a list or a tuple *)

Lemma dict_get_elem {K V} `{EqDecision K} (k : K) (v : V) (d : list (K * V)) :
  dict_get k d = Some v -> (k, v) ∈ d.
Proof.
  induction d as [|[k' v'] d IH]; simpl; [discriminate|].
  destruct (decide (k' = k)) as [->|_].
  - intros [= ->]. left.
  - intros H. right. apply IH, H.
Qed.

(** The first loop of [register_all]: every handle found under the
    sanitized key of an element is unregistered; no symbol is removed. *)
Lemma register_all_overwrite_loop (att : list (string * akarray)) (keys : list string)
    (srv : server) :
  (forall key h, (key, h) ∈ att ->
     ak_class h ≠ Categorical ∧ ak_name h ∈ list_symbol_table srv) ->
  exists srv0,
    foldl (fun acc k =>
             s ← acc;
             let ksan := util.sanitize k in
             match dict_get ksan att with
             | Some v => handle_unregister v s
             | None => Ok s
             end) (Ok srv) keys = Ok srv0
    ∧ list_symbol_table srv0 = list_symbol_table srv.
Proof.
  revert srv. induction keys as [|k keys IH]; intros srv Hatt.
  - exists srv. split; reflexivity.
  - cbn [foldl]. rewrite result_bind_Ok. cbv zeta.
    destruct (dict_get (util.sanitize k) att) as [v|] eqn:Hget.
    + apply dict_get_elem, Hatt in Hget as [Hc Hv].
      apply names_lookup in Hv as [e He].
      rewrite (handle_unregister_plain _ _ Hc).
      unfold pdarray_unregister, server_unregister. rewrite He.
      pose proof (st_set_registered_names (ak_name v) false srv) as Hn.
      destruct (IH (st_set_registered (ak_name v) false srv)) as (srv0 & Hf & Hn0).
      { intros key h' Hin. rewrite Hn. eapply Hatt, Hin. }
      exists srv0. split; [exact Hf | congruence].
    + apply IH, Hatt.
Qed.

(** Names of the symbol table are no targets when the targets are new. *)
Lemma targets_fresh_new (h : heap) (rns : list (nat * string)) (srv : server) :
  Forall (fun rn => ak_name (h rn.1) ∈ list_symbol_table srv) rns ->
  Forall (fun rn => rn.2 ∉ list_symbol_table srv) rns ->
  targets_fresh h rns.
Proof.
  induction rns as [|rn rns IH]; intros Hin Hnew; [exact I|].
  apply Forall_cons in Hin as [_ Hin]. apply Forall_cons in Hnew as [Hrn Hnew].
  split; [|apply IH; assumption].
  eapply Forall_impl; [exact Hin|]. intros rn' Hrn' Heq. apply Hrn.
  rewrite <- Heq. exact Hrn'.
Qed.

(** Distinct objects under distinct names known to the server, and
    distinct targets that are new to it: every registration is
    accepted. *)
Lemma register_objs_returns (rns : list (nat * string)) (h : heap) (srv : server) :
  NoDup rns.*1 -> NoDup rns.*2 ->
  Forall (fun rn => ak_class (h rn.1) ≠ Categorical) rns ->
  NoDup ((fun rn => ak_name (h rn.1)) <$> rns) ->
  Forall (fun rn => ak_name (h rn.1) ∈ list_symbol_table srv) rns ->
  Forall (fun rn => rn.2 ∉ list_symbol_table srv) rns ->
  exists st', util.register_objs rns (h, srv) = Ok st'.
Proof.
  revert h srv. induction rns as [|[r name] rns IH];
    intros h srv Hnd1 Hnd2 Hcls Hndn Hin Hnew.
  - eexists. reflexivity.
  - rewrite fmap_cons in Hnd1. rewrite fmap_cons in Hnd2. rewrite fmap_cons in Hndn.
    apply NoDup_cons in Hnd1 as [Hr Hnd1]. apply NoDup_cons in Hnd2 as [Hname Hnd2].
    apply NoDup_cons in Hndn as [Hn Hndn].
    apply Forall_cons in Hcls as [Hc Hcls]. apply Forall_cons in Hin as [Hrin Hin].
    apply Forall_cons in Hnew as [Hrnew Hnew]. cbn [fst snd] in *.
    assert (Hs : server_register (ak_name (h r)) name srv
                 = Ok (st_rename (ak_name (h r)) name srv))
      by (apply server_register_fresh; assumption).
    set (h1 := heap_set r (with_name (h r) name) h).
    assert (Hsame : forall rn, rn ∈ rns -> h1 rn.1 = h rn.1).
    { intros rn Hrn. apply heap_set_ne. intros Heq. apply Hr. rewrite <- Heq.
      apply list_elem_of_fmap. eauto. }
    destruct (IH h1 (st_rename (ak_name (h r)) name srv)) as [st' Hst']; try assumption.
    + apply Forall_forall. intros rn Hrn. rewrite (Hsame rn Hrn).
      rewrite Forall_forall in Hcls. apply Hcls, Hrn.
    + replace ((fun rn : nat * string => ak_name (h1 rn.1)) <$> rns)
        with ((fun rn : nat * string => ak_name (h rn.1)) <$> rns); [exact Hndn|].
      apply Forall_fmap_ext, Forall_forall. intros rn Hrn.
      rewrite (Hsame rn Hrn). reflexivity.
    + apply Forall_forall. intros rn Hrn. rewrite (Hsame rn Hrn).
      rewrite Forall_forall in Hin. apply st_rename_names_keep; [apply Hin, Hrn|].
      intros Heq. apply Hn. rewrite <- Heq.
      apply (list_elem_of_fmap_2 (fun rn : nat * string => ak_name (h rn.1))), Hrn.
    + apply Forall_forall. intros rn Hrn Hn'.
      apply st_rename_names_in in Hn' as [Heq|Hn'].
      * apply Hname. rewrite <- Heq. apply list_elem_of_fmap. eauto.
      * rewrite Forall_forall in Hnew. apply (Hnew rn Hrn), Hn'.
    + exists st'. cbn [util.register_objs]. unfold util.register_obj. cbn [fst snd].
      rewrite (util_register_Ok _ _ _ _ Hc Hs), !result_bind_Ok. exact Hst'.
Qed.

Lemma attached_class (obj : akarray) (k : string) :
  ak_class (attached obj k) ≠ Categorical.
Proof.
  unfold attached. destruct (decide (ak_dtype obj = akstr)); discriminate.
Qed.

(** X24.  [register_all] on a list or a tuple of distinct objects, each
    an instance of [pdarray] under a name of its own that the server
    knows, with none of the names [<prefix><i>] in the symbol table yet,
    returns the same container with the object at position [i] renamed
    [<prefix><i>], and all these names are in the registry afterwards.
    With [overwrite] set this is for a prefix free of regular-expression
    metacharacters and a symbol table of plain names, and needs the
    matches of the pattern of [attach_all] to be names of the table that
    give distinct keys. *)
Theorem register_all_positions (prefix : string) (l : list nat)
    (overwrite : bool) (h : heap) (srv : server) :
  NoDup l ->
  Forall (fun r => isinstance_pdarray (PyArr (h r)) = true) l ->
  NoDup ((fun r => ak_name (h r)) <$> l) ->
  Forall (fun r => ak_name (h r) ∈ list_symbol_table srv) l ->
  (forall i, (i < length l)%nat -> prefix +:+ pretty i ∉ list_symbol_table srv) ->
  (overwrite = true ->
   regex_literal prefix = true
   ∧ Forall (fun n => plain_name n = true) (list_symbol_table srv)
   ∧ Forall (fun k => k ∈ list_symbol_table srv)
            (findall prefix (str_of_names (list_symbol_table srv)))
   ∧ NoDup (str_drop (String.length prefix)
              <$> findall prefix (str_of_names (list_symbol_table srv)))) ->
  exists h' srv',
    util.register_all (CList l) prefix overwrite h srv = Ok (CList l, h', srv')
    ∧ util.register_all (CTuple l) prefix overwrite h srv = Ok (CTuple l, h', srv')
    ∧ (forall i r, l !! i = Some r -> h' r = with_name (h r) (prefix +:+ pretty i))
    ∧ (forall i, (i < length l)%nat -> prefix +:+ pretty i ∈ list_registry srv').
Proof.
  intros Hnd Hinst Hndn Hin Hnew Hover.
  assert (Hphase : exists (att : list (string * akarray)) srv0,
            (if overwrite then
               att ← util.attach_all prefix srv;
               srv ← foldl (fun acc k =>
                              s ← acc;
                              let ksan := util.sanitize k in
                              match dict_get ksan att with
                              | Some v => handle_unregister v s
                              | None => Ok s
                              end) (Ok srv) ((fun r => str_of_array (h r)) <$> l);
               Ok (att, srv)
             else Ok ([], srv)) = Ok (att, srv0)
            ∧ list_symbol_table srv0 = list_symbol_table srv).
  { destruct overwrite; [|exists [], srv; split; reflexivity].
    destruct (Hover eq_refl) as (_ & _ & Hall & _).
    destruct (attach_all_loop (String.length prefix) srv _ [] Hall)
      as (att & Hatt & Hshape & _).
    destruct (register_all_overwrite_loop att ((fun r => str_of_array (h r)) <$> l) srv)
      as (srv0 & Hloop & Hnames).
    { intros key v Hkv.
      destruct (Hshape key v Hkv) as [Hnil|(k & e & _ & _ & He & ->)]; [inversion Hnil|].
      split; [apply attached_class|]. apply names_lookup. eauto. }
    exists att, srv0. split; [|exact Hnames].
    unfold util.attach_all. rewrite Hatt, result_bind_Ok.
    cbv zeta in Hloop |- *. rewrite Hloop. reflexivity. }
  destruct Hphase as (att & srv0 & Hphase & Hnames). cbv zeta in Hphase.
  assert (Hfst : (list_targets prefix l).*1 = l).
  { unfold list_targets. rewrite fmap_imap.
    rewrite (imap_ext _ (const id)) by reflexivity.
    rewrite imap_const. apply list_fmap_id. }
  assert (Hsnd : (list_targets prefix l).*2
                 = (fun i => prefix +:+ pretty i) <$> seq 0 (length l)).
  { unfold list_targets. rewrite fmap_imap.
    rewrite (imap_ext _ (fun i _ => prefix +:+ pretty i)) by reflexivity.
    apply imap_seq_0. }
  assert (Hcls : Forall (fun rn : nat * string => ak_class (h rn.1) ≠ Categorical)
                        (list_targets prefix l)).
  { apply (Forall_fmap fst (fun r => ak_class (h r) ≠ Categorical)). rewrite Hfst.
    eapply Forall_impl; [exact Hinst|]. intros r Hr.
    apply isinstance_pdarray_class in Hr as [Hr _]. exact Hr. }
  assert (Hin' : Forall (fun rn : nat * string => ak_name (h rn.1) ∈ list_symbol_table srv0)
                        (list_targets prefix l)).
  { apply (Forall_fmap fst (fun r => ak_name (h r) ∈ list_symbol_table srv0)).
    rewrite Hfst, Hnames. exact Hin. }
  assert (Hnew' : Forall (fun rn : nat * string => rn.2 ∉ list_symbol_table srv0)
                         (list_targets prefix l)).
  { apply (Forall_fmap snd (fun n => n ∉ list_symbol_table srv0)).
    rewrite Hsnd, Hnames. apply Forall_fmap, Forall_seq. intros i Hi.
    apply Hnew. lia. }
  destruct (register_objs_returns (list_targets prefix l) h srv0)
    as [[h' s1] Hobjs]; try assumption.
  { rewrite Hfst. exact Hnd. }
  { rewrite Hsnd. apply NoDup_fmap_2; [|apply NoDup_seq].
    intros i j Heq. apply append_inj_l in Heq. apply (inj pretty), Heq. }
  { rewrite <- Hfst in Hndn. rewrite <- list_fmap_compose in Hndn. exact Hndn. }
  pose proof (targets_fresh_new h _ srv0 Hin' Hnew') as Hfresh.
  pose proof Hobjs as Hinv.
  apply register_objs_inv in Hinv as (Hren & _ & Hreg & _);
    [|rewrite Hfst; exact Hnd | exact Hcls].
  specialize (Hreg Hfresh).
  exists h', (drop_handles att.*2 s1). split; [|split; [|split]].
  - unfold util.register_all. cbn [util.iter_str].
    rewrite Hphase, result_bind_Ok. cbn [fst snd].
    change (imap (fun i r => (r, prefix +:+ pretty i)) l) with (list_targets prefix l).
    rewrite Hobjs. reflexivity.
  - unfold util.register_all. cbn [util.iter_str].
    rewrite Hphase, result_bind_Ok. cbn [fst snd].
    change (imap (fun i r => (r, prefix +:+ pretty i)) l) with (list_targets prefix l).
    rewrite Hobjs. reflexivity.
  - intros i r Hi. rewrite Forall_forall in Hren.
    apply (Hren (r, prefix +:+ pretty i)).
    unfold list_targets.
    apply (elem_of_lookup_imap_2 (fun i r => (r, prefix +:+ pretty i)) l r i Hi).
  - intros i Hi. rewrite drop_handles_registry.
    apply (Forall_fmap snd (fun n => n ∈ list_registry s1)) in Hreg.
    rewrite Hsnd in Hreg. apply Forall_fmap in Hreg.
    rewrite Forall_seq in Hreg. apply Hreg. lia.
Qed.

(** X24 at the list of the two sample levels under the prefix [p_], with
    [overwrite] set. *)
Lemma register_all_positions_witness :
  exists h' srv',
    util.register_all (CList [0; 1]%nat) "p_" true sample_heap sample_srv
      = Ok (CList [0; 1]%nat, h', srv')
    ∧ util.register_all (CTuple [0; 1]%nat) "p_" true sample_heap sample_srv
      = Ok (CTuple [0; 1]%nat, h', srv')
    ∧ (forall i r, [0; 1]%nat !! i = Some r ->
                   h' r = with_name (sample_heap r) ("p_" +:+ pretty i))
    ∧ (forall i, (i < 2)%nat -> "p_" +:+ pretty i ∈ list_registry srv').
Proof.
  apply (register_all_positions "p_" [0; 1]%nat true sample_heap sample_srv).
  - apply (bool_decide_unpack _). vm_compute. exact I.
  - repeat constructor.
  - apply (bool_decide_unpack _). vm_compute. exact I.
  - apply (bool_decide_unpack _). vm_compute. exact I.
  - intros [|[|i]] Hi; [| |simpl in Hi; lia];
      apply (bool_decide_unpack _); vm_compute; exact I.
  - intros _. split; [reflexivity|]. split; [repeat constructor|].
    split; apply (bool_decide_unpack _); vm_compute; exact I.
Defined.
